(** * radon-extension-build: dependency validator, link registry, module
    resolver, install and release tasks.

    A shallow embedding of the parts of the build tool that carry logic:
    - [Validator] (core/validator): link registry, dependency parsing,
      per-edge policy checks, the sticky error flag and the final audit;
    - [ModuleResolver] (core/module): [resolve] and [resolveMany];
    - [Install] (tasks/travis/install): [getBranches] and [clone];
    - [Package] (core/package): [updatePackage] and [writePackage];
    - [Push] (tasks/release/push): [getTargetBranches] and the two polling
      loops [getTravisStatus] and [awaitTravisBuild];
    - [PackageModules] and [PackageLocks] (core/package): [orderModules],
      [getPackageModules], [updatePackageLocks] and [writePackageLocks];
    - [Linking] (tasks/travis/install): [link];
    - [Git] (core/git): [contributors] and [status];
    - [Release] (tasks/release/push): [awaitBuild], [pushBranch] and
      [pushTag].

    Conventions.  JavaScript strings are [string]; numbers that count or
    index are [Z] or [nat]; [null]/[undefined] is [None].  Objects used as
    dictionaries are [gmap]s when only lookups matter and association lists
    when the iteration order is observable.  Where the code indexes a plain
    object with [object[name]], a name that is not an own key still finds the
    members every object inherits from [Object.prototype] ([JS.property]).
    The objects the code builds with lodash's [Set] and reads with [Get]
    ([checked], [dependencies], [links]) are nested maps, which is what
    lodash makes of ordinary keys ([JS.ordinary]); the other functions of
    lodash are taken as documented, without the refusal of the keys
    [JS.refused] that its later versions add.  [Object.prototype] is as the language
    defines it when a function is entered.
    Promises are modelled by their outcome ([Resolved] or [Rejected]);
    everything the code does with the outside world (the file system, git,
    GitHub, Travis, the logger) is an explicit argument or an explicit piece
    of state. *)

From Stdlib Require Import ZArith List String Ascii Bool Lia Sorted.
From stdpp Require Import base gmap strings list fin_maps.

Set Default Proof Using "Type".
Set Warnings "-register-all".

(* ===================================================================== *)
(** ** JavaScript string primitives *)
(* ===================================================================== *)

Module JS.

(** [s.startsWith(p)] *)
Definition startsWith (s p : string) : bool := String.prefix p s.

(** [s.indexOf(t)]: the least position at which [t] occurs in [s], or -1.
    [from] is the position of the first character of [s] in the string the
    search started on. *)
Fixpoint indexOf_from (s t : string) (from : Z) : Z :=
  if String.prefix t s then from
  else match s with
       | EmptyString => (-1)%Z
       | String _ s' => indexOf_from s' t (from + 1)%Z
       end.

Definition indexOf (s t : string) : Z := indexOf_from s t 0%Z.

(** [s.lastIndexOf(t)]: the greatest position at which [t] occurs, or -1. *)
Fixpoint lastIndexOf_from (s t : string) (from : Z) : Z :=
  match s with
  | EmptyString => if String.prefix t EmptyString then from else (-1)%Z
  | String _ s' =>
      let later := lastIndexOf_from s' t (from + 1)%Z in
      if (0 <=? later)%Z then later
      else if String.prefix t s then from else (-1)%Z
  end.

Definition lastIndexOf (s t : string) : Z := lastIndexOf_from s t 0%Z.

(** [s.substring(a, b)]: both indices are clamped to [0, length] and swapped
    when [a > b]. *)
Definition substring (s : string) (a b : Z) : string :=
  let len := Z.of_nat (String.length s) in
  let a' := Z.min (Z.max a 0) len in
  let b' := Z.min (Z.max b 0) len in
  let lo := Z.min a' b' in
  let hi := Z.max a' b' in
  String.substring (Z.to_nat lo) (Z.to_nat (hi - lo)) s.

(** [s.substring(a)] *)
Definition substringFrom (s : string) (a : Z) : string :=
  substring s a (Z.of_nat (String.length s)).

(** [a || b] on strings: the empty string is falsy. *)
Definition orElse (a b : string) : string :=
  match a with EmptyString => b | _ => a end.

(** [IsNil(x)] of lodash: [x] is [null] or [undefined]. *)
Definition IsNil {A : Type} (x : option A) : bool :=
  match x with None => true | Some _ => false end.

(** [list.indexOf(x) >= 0] on an array of strings. *)
Definition includes (l : list string) (x : string) : bool :=
  existsb (String.eqb x) l.

(** Decimal rendering of a non-negative integer, as string concatenation of
    a number does. *)
Fixpoint digits_fuel (fuel : nat) (n : N) (acc : string) : string :=
  match fuel with
  | O => acc
  | S fuel' =>
      let d := Ascii.ascii_of_N (48 + N.modulo n 10) in
      let acc' := String d acc in
      if (n <? 10)%N then acc' else digits_fuel fuel' (N.div n 10) acc'
  end.

Definition numberToString (n : N) : string :=
  digits_fuel (S (N.to_nat (N.log2 n))) n EmptyString.

(** The number a string of decimal digits denotes. *)
Fixpoint parseDigits (s : string) (acc : N) : option N :=
  match s with
  | EmptyString => Some acc
  | String c s' =>
      let code := Ascii.N_of_ascii c in
      if (48 <=? code)%N && (code <=? 57)%N
      then parseDigits s' (10 * acc + (code - 48))%N
      else None
  end.

(** The array index a property name denotes: the name is the canonical
    decimal numeral of an integer below 2^32 - 1.  Such keys come first, in
    ascending order, when the keys of an object are listed. *)
Definition arrayIndex (name : string) : option N :=
  match name with
  | EmptyString => None
  | _ =>
      match parseDigits name 0 with
      | Some n =>
          if String.eqb (numberToString n) name && (n <? 4294967295)%N
          then Some n else None
      | None => None
      end
  end.

(** [s.indexOf(t, start)] *)
Definition indexOfAt (s t : string) (start : Z) : Z :=
  let start := Z.min (Z.max start 0) (Z.of_nat (String.length s)) in
  indexOf_from (substringFrom s start) t start.

(** The names every object inherits from [Object.prototype]. *)
Definition ObjectPrototype : list string :=
  ["constructor"; "__defineGetter__"; "__defineSetter__"; "hasOwnProperty";
   "__lookupGetter__"; "__lookupSetter__"; "isPrototypeOf";
   "propertyIsEnumerable"; "toString"; "valueOf"; "__proto__"; "toLocaleString"].

Definition inherited (name : string) : bool := includes ObjectPrototype name.

(** The keys that later versions of lodash refuse to set, in [Set] and in
    the functions built on it, [PickBy] among them. *)
Definition refused (name : string) : bool :=
  includes ["__proto__"; "constructor"; "prototype"] name.

(** An ordinary key of the objects that lodash's [Set] builds: neither the
    name of a member every object inherits nor a key that [Set] may
    refuse. *)
Definition ordinary (name : string) : bool :=
  negb (inherited name) && negb (refused name).

(** What [object[name]] yields on a plain object: the value of an own key,
    else the member of [Object.prototype] of that name (a function, or
    [Object.prototype] itself for [__proto__]), else [undefined]. *)
Inductive Property (V : Type) : Type :=
| Own (value : V)
| Inherited
| Undefined.

Arguments Own {V} value.
Arguments Inherited {V}.
Arguments Undefined {V}.

(** [object[name]], given the own key of that name if there is one. *)
Definition property {V : Type} (own : option V) (name : string) : Property V :=
  match own with
  | Some value => Own value
  | None => if inherited name then Inherited else Undefined
  end.

(** [x === s] for a string [s] and an [x] that is a string or
    [undefined]. *)
Definition equals (x : option string) (s : string) : bool :=
  match x with
  | Some t => String.eqb t s
  | None => false
  end.

(** The [name] of the member every object inherits under [member]: a
    function bears the name it is found under, except that [constructor] is
    [Object]; [__proto__] is the prototype itself, which has no [name]. *)
Definition memberName (member : string) : option string :=
  if String.eqb member "constructor" then Some "Object"
  else if String.eqb member "__proto__" then None
  else Some member.

(** [IsNil(object[name])]: a member of [Object.prototype] is not nil. *)
Definition IsNilProperty {V : Type} (p : Property V) : bool :=
  match p with Undefined => true | _ => false end.

End JS.

(* ===================================================================== *)
(** ** Regular expressions (the fragment the validator uses)

    A pattern without back-references or look-around matches a string under
    the backtracking semantics exactly when the string is in its language,
    so matching is decided by Brzozowski derivatives. *)
(* ===================================================================== *)

Module Regex.

Inductive re : Type :=
| Empty                       (* matches nothing *)
| Eps                         (* matches the empty string *)
| Class (p : ascii -> bool)   (* one character satisfying [p] *)
| Seq (r1 r2 : re)
| Alt (r1 r2 : re)
| Star (r : re).

Definition Plus (r : re) : re := Seq r (Star r).
Definition Opt (r : re) : re := Alt r Eps.
Definition Chr (c : ascii) : re := Class (Ascii.eqb c).

Fixpoint nullable (r : re) : bool :=
  match r with
  | Empty => false
  | Eps => true
  | Class _ => false
  | Seq r1 r2 => nullable r1 && nullable r2
  | Alt r1 r2 => nullable r1 || nullable r2
  | Star _ => true
  end.

Fixpoint deriv (c : ascii) (r : re) : re :=
  match r with
  | Empty => Empty
  | Eps => Empty
  | Class p => if p c then Eps else Empty
  | Seq r1 r2 =>
      if nullable r1 then Alt (Seq (deriv c r1) r2) (deriv c r2)
      else Seq (deriv c r1) r2
  | Alt r1 r2 => Alt (deriv c r1) (deriv c r2)
  | Star r1 => Seq (deriv c r1) (Star r1)
  end.

(** Whole-string match, i.e. the pattern between [^] and [$]. *)
Fixpoint matches (r : re) (s : string) : bool :=
  match s with
  | EmptyString => nullable r
  | String c s' => matches (deriv c r) s'
  end.

(** The language of a pattern, as a relation (the specification the
    derivative matcher is checked against). *)
Inductive lang : re -> string -> Prop :=
| lang_eps : lang Eps EmptyString
| lang_class p c : p c = true -> lang (Class p) (String c EmptyString)
| lang_seq r1 r2 s1 s2 : lang r1 s1 -> lang r2 s2 -> lang (Seq r1 r2) (s1 +:+ s2)
| lang_alt_l r1 r2 s : lang r1 s -> lang (Alt r1 r2) s
| lang_alt_r r1 r2 s : lang r2 s -> lang (Alt r1 r2) s
| lang_star_nil r : lang (Star r) EmptyString
| lang_star_cons r s1 s2 : lang r s1 -> lang (Star r) s2 -> lang (Star r) (s1 +:+ s2).

(** [\d] *)
Definition is_digit (c : ascii) : bool :=
  let n := Ascii.nat_of_ascii c in (48 <=? n)%nat && (n <=? 57)%nat.

(** [\w]: ASCII letters, digits and the underscore. *)
Definition is_word (c : ascii) : bool :=
  let n := Ascii.nat_of_ascii c in
  is_digit c
  || ((65 <=? n)%nat && (n <=? 90)%nat)
  || ((97 <=? n)%nat && (n <=? 122)%nat)
  || (n =? 95)%nat.

Definition digit : re := Class is_digit.
Definition word : re := Class is_word.
Definition dot : re := Chr "."%char.
Definition dash : re := Chr "-"%char.

End Regex.

(* ===================================================================== *)
(** ** Shared vocabulary: outcomes, log entries, manifests *)
(* ===================================================================== *)

(** A call either returns a value or throws. *)
Inductive Outcome (E A : Type) : Type :=
| Return (a : A)
| Throw (e : E).

Arguments Return {E A} a.
Arguments Throw {E A} e.

Definition throws {E A : Type} (o : Outcome E A) : bool :=
  match o with Return _ => false | Throw _ => true end.

Inductive Level : Type := Debug | Info | Warn | Error.

(** The messages the modelled code writes, one constructor per template;
    the arguments are the interpolated values. *)
Inductive Message : Type :=
| UnableToParse (request : string)
| UnknownSource (dep source : string)
| NotPermitted (dep requester request : string)
| ShouldBeDefined (dep : string) (source : option string)
| ShouldBeDefinedFor (dep requester : string)
| DefinedAsDevelopment (dep requester : string)
| DefinedAsPeer (dep requester : string)
| PinnedToVersion (dep requester found : string)
| CheckedModules (count : nat)
| NotRequired (prefix name : string) (moduleName : option string)
| RegisteredLink (source target : string)
| PackageMismatch (packageName name : string)
| NoRepositoryStatus (moduleName : string)
| RepositoryStatus (name : string)
| InvalidRepositoryStatus (moduleName : string).

Definition LogEntry : Type := Level * Message.

(** An object whose keys are iterated in insertion order. *)
Definition Dict (V : Type) : Type := list (string * V).

Fixpoint dict_get {V : Type} (d : Dict V) (k : string) : option V :=
  match d with
  | [] => None
  | (k', v) :: d' => if String.eqb k k' then Some v else dict_get d' k
  end.

(** [d[k] = v]: an existing key keeps its position, a new key goes last. *)
Fixpoint dict_set {V : Type} (d : Dict V) (k : string) (v : V) : Dict V :=
  match d with
  | [] => [(k, v)]
  | (k', v') :: d' =>
      if String.eqb k k' then (k, v) :: d' else (k', v') :: dict_set d' k v
  end.

Definition dict_keys {V : Type} (d : Dict V) : list string := map fst d.

(** [Object.values(d)] for an object whose keys were added in the order of
    [d]: the values under array indices first, by ascending index, then the
    others in the order they were added. *)
Fixpoint insertIndexed {V : Type} (entry : N * V) (sorted : list (N * V))
  : list (N * V) :=
  match sorted with
  | [] => [entry]
  | e :: rest =>
      if (fst entry <=? fst e)%N then entry :: e :: rest
      else e :: insertIndexed entry rest
  end.

Definition Object_values {V : Type} (d : Dict V) : list V :=
  map snd
    (fold_right insertIndexed []
       (flat_map (fun entry =>
                    match JS.arrayIndex (fst entry) with
                    | Some n => [(n, snd entry)]
                    | None => []
                    end) d))
  ++ flat_map (fun entry =>
                 match JS.arrayIndex (fst entry) with
                 | Some _ => []
                 | None => [snd entry]
                 end) d.

(** The three dependency collections of a parsed package manifest
    ([parsePackageDetails] defaults each of them to an empty object). *)
Module Pkg.
Record t : Type := {
  dependencies : Dict string;
  devDependencies : Dict string;
  peerDependencies : Dict string
}.
End Pkg.

(** A resolved module of the product, as far as the validator reads it. *)
Module Mod.
Record t : Type := {
  name : string;
  type : string;
  path : string;
  package : Pkg.t
}.
End Mod.

Module Extension.
Record t : Type := { package : Pkg.t }.
End Extension.

Module Browser.
Record t : Type := {
  name : string;
  package : string;
  modules : list Mod.t;
  extension : Extension.t
}.
End Browser.

Module Environment.
Record t : Type := { name : string }.
End Environment.

(** A parsed dependency request. *)
Module Dep.
Record t : Type := { name : string; path : option string }.
End Dep.

(** What the validator needs from Node: the file system and [path].
    [existsSync] is also [pathExistsSync] of fs-extra; [isFile path] is
    [statSync(path).isFile()]; [parents path] lists the values of
    [Path.resolve(path, '..')] applied again and again to [path], up to the
    one it maps to itself; [readPackageName path] is
    [readJsonSync(path)['name']], which throws on a file that does not
    parse; the manifests read are those of packages, which have a name. *)
Module Node.
Record t : Type := {
  existsSync : string -> bool;
  isFile : string -> bool;
  dirname : string -> string;
  basename : string -> string;
  join : string -> string -> string;
  parents : string -> list string;
  normalize : string -> string;
  sep : string;
  readPackageName : string -> Outcome unit string
}.
End Node.

(** One module record of the bundler: its request and, for each reason, the
    module that pulled it in ([reason.module], possibly nil).  The type is
    inductive, so reason chains are finite and acyclic; on a cyclic chain
    the recursion of [resolveReasons] would not return. *)
Inductive WebpackModule : Type :=
| MkWebpackModule (userRequest : option string)
                  (reasons : list (option WebpackModule)).

Definition userRequest (m : WebpackModule) : option string :=
  match m with MkWebpackModule u _ => u end.

Definition reasons (m : WebpackModule) : list (option WebpackModule) :=
  match m with MkWebpackModule _ r => r end.

(* ===================================================================== *)
(** ** core/validator: the dependency validator and the link registry *)
(* ===================================================================== *)

Module Validator.

Import Regex.

(** [DependencyVersionRegex = /^\d+\.\d+\.\d+(\-\w+(\.\d+)?)?$/g].  The
    [g] flag is harmless here: [String.prototype.match] resets [lastIndex]
    before it searches. *)
Definition DependencyVersionRegex : re :=
  Seq (Plus digit) (Seq dot (Seq (Plus digit) (Seq dot (Seq (Plus digit)
    (Opt (Seq dash (Seq (Plus word) (Opt (Seq dot (Plus digit)))))))))).

(** [version.match(DependencyVersionRegex)] is truthy. *)
Definition isPinned (version : string) : bool :=
  matches DependencyVersionRegex version.

Definition IgnoredPackages : list string :=
  ["jquery"; "react"; "react-dom"; "webpack"].

Definition ModuleScope : string := "@radon-extension/".

(** *** Link registry: [Validator.links]

    browser name, then environment name, then an object from link target
    to link source.  Its keys are paths, which are never array indices, so
    they are iterated in insertion order. *)
Definition Links : Type := gmap string (gmap string (Dict string)).

Definition links_get (links : Links) (browser environment : string)
  : option (Dict string) :=
  match links !! browser with
  | Some per_env => per_env !! environment
  | None => None
  end.

(** [Set(Validator.links, [browser, environment, target], source)] *)
Definition links_set (links : Links) (browser environment target source : string)
  : Links :=
  let per_env := default ∅ (links !! browser) in
  let entries := default [] (per_env !! environment) in
  <[browser := <[environment := dict_set entries target source]> per_env]> links.

(** [name.substring(0, pos).replace(/\\/g, '/')]: every backslash becomes
    a slash. *)
Fixpoint slashes (s : string) : string :=
  match s with
  | EmptyString => EmptyString
  | String c s' =>
      String (if Ascii.eqb c (Ascii.ascii_of_nat 92) then "/"%char else c) (slashes s')
  end.

(** [Validator.getDependencyName(path)] *)
Definition getDependencyName (node : Node.t) (path : string) : option string :=
  let path := Node.normalize node path in
  (* Find module directory *)
  let pos := JS.lastIndexOf path "node_modules" in
  if (pos <? 0)%Z then None
  else
    let name := JS.substringFrom path (pos + 13) in
    (* Remove trailing path *)
    let pos := JS.indexOf name (Node.sep node) in
    if (pos <? 0)%Z then Some name
    else if (JS.indexOf name "@" =? 0)%Z then
      (* Scoped package *)
      let pos := JS.indexOfAt name (Node.sep node) (pos + 1) in
      if (pos <? 0)%Z then Some name
      else Some (slashes (JS.substring name 0 pos))
    else Some (slashes (JS.substring name 0 pos)).

(** [Validator.parseDependency(request)]: what it returns and the
    warning it may write.  The loop starts in the directory of the request
    and goes up until a directory holds a [package.json]. *)
Definition parseDependency (node : Node.t) (request : string)
  : Outcome unit (option Dep.t * list LogEntry) :=
  if negb (Node.existsSync node request) then
    let request :=
      JS.orElse (JS.substring request 0 (JS.indexOf request "/")) request in
    Return (Some {| Dep.name := request; Dep.path := None |}, [])
  else
    let path := if Node.isFile node request then Node.dirname node request else request in
    match
      List.find (fun path => Node.existsSync node (Node.join node path "package.json"))
                (path :: Node.parents node path)
    with
    | None => Return (None, [])
    | Some path =>
        let packagePath := Node.join node path "package.json" in
        match Node.readPackageName node packagePath with
        | Throw e => Throw e
        | Return packageName =>
            Return
              (Some {| Dep.name := packageName; Dep.path := Some path |},
               match getDependencyName node packagePath with
               | Some name =>
                   if negb (String.eqb name packageName)
                   then [(Warn, PackageMismatch packageName name)]
                   else []
               | None => []
               end)
        end
    end.

(** [Validator.registerLink(browser, environment, source, target)].  The
    result pairs the registry with what was logged, the warning of
    [parseDependency] first; reading [dep.name] of a nil [dep] throws. *)
Definition registerLink (node : Node.t) (links : Links)
    (browser : Browser.t) (environment : Environment.t) (source target : string)
  : Outcome unit (Links * list LogEntry) :=
  match parseDependency node source with
  | Throw _ => Return (links, [(Warn, UnableToParse source)])
  | Return (None, _) => Throw tt
  | Return (Some dep, warned) =>
      if (JS.indexOf (Dep.name dep) ModuleScope =? 0)%Z then Return (links, warned)
      else
        let current :=
          match links_get links (Browser.name browser) (Environment.name environment) with
          | Some entries => dict_get entries target
          | None => None
          end in
        let preferred :=
          match current with
          | Some current =>
              let module :=
                Node.basename node
                  (JS.substring current 0 (JS.lastIndexOf current "node_modules" - 1)) in
              String.eqb (Browser.package browser) module
          | None => false
          end in
        if preferred then Return (links, warned)
        else
          Return (links_set links (Browser.name browser) (Environment.name environment)
                    target source,
                  warned ++ [(Info, RegisteredLink source target)])
  end.

(** The body of the [ForEach] of [resolveLink]: the first entry whose
    target occurs in [path] rewrites it and ends the iteration. *)
Fixpoint resolveLink_each (entries : Dict string) (path : string) : string :=
  match entries with
  | [] => path
  | (target, source) :: rest =>
      let index := JS.indexOf path target in
      if (index <? 0)%Z then resolveLink_each rest path
      else source +:+ JS.substringFrom path (index + Z.of_nat (String.length target))
  end.

(** [Validator.resolveLink(browser, environment, path)] *)
Definition resolveLink (links : Links)
    (browser : Browser.t) (environment : Environment.t) (path : option string)
  : option string :=
  match path with
  | None => None
  | Some path =>
      Some (resolveLink_each
              (default [] (links_get links (Browser.name browser)
                                     (Environment.name environment)))
              path)
  end.

(** *** Validator instances

    [checked] and [dependencies] are the two nested objects of the class,
    [_error] the sticky flag; [logger] is the output written to the logger
    so far, oldest entry first. *)
Record t : Type := {
  checked : gmap string (gmap string bool);
  dependencies : gmap string (gmap string (gmap string (gmap string bool)));
  _error : bool;
  logger : list LogEntry
}.

(** [new Validator()] *)
Definition create : t :=
  {| checked := ∅; dependencies := ∅; _error := false; logger := [] |}.

Definition log (v : t) (level : Level) (message : Message) : t :=
  {| checked := checked v; dependencies := dependencies v; _error := _error v;
     logger := logger v ++ [(level, message)] |}.

Definition logAll (v : t) (entries : list LogEntry) : t :=
  {| checked := checked v; dependencies := dependencies v; _error := _error v;
     logger := logger v ++ entries |}.

(** [this._error = true] *)
Definition setError (v : t) : t :=
  {| checked := checked v; dependencies := dependencies v; _error := true;
     logger := logger v |}.

(** [Get(this.checked, [request, source])] *)
Definition isChecked (v : t) (request source : string) : bool :=
  match checked v !! request with
  | Some per_source => default false (per_source !! source)
  | None => false
  end.

(** [Set(this.checked, [request, source], true)] *)
Definition markChecked (v : t) (request source : string) : t :=
  {| checked :=
       <[request := <[source := true]> (default ∅ (checked v !! request))]> (checked v);
     dependencies := dependencies v; _error := _error v; logger := logger v |}.

(** [this.dependencies[browser][environment]], in the object that [Set]
    builds under these names. *)
Definition used (v : t) (browser environment : string)
  : option (gmap string (gmap string bool)) :=
  match dependencies v !! browser with
  | Some per_env => per_env !! environment
  | None => None
  end.

(** [Set(this.dependencies, [browser, environment, module, dep], true)] *)
Definition markUsed (v : t) (browser environment module dep : string) : t :=
  let per_env := default ∅ (dependencies v !! browser) in
  let per_module := default ∅ (per_env !! environment) in
  let per_dep := default ∅ (per_module !! module) in
  {| checked := checked v;
     dependencies :=
       <[browser := <[environment := <[module := <[dep := true]> per_dep]> per_module]>
                      per_env]> (dependencies v);
     _error := _error v; logger := logger v |}.

(** What [validateRequirement] and [validateModule] return: the object
    [{dependency, valid}], or the bare [false] of the pinned-version branch. *)
Inductive Validation : Type :=
| Result (dependency : JS.Property string) (valid : bool)
| ReturnedFalse.

(** [let { dependency, valid } = ...]: destructuring [false] yields
    [undefined] twice. *)
Definition dependencyOf (r : Validation) : JS.Property string :=
  match r with Result d _ => d | ReturnedFalse => JS.Undefined end.

Definition validOf (r : Validation) : bool :=
  match r with Result _ valid => valid | ReturnedFalse => false end.

(** [collection[name]] on one of the collections of a manifest. *)
Definition declared (collection : Dict string) (name : string) : JS.Property string :=
  JS.property (dict_get collection name) name.

(** [moduleDependency.match(DependencyVersionRegex)] is truthy.  The call
    is reached with a string only: a name that one collection inherits is
    not nil in [devDependencies] either, so the test before it returns. *)
Definition matchesPin (moduleDependency : JS.Property string) : bool :=
  match moduleDependency with
  | JS.Own version => isPinned version
  | _ => false
  end.

(** [found: ${moduleDependency}] *)
Definition found (moduleDependency : JS.Property string) : string :=
  match moduleDependency with
  | JS.Own version => version
  | _ => EmptyString
  end.

(** [validateRequirement(dep, module)] *)
Definition validateRequirement (v : t) (dep : Dep.t) (module : Mod.t)
  : Validation * t :=
  let moduleDependency := declared (Pkg.dependencies (Mod.package module)) (Dep.name dep) in
  (* Ensure dependency exists *)
  if JS.IsNilProperty moduleDependency then
    (Result moduleDependency false,
     log v Error (ShouldBeDefinedFor (Dep.name dep) (Mod.name module)))
  (* Ensure development dependency isn't defined *)
  else if negb (JS.IsNilProperty
                  (declared (Pkg.devDependencies (Mod.package module)) (Dep.name dep))) then
    (Result moduleDependency false,
     log v Error (DefinedAsDevelopment (Dep.name dep) (Mod.name module)))
  (* Ensure peer dependency isn't defined *)
  else if negb (JS.IsNilProperty
                  (declared (Pkg.peerDependencies (Mod.package module)) (Dep.name dep))) then
    (Result moduleDependency false,
     log v Error (DefinedAsPeer (Dep.name dep) (Mod.name module)))
  (* Ensure dependency isn't pinned to a version *)
  else if matchesPin moduleDependency then
    (ReturnedFalse,
     setError (log v Error (PinnedToVersion (Dep.name dep) (Mod.name module)
                              (found moduleDependency))))
  else
    (Result moduleDependency true, v).

(** [validateModule(dep, module)] *)
Definition validateModule (v : t) (dep : Dep.t) (module : Mod.t)
  : Validation * t :=
  let moduleDependency :=
    declared (Pkg.peerDependencies (Mod.package module)) (Dep.name dep) in
  (* Ensure dependency exists *)
  if JS.IsNilProperty moduleDependency then
    (Result moduleDependency false,
     log v Error (ShouldBeDefinedFor (Dep.name dep) (Mod.name module)))
  (* Ensure development dependency isn't defined *)
  else if negb (JS.IsNilProperty
                  (declared (Pkg.devDependencies (Mod.package module)) (Dep.name dep))) then
    (Result moduleDependency false,
     log v Error (DefinedAsDevelopment (Dep.name dep) (Mod.name module)))
  (* Ensure dependency isn't pinned to a version *)
  else if matchesPin moduleDependency then
    (ReturnedFalse,
     setError (log v Error (PinnedToVersion (Dep.name dep) (Mod.name module)
                              (found moduleDependency))))
  else
    (Result moduleDependency true, v).

(** [validateDependency(dep, module)] *)
Definition validateDependency (v : t) (dep : Dep.t) (module : Mod.t)
  : Validation * t :=
  if (JS.indexOf (Dep.name dep) ModuleScope =? 0)%Z then validateModule v dep module
  else validateRequirement v dep module.

(** [_isModulePermitted(module, name)] *)
Definition _isModulePermitted (module : option Mod.t) (name : string) : bool :=
  match module with
  | None => true
  | Some _ => String.eqb name "@radon-extension/framework"
  end.

(** [validateReason(browser, environment, source, request)]: the returned
    boolean and the instance afterwards.  What [parseDependency] warns of is
    written first.  [module] is the registered module whose path is a prefix
    of [source]; it stays nil when [source] is nil. *)
Definition validateReason (node : Node.t) (v : t)
    (browser : option Browser.t) (environment : option Environment.t)
    (source request : option string) : bool * t :=
  match browser, environment, request with
  | Some browser, Some environment, Some request =>
      match parseDependency node request with
      | Throw _ => (false, log v Warn (UnableToParse request))
      | Return (None, warned) => (false, log (logAll v warned) Warn (UnableToParse request))
      | Return (Some dep, warned) =>
          let v := logAll v warned in
          if JS.includes IgnoredPackages (Dep.name dep) then (false, v)
          else
            let module :=
              match source with
              | Some source =>
                  List.find (fun module => JS.startsWith source (Mod.path module))
                            (Browser.modules browser)
              | None => None
              end in
            if negb (JS.IsNil source) && JS.IsNil module then
              (false, setError (log v Error (UnknownSource (Dep.name dep) (default "" source))))
            else
              match module with
              | Some module =>
                  (* ignore internal dependencies *)
                  if String.eqb (Dep.name dep) (Mod.name module) then (true, v)
                  (* module dependency rules *)
                  else if JS.startsWith (Dep.name dep) ModuleScope
                          && negb (_isModulePermitted (Some module) (Dep.name dep)) then
                    (false,
                     setError (log v Error
                       (NotPermitted (Dep.name dep) (Mod.name module) request)))
                  (* module dependency *)
                  else if negb (String.eqb (Mod.type module) "package") then
                    let '(result, v) := validateDependency v dep module in
                    if negb (validOf result) then (false, setError v)
                    else if negb (JS.IsNilProperty (dependencyOf result)) then
                      (true, markUsed v (Browser.name browser) (Environment.name environment)
                                      (Mod.name module) (Dep.name dep))
                    else (true, v)
                  else
                    (false, setError (log v Error (ShouldBeDefined (Dep.name dep) source)))
              | None =>
                  (* a nil module is always permitted and never declares anything *)
                  (false, setError (log v Error (ShouldBeDefined (Dep.name dep) source)))
              end
      end
  | _, _, _ => (false, v)
  end.

(** [resolveModule(browser, path, { dependencies })] *)
Definition resolveModule (node : Node.t) (browser : Browser.t) (path : string)
    (dependencies : bool) : option Mod.t :=
  List.find
    (fun module =>
       if String.eqb (Mod.type module) "package"
          || (JS.indexOf path (Mod.path module) <? 0)%Z then false
       else if negb dependencies
               && (-1 <? JS.indexOf path (Node.join node (Mod.path module) "node_modules"))%Z
       then false
       else true)
    (Browser.modules browser).

(** [resolveReasons(browser, environment, module)]: the pairs
    [{ module, source }] in the order they are pushed. *)
Fixpoint resolveReasons (node : Node.t) (links : Links)
    (browser : Browser.t) (environment : Environment.t) (module : WebpackModule)
  : list (WebpackModule * string) :=
  match module with
  | MkWebpackModule _ reasons =>
      flat_map
        (fun reason =>
           match reason with
           | None => []
           | Some parent =>
               match userRequest parent with
               | None => []
               | Some request =>
                   let source :=
                     default request (resolveLink links browser environment (Some request)) in
                   if negb (JS.IsNil (resolveModule node browser source false))
                   then [(module, source)]
                   else resolveReasons node links browser environment parent
               end
           end)
        reasons
  end.

(** [validate(browser, environment, module)] *)
Definition validate (node : Node.t) (links : Links) (v : t)
    (browser : option Browser.t) (environment : option Environment.t)
    (module : option WebpackModule) : t :=
  match browser, environment, module with
  | Some browser, Some environment, Some module =>
      if JS.IsNil (userRequest module) then v
      else
        fold_left
          (fun v '(module, source) =>
             let request := default "undefined" (userRequest module) in
             if isChecked v request source then v
             else
               snd (validateReason node (markChecked v request source)
                      (Some browser) (Some environment) (Some source)
                      (userRequest module)))
          (resolveReasons node links browser environment module) v
  | _, _, _ => v
  end.

Inductive FinishError : Type :=
| DidNotPassValidation        (* Build didn't pass validation *)
| NoDependenciesValidated     (* No dependencies validated *)
| NotAFunction.               (* TypeError: current.hasOwnProperty is not a function *)

(** [current] has a key [hasOwnProperty] of its own, so that
    [current.hasOwnProperty] is a version string. *)
Definition shadowsHasOwnProperty (current : Dict string) : bool :=
  negb (JS.IsNil (dict_get current "hasOwnProperty")).

(** [matched[name]] is truthy: the name is recorded, or it is the name of
    a member every object inherits. *)
Definition isMatched (matched : gmap string bool) (name : string) : bool :=
  match JS.property (matched !! name) name with
  | JS.Own value => value
  | JS.Inherited => true
  | JS.Undefined => false
  end.

(** The loop of [_checkDependencies] over the names of [current], in the
    order [for ... in] yields them: the warnings it writes. *)
Definition unusedIn (prefix : string) (current : Dict string)
    (matched : gmap string bool) (moduleName : option string) : list LogEntry :=
  flat_map
    (fun name =>
       if JS.startsWith name ModuleScope then []
       (* Check if module was used *)
       else if isMatched matched name then []
       (* Display warning *)
       else [(Warn, NotRequired prefix name moduleName)])
    (dict_keys current).

(** [_checkDependencies(prefix, current, matched, moduleName)].  The
    method [hasOwnProperty] is looked up on [current] itself: when [current]
    declares a dependency of that name, the call in the first turn of the
    loop is a call of its version string, which throws. *)
Definition _checkDependencies (prefix : option string) (current : option (Dict string))
    (matched : option (gmap string bool)) (moduleName : option string)
  : Outcome FinishError (list LogEntry) :=
  match prefix, current with
  | Some prefix, Some current =>
      let matched := default ∅ matched in
      if shadowsHasOwnProperty current then Throw NotAFunction
      else Return (unusedIn prefix current matched moduleName)
  | _, _ => Return []
  end.

(** The modules audited by [finish]: neither packages nor tools. *)
Definition audited (module : Mod.t) : bool :=
  negb (JS.includes ["package"; "tool"] (Mod.type module)).

(** The collections [finish] audits: the one of the top-level package,
    then those of the audited modules. *)
Definition auditedCollections (browser : Browser.t) : list (Dict string) :=
  Pkg.dependencies (Extension.package (Browser.extension browser))
  :: map (fun module => Pkg.dependencies (Mod.package module))
         (List.filter audited (Browser.modules browser)).

(** The [ForEach] of [finish] over the audited modules; an exception ends
    it. *)
Fixpoint auditModules (v : t) (matched : gmap string (gmap string bool))
    (modules : list Mod.t) : Outcome FinishError t :=
  match modules with
  | [] => Return v
  | module :: rest =>
      match
        _checkDependencies (Some "Dependency")
          (Some (Pkg.dependencies (Mod.package module)))
          (matched !! Mod.name module) (Some (Mod.name module))
      with
      | Throw e => Throw e
      | Return warned => auditModules (logAll v warned) matched rest
      end
  end.

(** [finish(browser, environment)].  The property name [null] of the
    top-level audit is the key [null] spelled as a string. *)
Definition finish (v : t) (browser : Browser.t) (environment : Environment.t)
  : Outcome FinishError t :=
  if _error v then Throw DidNotPassValidation
  else
    match used v (Browser.name browser) (Environment.name environment) with
    | None => Throw NoDependenciesValidated
    | Some matched =>
        let v := log v Info (CheckedModules (size (checked v))) in
        (* Ensure there are no unused extension dependencies *)
        match
          _checkDependencies (Some "Dependency")
            (Some (Pkg.dependencies (Extension.package (Browser.extension browser))))
            (matched !! "null") None
        with
        | Throw e => Throw e
        | Return warned =>
            (* Ensure there are no unused module dependencies *)
            auditModules (logAll v warned) matched
              (List.filter audited (Browser.modules browser))
        end
    end.

(** *** Validation runs

    One instance serves one run: the plugin creates it, calls [validate]
    (which calls [validateReason]) for the modules of the compilation, and
    ends with [finish].  A call carries the file system and the link
    registry it ran against. *)
Inductive Call : Type :=
| CallValidate (node : Node.t) (links : Links)
    (browser : option Browser.t) (environment : option Environment.t)
    (module : option WebpackModule)
| CallValidateReason (node : Node.t)
    (browser : option Browser.t) (environment : option Environment.t)
    (source request : option string).

Definition step (v : t) (call : Call) : t :=
  match call with
  | CallValidate node links browser environment module =>
      validate node links v browser environment module
  | CallValidateReason node browser environment source request =>
      snd (validateReason node v browser environment source request)
  end.

(** The instance after a sequence of calls on a new validator. *)
Definition run (calls : list Call) : t := fold_left step calls create.

(** [this.dependencies[browser][environment][module][dep]] is truthy: the
    edge from [module] to [dep] is recorded in the used-dependency index. *)
Definition usedEdge (v : t) (browser environment module dep : string) : bool :=
  match used v browser environment with
  | Some per_module => default false (default ∅ (per_module !! module) !! dep)
  | None => false
  end.

(** The version an edge is checked against: [validateDependency] looks an
    internal module up in [peerDependencies] and anything else in
    [dependencies]. *)
Definition declaredVersion (dep : Dep.t) (module : Mod.t) : JS.Property string :=
  if (JS.indexOf (Dep.name dep) ModuleScope =? 0)%Z
  then declared (Pkg.peerDependencies (Mod.package module)) (Dep.name dep)
  else declared (Pkg.dependencies (Mod.package module)) (Dep.name dep).

(** Every (browser, environment) slot of the index holds an edge: a slot is
    only ever created by [markUsed], together with its first edge. *)
Definition slotsInhabited (v : t) : Prop :=
  forall browser environment per_module,
    used v browser environment = Some per_module ->
    exists module dep, usedEdge v browser environment module dep = true.

(** [v'] is a later state of the instance [v]: the flag, once set, stays
    set, recorded edges stay recorded, and no empty slot appears. *)
Definition laterThan (v v' : t) : Prop :=
  (_error v = true -> _error v' = true)
  /\ (forall browser environment module dep,
        usedEdge v browser environment module dep = true ->
        usedEdge v' browser environment module dep = true)
  /\ (slotsInhabited v -> slotsInhabited v').

End Validator.

(* ===================================================================== *)
(** ** Promises *)
(* ===================================================================== *)

(** A promise, by the way it settles. *)
Inductive Settled (E A : Type) : Type :=
| Resolved (a : A)
| Rejected (e : E).

Arguments Resolved {E A} a.
Arguments Rejected {E A} e.

Definition isRejected {E A : Type} (p : Settled E A) : bool :=
  match p with Resolved _ => false | Rejected _ => true end.

(** Modelled from the spec: [runSequential] of core/helpers/promise is not
    among the sources.  The spec says of it: each item is processed
    sequentially, item N+1 never starts before item N completes, and a
    failure at any sequential step aborts the remaining steps in that
    sequence and propagates.  The callback returns what it logged and how
    its promise settled. *)
Fixpoint runSequential {A B E : Type} (items : list A)
    (f : A -> list LogEntry * Settled E B) : list LogEntry * Settled E (list B) :=
  match items with
  | [] => ([], Resolved [])
  | item :: rest =>
      match f item with
      | (logged, Rejected e) => (logged, Rejected e)
      | (logged, Resolved b) =>
          match runSequential rest f with
          | (logged', Rejected e) => (logged ++ logged', Rejected e)
          | (logged', Resolved bs) => (logged ++ logged', Resolved (b :: bs))
          end
      end
  end.

(* ===================================================================== *)
(** ** core/module: resolving modules *)
(* ===================================================================== *)

Module ModuleResolver.

(** A repository status, as [Git.status] or the build manifest gives it;
    a missing [dirty] is falsy. *)
Module Repository.
Record t : Type := {
  ahead : Z;
  dirty : bool;
  branch : option string;
  commit : option string;
  tag : option string;
  latestTag : option string
}.
End Repository.

Module Travis.
Record t : Type := {
  branch : option string;
  commit : option string;
  tag : option string
}.
End Travis.

(** [extension.build[name]] *)
Module BuildEntry.
Record t : Type := { repository : option Repository.t }.
End BuildEntry.

Module ExtensionContext.
Record t : Type := {
  path : string;
  repository : Repository.t;
  build : gmap string BuildEntry.t;
  modules : Dict (list string);
  travis : Travis.t
}.
End ExtensionContext.

(** What [readPackageDetails] yields, as far as [resolve] reads it: the
    name, the dependency collections, and the keys [key], [type] and [path]
    when the manifest has them (with a string), since they are spread over
    those of the module. *)
Module Details.
Record t : Type := {
  name : string;
  key : option string;
  type : option string;
  path : option string;
  manifest : Pkg.t
}.
End Details.

(** The module record, as it grows along the promise chain of [resolve];
    [type] is [None] when it is [undefined]. *)
Module Resolving.
Record t : Type := {
  key : string;
  type : option string;
  path : string;
  name : string;
  package : option Details.t;
  branch : option string;
  commit : option string;
  tag : option string;
  latestTag : option string;
  repository : option Repository.t;
  travis : option Travis.t
}.
End Resolving.

Inductive ResolveError : Type :=
| UnknownModuleType (type : string)
| InvalidModuleName (name : string)
| UnableToFindModule (name : string)
| NoReason                       (* [Promise.reject()] *)
| Failure (reason : string).     (* a failure of a collaborator *)

(** The collaborators of [resolve].  [describe] is the tail of the promise
    chain: contributors, module manifest, version and manifest overlay. *)
Module World.
Record t : Type := {
  existsSync : string -> bool;
  Path_resolve : list string -> string;
  Path_join : list string -> string;
  readPackageDetails : string -> Settled ResolveError Details.t;
  Git_status : string -> Settled unit Repository.t;
  describe : Resolving.t -> Settled ResolveError Resolving.t
}.
End World.

(** What [ModuleType[type]] yields, as far as it is read: [name] and
    [directory], each [None] when [undefined]. *)
Module TypeEntry.
Record t : Type := { name : option string; directory : option string }.
End TypeEntry.

Definition ModuleType : Dict TypeEntry.t :=
  [ ("core", {| TypeEntry.name := Some "core"; TypeEntry.directory := None |});
    ("tool", {| TypeEntry.name := Some "tool"; TypeEntry.directory := Some "Tools/" |});
    ("packages",
     {| TypeEntry.name := Some "package"; TypeEntry.directory := Some "Packages/" |});
    ("destinations",
     {| TypeEntry.name := Some "destination";
        TypeEntry.directory := Some "Destinations/" |});
    ("sources",
     {| TypeEntry.name := Some "source"; TypeEntry.directory := Some "Sources/" |}) ].

(** [ModuleType[type]].  The table is a plain object: a [type] that is the
    name of a member every object inherits finds that member, which has a
    [name] of its own kind and no [directory]. *)
Definition lookupType (type : string) : option TypeEntry.t :=
  match JS.property (dict_get ModuleType type) type with
  | JS.Own entry => Some entry
  | JS.Inherited =>
      Some {| TypeEntry.name := JS.memberName type; TypeEntry.directory := None |}
  | JS.Undefined => None
  end.

(** [getModulePath(basePath, name, type)].  The second argument of
    [existsSync(basePath, 'extension.json')] is ignored by fs-extra. *)
Definition getModulePath (w : World.t) (basePath name : string) (type : TypeEntry.t)
  : Outcome ResolveError string :=
  let path :=
    World.Path_resolve w [basePath; default "" (TypeEntry.directory type) +:+ name] in
  if World.existsSync w path then Return path
  else if JS.equals (TypeEntry.name type) "package" && World.existsSync w basePath then
    Return (World.Path_resolve w [basePath])
  else
    let path := World.Path_resolve w [basePath; "node_modules"; name] in
    if World.existsSync w path then Return path
    else Throw (UnableToFindModule name).

(** The default status [Git.status] failures degrade to. *)
Definition unknownStatus : Repository.t :=
  {| Repository.ahead := 0; Repository.dirty := false;
     Repository.branch := None; Repository.commit := None;
     Repository.tag := None; Repository.latestTag := None |}.

(** First half of the step "Resolve repository status": where the status
    comes from.  Returns what was logged and the status.  [extension.build]
    is a plain object, indexed by the name of the module. *)
Definition repositoryStatus (w : World.t) (extension : ExtensionContext.t)
    (module : Resolving.t) : list LogEntry * Repository.t :=
  if JS.equals (Resolving.type module) "package" then
    ([], ExtensionContext.repository extension)
  else
    let fromGit (logged : list LogEntry) :=
      let path :=
        World.Path_join w [ExtensionContext.path extension; ".modules"; Resolving.name module] in
      let path := if World.existsSync w path then path else Resolving.path module in
      match World.Git_status w path with
      | Resolved status => (logged, status)
      | Rejected _ => (logged, unknownStatus)
      end in
    match
      JS.property (ExtensionContext.build extension !! Resolving.name module)
        (Resolving.name module)
    with
    | JS.Own entry =>
        match BuildEntry.repository entry with
        | Some status => ([], status)
        | None => fromGit [(Warn, NoRepositoryStatus (Resolving.name module))]
        end
    | JS.Inherited =>
        (* a member every object inherits: not nil, and without [repository] *)
        fromGit [(Warn, NoRepositoryStatus (Resolving.name module))]
    | JS.Undefined => fromGit []
    end.

(** Second half of that step: the check on the status. *)
Definition checkRepository (name : string) (module : Resolving.t)
    (repository : Repository.t) : list LogEntry * Settled ResolveError Resolving.t :=
  let logged := [(Debug, RepositoryStatus name)] in
  if JS.IsNil (Repository.commit repository) && negb (Repository.dirty repository) then
    (logged ++ [(Error, InvalidRepositoryStatus (Resolving.name module))], Rejected NoReason)
  else
    (logged,
     Resolved
       {| Resolving.key := Resolving.key module;
          Resolving.type := Resolving.type module;
          Resolving.path := Resolving.path module;
          Resolving.name := Resolving.name module;
          Resolving.package := Resolving.package module;
          Resolving.branch := Repository.branch repository;
          Resolving.commit := Repository.commit repository;
          Resolving.tag := Repository.tag repository;
          Resolving.latestTag := Repository.latestTag repository;
          Resolving.repository := Some repository;
          Resolving.travis := Resolving.travis module |}).

(** The step "Resolve travis status (for package modules)". *)
Definition travisStatus (extension : ExtensionContext.t) (module : Resolving.t)
  : Resolving.t :=
  if negb (JS.equals (Resolving.type module) "package") then module
  else
    let travis := ExtensionContext.travis extension in
    {| Resolving.key := Resolving.key module;
       Resolving.type := Resolving.type module;
       Resolving.path := Resolving.path module;
       Resolving.name := Resolving.name module;
       Resolving.package := Resolving.package module;
       Resolving.branch := Travis.branch travis;
       Resolving.commit := Travis.commit travis;
       Resolving.tag := Travis.tag travis;
       Resolving.latestTag := Resolving.latestTag module;
       Resolving.repository := Resolving.repository module;
       Resolving.travis := Some travis |}.

(** The module built before the promise chain starts, with the package
    details merged in by the first step of the chain: every key of the
    manifest but [repository] is spread over [key], [type] and [path]. *)
Definition withDetails (key : string) (type : option string) (path : string)
    (pkg : Details.t) : Resolving.t :=
  {| Resolving.key := default key (Details.key pkg);
     Resolving.type :=
       match Details.type pkg with
       | Some declared => Some declared
       | None => type
       end;
     Resolving.path := default path (Details.path pkg);
     Resolving.name := Details.name pkg; Resolving.package := Some pkg;
     Resolving.branch := None; Resolving.commit := None; Resolving.tag := None;
     Resolving.latestTag := None; Resolving.repository := None;
     Resolving.travis := None |}.

(** [resolve(browser, extension, path, type, name)]: what is logged and how
    the returned promise settles; [Throw] is the exception of
    [getModulePath], raised before any promise exists.  The browser is only
    read by the manifest overlay, which is part of [World.describe]. *)
Definition resolve (w : World.t) (extension : ExtensionContext.t)
    (path type name : string)
  : Outcome ResolveError (list LogEntry * Settled ResolveError Resolving.t) :=
  match lookupType type with
  | None => Return ([], Rejected (UnknownModuleType type))
  | Some moduleType =>
      let key := JS.substringFrom name (JS.lastIndexOf name "-" + 1) in
      if (String.length key <? 1)%nat then Return ([], Rejected (InvalidModuleName name))
      else
        match getModulePath w path name moduleType with
        | Throw e => Throw e
        | Return modulePath =>
            match World.readPackageDetails w modulePath with
            | Rejected e => Return ([], Rejected e)
            | Resolved pkg =>
                let module := withDetails key (TypeEntry.name moduleType) modulePath pkg in
                let '(logged, repository) := repositoryStatus w extension module in
                match checkRepository name module repository with
                | (logged', Rejected e) => Return (logged ++ logged', Rejected e)
                | (logged', Resolved module) =>
                    Return (logged ++ logged',
                            World.describe w (travisStatus extension module))
                end
            end
        end
  end.

(** The work list of [resolveMany]: the build tool first, then every name
    of every type group of [extension.modules], in declaration order. *)
Definition workList (extension : ExtensionContext.t) : list (string * string) :=
  fold_left
    (fun modules '(type, names) => modules ++ map (fun name => (type, name)) names)
    (ExtensionContext.modules extension)
    [("tool", "neon-extension-build")].

(** [KeyBy(modules, 'name')] *)
Definition keyByName (modules : list Resolving.t) : Dict Resolving.t :=
  fold_left (fun result module => dict_set result (Resolving.name module) module)
            modules [].

(** [resolveMany(path, browser, extension)].  An exception thrown by the
    callback inside the sequential chain rejects the chain. *)
Definition resolveMany (w : World.t) (path : string) (extension : ExtensionContext.t)
  : list LogEntry * Settled ResolveError (Dict Resolving.t) :=
  match
    runSequential (workList extension)
      (fun '(type, name) =>
         match resolve w extension path type name with
         | Throw e => ([], Rejected e)
         | Return settled => settled
         end)
  with
  | (logged, Rejected e) => (logged, Rejected e)
  | (logged, Resolved modules) => (logged, Resolved (keyByName modules))
  end.

End ModuleResolver.

(* ===================================================================== *)
(** ** The semver library, as far as the tasks use it

    Strict parsing: an optional [v], three numeric identifiers without
    leading zeros, an optional pre-release after [-] and optional build
    metadata after [+]. *)
(* ===================================================================== *)

Module Semver.

Inductive Identifier : Type :=
| Numeric (n : N)
| Alphanumeric (s : string).

Record t : Type := {
  major : N;
  minor : N;
  patch : N;
  prerelease : list Identifier;
  build : list string
}.

Definition MAX_LENGTH : nat := 256.
Definition MAX_SAFE_INTEGER : N := 9007199254740991.

(** [s] cut at the first occurrence of [c]. *)
Fixpoint cut (c : ascii) (s : string) : string * option string :=
  match s with
  | EmptyString => (EmptyString, None)
  | String d s' =>
      if Ascii.eqb c d then (EmptyString, Some s')
      else let '(before, after) := cut c s' in (String d before, after)
  end.

(** [s.split(c)] *)
Fixpoint split (c : ascii) (s : string) : list string :=
  match s with
  | EmptyString => [EmptyString]
  | String d s' =>
      if Ascii.eqb c d then EmptyString :: split c s'
      else match split c s' with
           | [] => [String d EmptyString]
           | first :: others => String d first :: others
           end
  end.

Fixpoint all_chars (p : ascii -> bool) (s : string) : bool :=
  match s with
  | EmptyString => true
  | String c s' => p c && all_chars p s'
  end.

Fixpoint value_of (s : string) (acc : N) : N :=
  match s with
  | EmptyString => acc
  | String c s' => value_of s' (10 * acc + (Ascii.N_of_ascii c - 48))%N
  end.

(** [0|[1-9]\d*], within the safe integers *)
Definition numericIdentifier (s : string) : option N :=
  match s with
  | EmptyString => None
  | String c rest =>
      if all_chars Regex.is_digit s
         && (negb (Ascii.eqb c "0"%char) || String.eqb rest EmptyString)
         && (value_of s 0 <=? MAX_SAFE_INTEGER)%N
      then Some (value_of s 0)
      else None
  end.

(** [[0-9A-Za-z-]] *)
Definition is_identifier_char (c : ascii) : bool :=
  let n := Ascii.nat_of_ascii c in
  Regex.is_digit c
  || ((65 <=? n)%nat && (n <=? 90)%nat)
  || ((97 <=? n)%nat && (n <=? 122)%nat)
  || Ascii.eqb c "-"%char.

Definition prereleaseIdentifier (s : string) : option Identifier :=
  match s with
  | EmptyString => None
  | String c rest =>
      if all_chars Regex.is_digit s then
        if negb (Ascii.eqb c "0"%char) || String.eqb rest EmptyString
        then Some (Numeric (value_of s 0)) else None
      else if all_chars is_identifier_char s then Some (Alphanumeric s)
      else None
  end.

Definition buildIdentifier (s : string) : option string :=
  match s with
  | EmptyString => None
  | _ => if all_chars is_identifier_char s then Some s else None
  end.

Fixpoint traverse {A B : Type} (f : A -> option B) (l : list A) : option (list B) :=
  match l with
  | [] => Some []
  | a :: l' =>
      match f a, traverse f l' with
      | Some b, Some bs => Some (b :: bs)
      | _, _ => None
      end
  end.

(** [semver.parse(version)] *)
Definition parse (version : string) : option t :=
  if (MAX_LENGTH <? String.length version)%nat then None
  else
    let plain :=
      match version with
      | String "v"%char rest => rest
      | _ => version
      end in
    let '(front, metadata) := cut "+"%char plain in
    let '(main, pre) := cut "-"%char front in
    match traverse numericIdentifier (split "."%char main) with
    | Some [major; minor; patch] =>
        match
          match pre with
          | None => Some []
          | Some pre => traverse prereleaseIdentifier (split "."%char pre)
          end,
          match metadata with
          | None => Some []
          | Some metadata => traverse buildIdentifier (split "."%char metadata)
          end
        with
        | Some prerelease, Some build =>
            Some {| major := major; minor := minor; patch := patch;
                    prerelease := prerelease; build := build |}
        | _, _ => None
        end
    | _ => None
    end.

(** [semver.valid(version)] is truthy. *)
Definition valid (version : string) : bool :=
  negb (JS.IsNil (parse version)).

(** [semver.prerelease(version)]: nil when there are no components. *)
Definition prereleaseOf (version : string) : option (list Identifier) :=
  match parse version with
  | Some parsed =>
      match prerelease parsed with
      | [] => None
      | components => Some components
      end
  | None => None
  end.

End Semver.

(* ===================================================================== *)
(** ** tasks/travis/install: cloning module repositories *)
(* ===================================================================== *)

(** Modelled from the spec: [resolveOne] of core/helpers/promise is not
    among the sources.  The spec says of its use in [clone]: it tries each
    candidate branch in order and clones the first one confirmed to exist
    remotely.  The callback is run on each item in turn, threading the
    state [W], until one resolves; when none does, the last rejection is
    the result. *)
Fixpoint resolveOne {W A B E T : Type} (items : list A)
    (f : W -> A -> W * list T * Settled E B) (w : W) (none : E)
  : W * list T * Settled E B :=
  match items with
  | [] => (w, [], Rejected none)
  | item :: rest =>
      match f w item with
      | (w', trace, Resolved b) => (w', trace, Resolved b)
      | (w', trace, Rejected e) =>
          let '(w'', trace', settled) := resolveOne rest f w' e in
          (w'', trace ++ trace', settled)
      end
  end.

Module Install.

(** [getBranches(ref)] *)
Definition getBranches (ref : string) : list string :=
  if JS.includes ["master"; "develop"] ref then [ref]
  else
    match Semver.parse ref with
    | Some version =>
        [ref;
         "v" +:+ JS.numberToString (Semver.major version) +:+ "."
             +:+ JS.numberToString (Semver.minor version)]
    | None => [ref; "develop"]
    end.

(** The operations that leave the machine. *)
Inductive NetworkOp : Type :=
| GithubExists (name branch : string)
| GitClone (url localPath branch : string).

Inductive CloneError : Type :=
| InvalidRepositoryName (name : string)
| NoBranch
| CollaboratorFailed.

(** The collaborators of [clone] over a state of the world [W]:
    [Github_exists] tells whether the promise of [Github.exists] resolves,
    [Git_clone] gives the world after a successful [Git.clone]. *)
Record Collaborators (W : Type) : Type := {
  existsSync : W -> string -> bool;
  Path_join : string -> string -> string;
  Github_exists : W -> string -> string -> bool;
  Git_clone : W -> string -> string -> string -> string -> option W
}.

Arguments existsSync {W} _ _ _.
Arguments Path_join {W} _ _ _.
Arguments Github_exists {W} _ _ _ _.
Arguments Git_clone {W} _ _ _ _ _ _.

Record Cloned : Type := { branch : string; localPath : string }.

Definition repositoryUrl (name : string) : string :=
  "https://github.com/RadonApp/" +:+ name +:+ ".git".

(** [Path.join(Path.join(target, '.modules'), name)] *)
Definition localPathOf {W : Type} (c : Collaborators W) (target name : string) : string :=
  Path_join c (Path_join c target ".modules") name.

(** [clone(target, branch, name)]: the world afterwards, the network
    operations performed, in order, and how the promise settles. *)
Definition clone {W : Type} (c : Collaborators W) (w : W) (target branch name : string)
  : W * list NetworkOp * Settled CloneError Cloned :=
  if negb (JS.indexOf name "radon-extension-" =? 0)%Z then
    (w, [], Rejected (InvalidRepositoryName name))
  else
    let modulesPath := Path_join c target ".modules" in
    let localPath := Path_join c modulesPath name in
    if existsSync c w localPath then
      (w, [], Resolved {| branch := branch; localPath := localPath |})
    else
      resolveOne (getBranches branch)
        (fun w branch =>
           if Github_exists c w name branch then
             match Git_clone c w modulesPath (repositoryUrl name) localPath branch with
             | Some w' =>
                 (w',
                  [GithubExists name branch; GitClone (repositoryUrl name) localPath branch],
                  Resolved {| branch := branch; localPath := localPath |})
             | None =>
                 (w,
                  [GithubExists name branch; GitClone (repositoryUrl name) localPath branch],
                  Rejected CollaboratorFailed)
             end
           else (w, [GithubExists name branch], Rejected CollaboratorFailed))
        w NoBranch.

End Install.

(* ===================================================================== *)
(** ** core/package: updating dependency versions *)
(* ===================================================================== *)

Module Package.

(** A value of the [versions] object: anything that is not a plain object
    (a version string, or nil), or a plain object with [from] and
    [version]. *)
Inductive Requested : Type :=
| Literal (version : option string)
| Described (from version : option string).

(** The [version] field of [parsePackageDependency(dep)]. *)
Definition versionOf (dep : Requested) : option string :=
  match dep with
  | Literal version => version
  | Described _ version => version
  end.

(** A manifest as [JSON.parse] yields it: the two collections
    [updatePackage] reads ([None] when the key is absent or null), and
    everything else.  Deep equality of such values is equality here. *)
Record Manifest (Rest : Type) : Type := {
  dependencies : option (gmap string string);
  peerDependencies : option (gmap string string);
  rest : Rest
}.

Arguments dependencies {Rest} _.
Arguments peerDependencies {Rest} _.
Arguments rest {Rest} _.

#[global] Instance Manifest_eq_dec {Rest : Type} `{EqDecision Rest}
  : EqDecision (Manifest Rest).
Proof. solve_decision. Defined.

Inductive Group : Type := Dependencies | PeerDependencies.

Definition group {Rest : Type} (pkg : Manifest Rest) (g : Group)
  : option (gmap string string) :=
  match g with
  | Dependencies => dependencies pkg
  | PeerDependencies => peerDependencies pkg
  end.

(** [options.formatVersion(version, name, group)] *)
Definition Formatter : Type := string -> string -> Group -> string.

Definition defaultFormatVersion : Formatter := fun version _ _ => version.

Inductive UpdateError : Type :=
| InvalidVersion.   (* Invalid version defined for "name" *)

(** [!IsNil(dependencies[name])]: the collection declares the name, or
    the name is one of a member every object inherits. *)
Definition found (declared : gmap string string) (name : string) : bool :=
  negb (JS.IsNilProperty (JS.property (declared !! name) name)).

(** The inner [updateVersions(pkg, group)] of [updatePackage]: the entries
    of [versions] under whose name [dependencies[name]] finds something are
    picked, each is turned into its formatted version, and the result is
    spread over the declared collection. *)
Definition updateVersions {Rest : Type} (versions : gmap string Requested)
    (formatVersion : Formatter) (pkg : Manifest Rest) (g : Group)
  : Outcome UpdateError (option (gmap string string)) :=
  match group pkg g with
  | None => Return None
  | Some declared =>
      let picked :=
        filter (fun entry => found declared (fst entry) = true) versions in
      if bool_decide (map_Forall (fun _ dep => is_Some (versionOf dep)) picked) then
        Return
          (Some
             (map_imap
                (fun name dep =>
                   Some (formatVersion (default "" (versionOf dep)) name g))
                picked
              ∪ declared))
      else Throw InvalidVersion
  end.

Definition nonEmpty (collection : option (gmap string string)) : bool :=
  match collection with
  | Some declared => negb (bool_decide (declared = ∅))
  | None => false
  end.

(** [updatePackage(pkg, versions, options)] *)
Definition updatePackage {Rest : Type} (pkg : Manifest Rest)
    (versions : option (gmap string Requested)) (options : option Formatter)
  : Outcome UpdateError (Manifest Rest) :=
  let versions := default ∅ versions in
  let formatVersion := default defaultFormatVersion options in
  match
    if nonEmpty (dependencies pkg) then
      match updateVersions versions formatVersion pkg Dependencies with
      | Return updated =>
          Return {| dependencies := updated;
                    peerDependencies := peerDependencies pkg; rest := rest pkg |}
      | Throw e => Throw e
      end
    else Return pkg
  with
  | Throw e => Throw e
  | Return pkg =>
      if nonEmpty (peerDependencies pkg) then
        match updateVersions versions formatVersion pkg PeerDependencies with
        | Return updated =>
            Return {| dependencies := dependencies pkg;
                      peerDependencies := updated; rest := rest pkg |}
        | Throw e => Throw e
        end
      else Return pkg
  end.

(** The disk: which paths are directories, and the content of each file. *)
Record Disk : Type := {
  directories : gset string;
  files : gmap string string
}.

(** [JSON.parse] on manifests, and what [writeJson] writes for a manifest
    with a given end-of-line sequence and two spaces of indentation. *)
Record Json (Rest : Type) : Type := {
  JSON_parse : string -> option (Manifest Rest);
  stringify : Manifest Rest -> string -> string
}.

Arguments JSON_parse {Rest} _ _.
Arguments stringify {Rest} _ _ _.

Inductive WriteError : Type :=
| NoSuchFile
| SyntaxError
| UpdateFailed (e : UpdateError).

Definition CRLF : string :=
  String (Ascii.ascii_of_nat 13) (String (Ascii.ascii_of_nat 10) EmptyString).

Definition LF : string := String (Ascii.ascii_of_nat 10) EmptyString.

(** [writePackage(path, versions, options)]: the disk afterwards and the
    outcome; [Throw] is the exception of [statSync] on a missing path,
    [Resolved changed] the boolean the promise resolves with. *)
Definition writePackage {Rest : Type} `{EqDecision Rest} (json : Json Rest)
    (Path_join : string -> string -> string) (disk : Disk) (path : string)
    (versions : option (gmap string Requested)) (options : option Formatter)
  : Outcome WriteError (Disk * Settled WriteError bool) :=
  if negb (bool_decide (path ∈ directories disk))
     && negb (bool_decide (is_Some (files disk !! path)))
  then Throw NoSuchFile
  else
    let path :=
      if bool_decide (path ∈ directories disk) then Path_join path "package.json"
      else path in
    match files disk !! path with
    | None => Return (disk, Rejected NoSuchFile)
    | Some data =>
        match JSON_parse json data with
        | None => Return (disk, Rejected SyntaxError)
        | Some previous =>
            match updatePackage previous versions options with
            | Throw e => Return (disk, Rejected (UpdateFailed e))
            | Return current =>
                if bool_decide (previous = current) then Return (disk, Resolved false)
                else
                  let EOL := if (0 <=? JS.indexOf data CRLF)%Z then CRLF else LF in
                  Return
                    ({| directories := directories disk;
                        files := <[path := stringify json current EOL]> (files disk) |},
                     Resolved true)
            end
        end
    end.

End Package.

(* ===================================================================== *)
(** ** tasks/release/push: target branches and the polling loops *)
(* ===================================================================== *)

Module Push.

(** [getTargetBranches(tag)]; [Throw] is the [TypeError] semver raises on a
    tag it cannot parse. *)
Definition getTargetBranches (tag : string) : Outcome unit (list string) :=
  match Semver.parse tag with
  | None => Throw tt
  | Some version =>
      let major := Semver.major version in
      let minor := Semver.minor version in
      let patch := Semver.patch version in
      let prerelease := Semver.prereleaseOf tag in
      let branches := [] in
      (* develop *)
      let branches := if (patch =? 0)%N then branches ++ ["develop"] else branches in
      (* release *)
      let branches :=
        branches ++ ["v" +:+ JS.numberToString major +:+ "." +:+ JS.numberToString minor] in
      (* master *)
      let branches := if JS.IsNil prerelease then branches ++ ["master"] else branches in
      Return branches
  end.

(** What happens, in order, while a loop runs: a timer, or a request. *)
Inductive Event : Type :=
| Wait (milliseconds : Z)
| Request.

(** *** [getTravisStatus] *)

Module Status.
Record t : Type := {
  context : string;
  target_url : string;
  created_at : Z          (* [Date.parse(status.created_at)] *)
}.
End Status.

(** The answer to one combined-status request. *)
Inductive StatusResponse : Type :=
| StatusFailed (err : string)
| Combined (sha : string) (statuses : list Status.t).

Module StatusOptions.
Record t : Type := {
  createdAfter : option Z;
  sha : option string;
  delay : Z;
  retryAttempts : nat;
  retryInterval : Z
}.
End StatusOptions.

Inductive StatusError : Type :=
| UnableToRetrieve          (* Unable to retrieve the travis status *)
| RequestError (err : string).

(** What one answer means for the loop: try again, or settle. *)
Definition onStatus (options : StatusOptions.t) (response : StatusResponse)
  : option (Settled StatusError Status.t) :=
  match response with
  | StatusFailed err => Some (Rejected (RequestError err))
  | Combined sha statuses =>
      if negb (JS.IsNil (StatusOptions.sha options))
         && negb (String.eqb sha (default "" (StatusOptions.sha options)))
      then None
      else
        match
          List.find
            (fun status =>
               String.eqb (Status.context status) "continuous-integration/travis-ci/push")
            statuses
        with
        | None => None
        | Some travis =>
            if negb (JS.IsNil (StatusOptions.createdAfter options))
               && (Status.created_at travis <? default 0%Z (StatusOptions.createdAfter options))%Z
            then None
            else Some (Resolved travis)
        end
  end.

(** The inner [run] of [getTravisStatus], entered with [attempts]
    invocations behind it.  [responses k] answers the request issued while
    [attempts] is [k].  Each unfolding of [run] spends one unit of [fuel];
    [None] means the fuel ran out before the promise settled. *)
Fixpoint statusRun (fuel : nat) (options : StatusOptions.t)
    (responses : nat -> StatusResponse) (attempts : nat)
  : option (list Event * Settled StatusError Status.t) :=
  match fuel with
  | O => None
  | S fuel' =>
      let attempts := S attempts in
      if (StatusOptions.retryAttempts options <? attempts)%nat then
        Some ([], Rejected UnableToRetrieve)
      else
        match onStatus options (responses attempts) with
        | Some settled => Some ([Request], settled)
        | None =>
            match statusRun fuel' options responses attempts with
            | Some (events, settled) =>
                Some (Request :: Wait (StatusOptions.retryInterval options) :: events, settled)
            | None => None
            end
        end
  end.

(** [getTravisStatus(log, module, ref, options)] *)
Definition getTravisStatus (fuel : nat) (options : StatusOptions.t)
    (responses : nat -> StatusResponse)
  : option (list Event * Settled StatusError Status.t) :=
  match statusRun fuel options responses 0 with
  | Some (events, settled) => Some (Wait (StatusOptions.delay options) :: events, settled)
  | None => None
  end.

Definition defaultStatusOptions : StatusOptions.t :=
  {| StatusOptions.createdAfter := None; StatusOptions.sha := None;
     StatusOptions.delay := 30 * 1000; StatusOptions.retryAttempts := 20;
     StatusOptions.retryInterval := 15 * 1000 |}.

(** *** [awaitTravisBuild] *)

(** The answer to one build-details request. *)
Inductive BuildResponse : Type :=
| BuildFailed (err : string)
| Build (state : string) (branch : string).

Module BuildOptions.
Record t : Type := {
  maximumAttempts : nat;
  maximumInterval : Z
}.
End BuildOptions.

Inductive BuildError : Type :=
| BuildTimeout                           (* Build timeout for "id" *)
| IncorrectBuild (expected found : string).

(** The statement "Increase interval" of [run]. *)
Definition nextInterval (options : BuildOptions.t) (interval : Z) (attempts : nat) : Z :=
  if (interval <? BuildOptions.maximumInterval options)%Z
  then ((15 + Z.of_nat (attempts / 5)) * 1000)%Z
  else interval.

(** The inner [run] of [awaitTravisBuild], with its two variables
    [attempts] and [interval]. *)
Fixpoint buildRun (fuel : nat) (options : BuildOptions.t) (ref : string)
    (responses : nat -> BuildResponse) (attempts : nat) (interval : Z)
  : option (list Event * Settled BuildError string) :=
  match fuel with
  | O => None
  | S fuel' =>
      let attempts := S attempts in
      let interval := nextInterval options interval attempts in
      if (BuildOptions.maximumAttempts options <? attempts)%nat then
        Some ([], Rejected BuildTimeout)
      else
        let again (delay : Z) :=
          match buildRun fuel' options ref responses attempts interval with
          | Some (events, settled) => Some (Request :: Wait delay :: events, settled)
          | None => None
          end in
        match responses attempts with
        | BuildFailed _ => again (BuildOptions.maximumInterval options)
        | Build state branch =>
            if negb (String.eqb branch ref) then
              Some ([Request], Rejected (IncorrectBuild ref branch))
            else if JS.includes ["created"; "started"] state then again interval
            else Some ([Request], Resolved state)
        end
  end.

(** [awaitTravisBuild(log, module, ref, id, options)] *)
Definition awaitTravisBuild (fuel : nat) (options : BuildOptions.t) (ref : string)
    (responses : nat -> BuildResponse)
  : option (list Event * Settled BuildError string) :=
  buildRun fuel options ref responses 0 (15 * 1000).

Definition defaultBuildOptions : BuildOptions.t :=
  {| BuildOptions.maximumAttempts := 120; BuildOptions.maximumInterval := 45 * 1000 |}.

(** The number of requests in a trace. *)
Definition requests (events : list Event) : nat :=
  List.length (List.filter (fun e => match e with Request => true | Wait _ => false end) events).

(** An answer that keeps [awaitTravisBuild] polling: the request failed, or
    the right build is still created or started. *)
Definition stillBuilding (ref : string) (response : BuildResponse) : bool :=
  match response with
  | BuildFailed _ => true
  | Build state branch =>
      String.eqb branch ref && JS.includes ["created"; "started"] state
  end.

End Push.

(* ===================================================================== *)
(** ** Vocabulary for the further properties *)
(* ===================================================================== *)

Module Text.

(** [t] occurs in [s]. *)
Definition occurs (t s : string) : Prop :=
  exists before after, s = before +:+ t +:+ after.

(** [s.replace(pattern, replacement)] with a string pattern: the first
    occurrence only. *)
Definition replace (s pattern replacement : string) : string :=
  let index := JS.indexOf s pattern in
  if (index <? 0)%Z then s
  else JS.substring s 0 index +:+ replacement
       +:+ JS.substringFrom s (index + Z.of_nat (String.length pattern)).

(** White space as [String.prototype.trim] sees it within ASCII. *)
Definition is_space (c : ascii) : bool :=
  let n := Ascii.nat_of_ascii c in
  (n =? 32)%nat || ((9 <=? n)%nat && (n <=? 13)%nat).

Fixpoint trimStart (s : string) : string :=
  match s with
  | EmptyString => EmptyString
  | String c s' => if is_space c then trimStart s' else s
  end.

(** [s] without its trailing white space. *)
Fixpoint trimEnd (s : string) : string :=
  match s with
  | EmptyString => EmptyString
  | String c s' =>
      match trimEnd s' with
      | EmptyString => if is_space c then EmptyString else String c EmptyString
      | rest => String c rest
      end
  end.

(** [s.trim()] *)
Definition trim (s : string) : string := trimEnd (trimStart s).

End Text.

Module Registry.

(** [Get(Validator.links, [browser, environment, target])] *)
Definition linkOf (links : Validator.Links) (browser environment target : string)
  : option string :=
  match Validator.links_get links browser environment with
  | Some entries => dict_get entries target
  | None => None
  end.

End Registry.

Module Validation.

(** The body of the [ForEach] of [validate]. *)
Definition visit (node : Node.t) (browser : Browser.t) (environment : Environment.t)
    (v : Validator.t) (reason : WebpackModule * string) : Validator.t :=
  let '(module, source) := reason in
  let request := default "undefined" (userRequest module) in
  if Validator.isChecked v request source then v
  else
    snd (Validator.validateReason node (Validator.markChecked v request source)
           (Some browser) (Some environment) (Some source) (userRequest module)).

End Validation.

(* ===================================================================== *)
(** ** core/package: module lists and lock files *)
(* ===================================================================== *)

Module PackageModules.

(** The modules [orderModules] puts first, in this order. *)
Definition Priority : list string :=
  ["@radon-extension/build"; "@radon-extension/framework"; "@radon-extension/core"].

(** [Without(array, ...values)] of lodash *)
Definition without (array values : list string) : list string :=
  List.filter (fun x => negb (JS.includes values x)) array.

(** [orderModules(modules)] *)
Definition orderModules (modules : list string) : list string :=
  let result :=
    fold_left
      (fun result name =>
         if negb (JS.includes modules name) then result else result ++ [name])
      Priority [] in
  result ++ without modules result.

(** A [package.json] as [getPackageModules] reads it; a collection is
    [None] when the key is absent. *)
Record PackageJson : Type := {
  name : string;
  dependencies : option (Dict string);
  peerDependencies : option (Dict string)
}.

Definition isInternal (name : string) : bool :=
  (JS.indexOf name Validator.ModuleScope =? 0)%Z.

(** [getPackageModules(pkg)]; [Throw] is "Invalid module". *)
Definition getPackageModules (pkg : PackageJson) : Outcome unit (list string) :=
  if negb (isInternal (name pkg)) then Throw tt
  else
    Return
      (orderModules
         (List.filter isInternal
            (dict_keys (default [] (dependencies pkg))
             ++ dict_keys (default [] (peerDependencies pkg))))).

End PackageModules.

Module PackageLocks.

(** One entry of the [dependencies] of a lock file; a field is [None] when
    it is absent or null. *)
Record Entry (Extra : Type) : Type := {
  version : option string;
  from : option string;
  integrity : option string;
  extra : Extra
}.

Arguments version {Extra} _.
Arguments from {Extra} _.
Arguments integrity {Extra} _.
Arguments extra {Extra} _.

(** The top-level [version] of a lock: the key may be absent, present
    with the value [undefined] (as an object spread leaves it), hold a
    value, or hold the function that every object inherits under the name
    [member].  A lock read from a file holds no function. *)
Inductive VersionField : Type :=
| Missing
| Undefined
| Value (v : Package.Requested)
| Builtin (member : string).

Record Locks (Extra Rest : Type) : Type := {
  name : option string;
  lockVersion : VersionField;
  dependencies : option (gmap string (Entry Extra));
  rest : Rest
}.

Arguments name {Extra Rest} _.
Arguments lockVersion {Extra Rest} _.
Arguments dependencies {Extra Rest} _.
Arguments rest {Extra Rest} _.

#[global] Instance Requested_eq_dec : EqDecision Package.Requested.
Proof. solve_decision. Defined.

#[global] Instance VersionField_eq_dec : EqDecision VersionField.
Proof. solve_decision. Defined.

#[global] Instance Entry_eq_dec {Extra : Type} `{EqDecision Extra}
  : EqDecision (Entry Extra).
Proof. solve_decision. Defined.

#[global] Instance Locks_eq_dec {Extra Rest : Type} `{EqDecision Extra}
  `{EqDecision Rest} : EqDecision (Locks Extra Rest).
Proof. solve_decision. Defined.

(** [options.formatVersion(version, name)] *)
Definition Formatter : Type := string -> string -> string.

Definition defaultFormatVersion : Formatter := fun version _ => version.

(** Truthiness of a value of [versions]. *)
Definition truthy (requested : Package.Requested) : bool :=
  match requested with
  | Package.Literal (Some s) => negb (String.eqb s EmptyString)
  | Package.Literal None => false
  | Package.Described _ _ => true
  end.

(** [IsNil] of a value of [versions]. *)
Definition isNil (requested : Package.Requested) : bool :=
  match requested with
  | Package.Literal None => true
  | _ => false
  end.

(** The [from] field of [parsePackageDependency(dep)]. *)
Definition fromOf (requested : Package.Requested) : option string :=
  match requested with
  | Package.Literal _ => None
  | Package.Described from _ => from
  end.

(** The callback of [MapValues] in [updatePackageLocks], on one internal
    dependency: the version and [from] are taken from [versions] when it
    names the dependency, and [integrity] is removed. *)
Definition updateEntry {Extra : Type} (versions : gmap string Package.Requested)
    (formatVersion : Formatter) (name : string) (dependency : Entry Extra)
  : option (Entry Extra) :=
  match versions !! name with
  | Some requested =>
      if isNil requested then
        Some {| version := version dependency; from := from dependency;
                integrity := None; extra := extra dependency |}
      else
        match Package.versionOf requested with
        | None => None       (* Invalid version defined for "name" *)
        | Some wanted =>
            Some {| version := Some (formatVersion wanted name);
                    from := fromOf requested;
                    integrity := None; extra := extra dependency |}
        end
  | None =>
      Some {| version := version dependency; from := from dependency;
              integrity := None; extra := extra dependency |}
  end.

(** [versions[locks.name] || locks.version].  A name that [versions] does
    not list may still be the name of a member every object inherits: a
    function, which is truthy, or for [__proto__] the prototype itself, an
    object without [from] or [version]. *)
Definition topVersion {Extra Rest : Type} (versions : gmap string Package.Requested)
    (locks : Locks Extra Rest) : VersionField :=
  let name := default "undefined" (name locks) in
  let kept :=
    match lockVersion locks with
    | Missing => Undefined
    | field => field
    end in
  match JS.property (versions !! name) name with
  | JS.Own requested => if truthy requested then Value requested else kept
  | JS.Inherited =>
      if String.eqb name "__proto__" then Value (Package.Described None None)
      else Builtin name
  | JS.Undefined => kept
  end.

(** [updatePackageLocks(locks, versions, options)].  The entries are
    updated in place in the code; its caller passes a deep copy. *)
Definition updatePackageLocks {Extra Rest : Type} (locks : Locks Extra Rest)
    (versions : option (gmap string Package.Requested)) (options : option Formatter)
  : Outcome Package.UpdateError (Locks Extra Rest) :=
  let versions := default ∅ versions in
  let formatVersion := default defaultFormatVersion options in
  let declared := default ∅ (dependencies locks) in
  let picked :=
    filter (fun entry : string * Entry Extra =>
              PackageModules.isInternal (fst entry) = true) declared in
  if bool_decide
       (map_Forall
          (fun name dependency =>
             is_Some (updateEntry versions formatVersion name dependency))
          picked)
  then
    Return
      {| name := name locks;
         lockVersion := topVersion versions locks;
         dependencies :=
           Some (map_imap (updateEntry versions formatVersion) picked ∪ declared);
         rest := rest locks |}
  else Throw Package.InvalidVersion.

Record Json (Extra Rest : Type) : Type := {
  JSON_parse : string -> option (Locks Extra Rest);
  stringify : Locks Extra Rest -> string -> string
}.

Arguments JSON_parse {Extra Rest} _ _.
Arguments stringify {Extra Rest} _ _ _.

(** [writePackageLocks(path, versions, options)] *)
Definition writePackageLocks {Extra Rest : Type} `{EqDecision Extra} `{EqDecision Rest}
    (json : Json Extra Rest) (Path_join : string -> string -> string)
    (disk : Package.Disk) (path : string)
    (versions : option (gmap string Package.Requested)) (options : option Formatter)
  : Outcome Package.WriteError (Package.Disk * Settled Package.WriteError bool) :=
  if negb (bool_decide (path ∈ Package.directories disk))
     && negb (bool_decide (is_Some (Package.files disk !! path)))
  then Throw Package.NoSuchFile
  else
    let path :=
      if bool_decide (path ∈ Package.directories disk)
      then Path_join path "package-lock.json"
      else path in
    if negb (bool_decide (path ∈ Package.directories disk))
       && negb (bool_decide (is_Some (Package.files disk !! path)))
    then Return (disk, Resolved false)
    else
      match Package.files disk !! path with
      | None => Return (disk, Rejected Package.NoSuchFile)
      | Some data =>
          match JSON_parse json data with
          | None => Return (disk, Rejected Package.SyntaxError)
          | Some previous =>
              match updatePackageLocks previous versions options with
              | Throw e => Return (disk, Rejected (Package.UpdateFailed e))
              | Return current =>
                  if bool_decide (previous = current)
                  then Return (disk, Resolved false)
                  else
                    let EOL :=
                      if (0 <=? JS.indexOf data Package.CRLF)%Z
                      then Package.CRLF else Package.LF in
                    Return
                      ({| Package.directories := Package.directories disk;
                          Package.files :=
                            <[path := stringify json current EOL]> (Package.files disk) |},
                       Resolved true)
              end
          end
      end.

End PackageLocks.

Module PackageSteps.

(** [pkg[group] = updated] *)
Definition assign {Rest : Type} (pkg : Package.Manifest Rest) (g : Package.Group)
    (updated : option (gmap string string)) : Package.Manifest Rest :=
  match g with
  | Package.Dependencies =>
      {| Package.dependencies := updated;
         Package.peerDependencies := Package.peerDependencies pkg;
         Package.rest := Package.rest pkg |}
  | Package.PeerDependencies =>
      {| Package.dependencies := Package.dependencies pkg;
         Package.peerDependencies := updated;
         Package.rest := Package.rest pkg |}
  end.

(** One of the two guarded assignments of [updatePackage]. *)
Definition step {Rest : Type} (versions : gmap string Package.Requested)
    (formatVersion : Package.Formatter) (pkg : Package.Manifest Rest)
    (g : Package.Group) : Outcome Package.UpdateError (Package.Manifest Rest) :=
  if Package.nonEmpty (Package.group pkg g) then
    match Package.updateVersions versions formatVersion pkg g with
    | Return updated => Return (assign pkg g updated)
    | Throw e => Throw e
    end
  else Return pkg.

End PackageSteps.

(* ===================================================================== *)
(** ** tasks/travis/install: linking modules *)
(* ===================================================================== *)

Module Linking.

(** What [link] does outside the process, in order. *)
Inductive Op : Type :=
| Network (op : Install.NetworkOp)
| NpmInstall (path : string)
| LinkCreate (linkPath target : string) (roots : list string).

Inductive LinkError : Type :=
| InvalidModuleName (module : string)
| CloneFailed (e : Install.CloneError)
| CollaboratorFailed.

(** The collaborators of [link]: those of [clone], [Npm.install] followed
    by its handler, and [Link.create].  [None] is a rejected promise, which
    leaves the world as it was. *)
Record Collaborators (W : Type) : Type := {
  cloning : Install.Collaborators W;
  Npm_install : W -> string -> option W;
  Link_create : W -> string -> string -> list string -> option W
}.

Arguments cloning {W} _.
Arguments Npm_install {W} _ _ _.
Arguments Link_create {W} _ _ _ _ _.

(** [link(target, branch, module)]; the handler of [catch] warns and
    rejects with the same error. *)
Definition link {W : Type} (c : Collaborators W) (w : W) (target branch module : string)
  : W * list Op * Settled LinkError unit :=
  if negb (JS.indexOf module "@radon-extension/" =? 0)%Z then
    (w, [], Rejected (InvalidModuleName module))
  else
    let repository := Text.replace module "@radon-extension/" "radon-extension-" in
    match Install.clone (cloning c) w target branch repository with
    | (w, ops, Rejected e) => (w, map Network ops, Rejected (CloneFailed e))
    | (w, ops, Resolved cloned) =>
        let localPath := Install.localPath cloned in
        match Npm_install c w localPath with
        | None =>
            (w, map Network ops ++ [NpmInstall localPath], Rejected CollaboratorFailed)
        | Some w' =>
            let linkPath := target +:+ "/node_modules/" +:+ module in
            let roots := [target +:+ "/.modules/"; target +:+ "/node_modules/"] in
            let ops :=
              map Network ops
              ++ [NpmInstall localPath; LinkCreate linkPath localPath roots] in
            match Link_create c w' linkPath localPath roots with
            | None => (w', ops, Rejected CollaboratorFailed)
            | Some w'' => (w'', ops, Resolved tt)
            end
        end
    end.

End Linking.

(* ===================================================================== *)
(** ** core/git *)
(* ===================================================================== *)

Module Git.

Record Commit : Type := { author_name : string; author_email : string }.

(** What [repository.log] yields. *)
Record Log : Type := { all : list Commit; total : Z }.

(** What [repository.status] yields: the current branch and the number of
    changed files. *)
Record StatusSummary : Type := { current : option string; files : nat }.

(** A [simple-git] repository, as the methods of [Git] use it: each
    callback either gets an error or a value.  [describe exact] is
    [raw(['describe', '--abbrev=0', '--match=v*', '--tags'])], with
    [--exact-match] added when [exact] holds; [log from] is
    [log({from, to: 'HEAD'})]; [revparse] is [revparse(['HEAD'])]. *)
Record Repository (E : Type) : Type := {
  describe : bool -> Settled E (option string);
  log : option string -> Settled E Log;
  revparse : Settled E (option string);
  status_summary : Settled E StatusSummary
}.

Arguments describe {E} _ _.
Arguments log {E} _ _.
Arguments revparse {E} _.
Arguments status_summary {E} _.

(** *** [contributors] *)

Record Contributor : Type := { name : string; email : string; commits : nat }.

(** The two statements of the loop over [commits.all], for an address
    that [contributorsMap] holds or that nothing is found under: the
    contributor is created when there is none, and counts one commit
    more. *)
Definition tally (contributorsMap : Dict Contributor) (commit : Commit)
  : Dict Contributor :=
  let contributorsMap :=
    if JS.IsNil (dict_get contributorsMap (author_email commit)) then
      dict_set contributorsMap (author_email commit)
        {| name := author_name commit; email := author_email commit; commits := 0 |}
    else contributorsMap in
  match dict_get contributorsMap (author_email commit) with
  | Some contributor =>
      dict_set contributorsMap (author_email commit)
        {| name := name contributor; email := email contributor;
           commits := commits contributor + 1 |}
  | None => contributorsMap
  end.

(** The state of the loop: the map, and whether the prototype of every
    object has got a property [commits] in the course of the loop. *)
Record Counting : Type := {
  contributorsMap : Dict Contributor;
  polluted : bool
}.

Inductive CountError : Type :=
| CannotCreateProperty.   (* TypeError: Cannot create property 'commits' on number 'NaN' *)

(** One turn of the loop over [commits.all].  [contributorsMap] is a plain
    object: under an address that is the name of a member every object
    inherits, [contributorsMap[address]] finds that member, so no
    contributor is created and the count goes to the member.  For the
    address [__proto__] the member is the prototype of every object, which
    thereby gets a property [commits] that holds [NaN]; from then on
    [contributorsMap["commits"]] finds that number unless the map has the
    key, and counting on a number throws in strict code. *)
Definition count (state : Counting) (commit : Commit) : Outcome CountError Counting :=
  let address := author_email commit in
  match dict_get (contributorsMap state) address with
  | Some _ =>
      Return {| contributorsMap := tally (contributorsMap state) commit;
                polluted := polluted state |}
  | None =>
      if String.eqb address "__proto__" then
        Return {| contributorsMap := contributorsMap state; polluted := true |}
      else if JS.inherited address then Return state
      else if polluted state && String.eqb address "commits" then
        Throw CannotCreateProperty
      else
        Return {| contributorsMap := tally (contributorsMap state) commit;
                  polluted := polluted state |}
  end.

(** The loop. *)
Fixpoint countAll (commits : list Commit) (state : Counting)
  : Outcome CountError Counting :=
  match commits with
  | [] => Return state
  | commit :: rest =>
      match count state commit with
      | Throw e => Throw e
      | Return state => countAll rest state
      end
  end.

(** [SortBy(values, 'commits')] of lodash: ascending and stable. *)
Fixpoint insert (c : Contributor) (sorted : list Contributor) : list Contributor :=
  match sorted with
  | [] => [c]
  | d :: rest =>
      if (commits c <=? commits d)%nat then c :: d :: rest else d :: insert c rest
  end.

Definition sortByCommits (values : list Contributor) : list Contributor :=
  fold_right insert [] values.

(** Why the promise of [contributors] is rejected: git failed, or the loop
    threw. *)
Inductive Failure (E : Type) : Type :=
| GitFailed (err : E)
| LoopThrew (e : CountError).

Arguments GitFailed {E} err.
Arguments LoopThrew {E} e.

(** [contributors(path)], given how [_getCommits(repository)] settles.  The
    prototype of every object is as the language defines it when the loop
    starts. *)
Definition contributors {E : Type} (repository : Repository E)
  : Settled (Failure E) (list Contributor) :=
  match log repository None with
  | Rejected err => Rejected (GitFailed err)
  | Resolved commits =>
      match countAll (all commits) {| contributorsMap := []; polluted := false |} with
      | Throw e => Rejected (LoopThrew e)
      | Return state => Resolved (sortByCommits (Object_values (contributorsMap state)))
      end
  end.

(** *** [status] *)

(** [_getTag(repository, exact)] *)
Definition _getTag {E : Type} (repository : Repository E) (exact : bool)
  : Settled E (option string) :=
  match describe repository exact with
  | Rejected err => Rejected err
  | Resolved (Some description) =>
      if (0 <? String.length description)%nat
      then Resolved (Some (Text.trim description))
      else Resolved None
  | Resolved None => Resolved None
  end.

(** [_resolveHash(repository)] *)
Definition _resolveHash {E : Type} (repository : Repository E)
  : Settled E (option string) :=
  match revparse repository with
  | Rejected err => Rejected err
  | Resolved (Some hash) =>
      if (0 <? String.length hash)%nat
      then Resolved (Some (Text.trim hash))
      else Resolved None
  | Resolved None => Resolved None
  end.

(** [tag || null] *)
Definition orNull (tag : option string) : option string :=
  match tag with
  | Some EmptyString => None
  | _ => tag
  end.

(** The object [status] resolves with.  A field is [None] when the object
    has no such key, and [Some None] when the key holds [null]. *)
Record Status : Type := {
  tag : option (option string);
  latestTag : option (option string);
  ahead : option Z;
  commit : option (option string);
  branch : option (option string);
  dirty : option bool
}.

(** [{}] *)
Definition empty : Status :=
  {| tag := None; latestTag := None; ahead := None; commit := None;
     branch := None; dirty := None |}.

(** The collaborators of [status]. *)
Record World (E : Type) : Type := {
  existsSync : string -> bool;
  Path_join : string -> string -> string;
  SimpleGit : string -> Repository E
}.

Arguments existsSync {E} _ _.
Arguments Path_join {E} _ _ _.
Arguments SimpleGit {E} _ _.

(** [status(path, options)]: the promise always resolves. *)
Definition status {E : Type} (w : World E) (path : string) : Status :=
  if negb (existsSync w (Path_join w path ".git")) then empty
  else
    let repository := SimpleGit w path in
    let result := empty in
    (* Retrieve current version *)
    let result :=
      match _getTag repository true with
      | Resolved found =>
          {| tag := Some (orNull found); latestTag := latestTag result;
             ahead := ahead result; commit := commit result;
             branch := branch result; dirty := dirty result |}
      | Rejected _ =>
          {| tag := Some None; latestTag := None; ahead := None; commit := None;
             branch := None; dirty := None |}
      end in
    (* Retrieve latest version *)
    let result :=
      match _getTag repository false with
      | Resolved found =>
          {| tag := tag result; latestTag := Some (orNull found);
             ahead := ahead result; commit := commit result;
             branch := branch result; dirty := dirty result |}
      | Rejected _ =>
          {| tag := None; latestTag := Some None; ahead := None; commit := None;
             branch := None; dirty := None |}
      end in
    (* Retrieve commits since latest version *)
    let result :=
      {| tag := tag result; latestTag := latestTag result;
         ahead :=
           Some match log repository (mjoin (latestTag result)) with
                | Resolved commits => total commits
                | Rejected _ => 0%Z
                end;
         commit := commit result; branch := branch result; dirty := dirty result |} in
    (* Retrieve latest commit hash *)
    let result :=
      {| tag := tag result; latestTag := latestTag result; ahead := ahead result;
         commit :=
           Some match _resolveHash repository with
                | Resolved hash => hash
                | Rejected _ => None
                end;
         branch := branch result; dirty := dirty result |} in
    (* Retrieve status *)
    match status_summary repository with
    | Resolved summary =>
        {| tag := tag result; latestTag := latestTag result; ahead := ahead result;
           commit := commit result;
           branch := Some (current summary);
           dirty := Some (0 <? files summary)%nat |}
    | Rejected _ =>
        {| tag := tag result; latestTag := latestTag result; ahead := ahead result;
           commit := commit result; branch := Some None; dirty := Some false |}
    end.

(** How [resolve] of core/module reads such an object: a missing key reads
    as [undefined], which is nil and falsy. *)
Definition asRepository (s : Status) : ModuleResolver.Repository.t :=
  {| ModuleResolver.Repository.ahead := default 0%Z (ahead s);
     ModuleResolver.Repository.dirty := default false (dirty s);
     ModuleResolver.Repository.branch := mjoin (branch s);
     ModuleResolver.Repository.commit := mjoin (commit s);
     ModuleResolver.Repository.tag := mjoin (tag s);
     ModuleResolver.Repository.latestTag := mjoin (latestTag s) |}.

End Git.

(* ===================================================================== *)
(** ** tasks/release/push: pushing a release *)
(* ===================================================================== *)

(** Modelled from the spec: [runSequential] of core/helpers/promise is not
    among the sources (see above).  This is the same chain for a callback
    that acts on a state [S] and leaves a trace: the items are processed in
    order, and the first rejection ends the chain. *)
Fixpoint runSequentialOn {S A E T : Type} (items : list A)
    (f : S -> A -> S * list T * Settled E unit) (s : S)
  : S * list T * Settled E unit :=
  match items with
  | [] => (s, [], Resolved tt)
  | item :: rest =>
      match f s item with
      | (s', trace, Rejected e) => (s', trace, Rejected e)
      | (s', trace, Resolved _) =>
          let '(s'', trace', settled) := runSequentialOn rest f s' in
          (s'', trace ++ trace', settled)
      end
  end.

Module Release.

(** A module with a release, as [pushRelease] builds it. *)
Module Module.
Record t : Type := { name : string; type : string; commit : string }.
End Module.

(** What the push of a release does outside the process. *)
Inductive Action : Type :=
| PushRef (remote refspec : string)
| Await (events : list Push.Event)
| CreateRelease (tag : string) (dryRun : bool).

Inductive PushError : Type :=
| PushRejected (remote : string)
| StatusUnavailable (e : Push.StatusError)
| UnknownTargetUrl (target_url : string)
| BuildUnavailable (e : Push.BuildError)
| BuildNotPassed (ref : string)      (* Build failed for name#ref *)
| ReleaseFailed.

(** The collaborators over a state [W] of the remotes.  [revparse] and
    [push] are those of [module.repository] ([None] is a rejected
    promise); [statuses ref] and [builds id] answer the requests of the two
    polling loops; [buildOf] is the first group of the pattern
    [https://travis-ci.org/.*?/.*?/builds/(\d+)] on a target URL, [None]
    when the pattern does not match. *)
Record Collaborators (W : Type) : Type := {
  revparse : W -> string -> option string;
  push : W -> string -> string -> option W;
  Date_now : W -> Z;
  statuses : string -> nat -> Push.StatusResponse;
  buildOf : string -> option string;
  builds : string -> nat -> Push.BuildResponse;
  createRelease : W -> string -> bool -> option W
}.

Arguments revparse {W} _ _ _.
Arguments push {W} _ _ _ _.
Arguments Date_now {W} _ _.
Arguments statuses {W} _ _ _.
Arguments buildOf {W} _ _.
Arguments builds {W} _ _ _.
Arguments createRelease {W} _ _ _ _.

(** [awaitBuild(log, module, ref, options)]; [options] are the status
    options with the defaults of [getTravisStatus] filled in.  [None] means
    the fuel ran out. *)
Definition awaitBuild {W : Type} (fuel : nat) (c : Collaborators W) (ref : string)
    (dryRun : bool) (options : Push.StatusOptions.t)
  : option (list Push.Event * Settled PushError string) :=
  if dryRun then Some ([], Resolved "success")
  else
    match Push.getTravisStatus fuel options (statuses c ref) with
    | None => None
    | Some (events, Rejected e) => Some (events, Rejected (StatusUnavailable e))
    | Some (events, Resolved status) =>
        match buildOf c (Push.Status.target_url status) with
        | None =>
            Some (events, Rejected (UnknownTargetUrl (Push.Status.target_url status)))
        | Some id =>
            match Push.awaitTravisBuild fuel Push.defaultBuildOptions ref (builds c id) with
            | None => None
            | Some (events', Rejected e) =>
                Some (events ++ events', Rejected (BuildUnavailable e))
            | Some (events', Resolved state) => Some (events ++ events', Resolved state)
            end
        end
    end.

(** Whether [remote/branch] is at the commit of the release already. *)
Definition alreadyPushed {W : Type} (c : Collaborators W) (w : W) (module : Module.t)
    (remote branch : string) : bool :=
  match revparse c w (remote +:+ "/" +:+ branch) with
  | Some currentCommit => String.eqb (Text.trim currentCommit) (Module.commit module)
  | None => false
  end.

(** The callback of [pushBranch] on one remote; the state is the remotes
    and the variable [startedAt]. *)
Definition pushBranchTo {W : Type} (c : Collaborators W) (module : Module.t)
    (tag branch : string) (dryRun : bool) (state : W * option Z) (remote : string)
  : W * option Z * list Action * Settled PushError unit :=
  let '(w, startedAt) := state in
  if alreadyPushed c w module remote branch then (w, startedAt, [], Resolved tt)
  else
    let startedAt :=
      if String.eqb remote "origin" then Some (Date_now c w) else startedAt in
    if dryRun then (w, startedAt, [], Resolved tt)
    else
      let refspec := "+" +:+ tag +:+ "~0:refs/heads/" +:+ branch in
      match push c w remote refspec with
      | Some w' => (w', startedAt, [PushRef remote refspec], Resolved tt)
      | None => (w, startedAt, [PushRef remote refspec], Rejected (PushRejected remote))
      end.

(** The status options [pushBranch] and [pushTag] wait with. *)
Definition branchOptions (module : Module.t) (startedAt : option Z)
  : Push.StatusOptions.t :=
  {| Push.StatusOptions.createdAfter := startedAt;
     Push.StatusOptions.sha := Some (Module.commit module);
     Push.StatusOptions.delay := 30 * 1000;
     Push.StatusOptions.retryAttempts := 20;
     Push.StatusOptions.retryInterval := 15 * 1000 |}.

Definition tagOptions (module : Module.t) : Push.StatusOptions.t :=
  {| Push.StatusOptions.createdAfter := None;
     Push.StatusOptions.sha := Some (Module.commit module);
     Push.StatusOptions.delay := 15 * 1000;
     Push.StatusOptions.retryAttempts := 20;
     Push.StatusOptions.retryInterval := 15 * 1000 |}.

(** [pushBranch(log, module, remotes, tag, branch, options)] *)
Definition pushBranch {W : Type} (fuel : nat) (c : Collaborators W) (w : W)
    (module : Module.t) (remotes : list string) (tag branch : string) (dryRun : bool)
  : option (W * list Action * Settled PushError unit) :=
  match runSequentialOn remotes (pushBranchTo c module tag branch dryRun) (w, None) with
  | (w, _, actions, Rejected e) => Some (w, actions, Rejected e)
  | (w, startedAt, actions, Resolved _) =>
      if JS.IsNil startedAt || negb (JS.includes remotes "origin") then
        Some (w, actions, Resolved tt)
      else
        match awaitBuild fuel c branch dryRun (branchOptions module startedAt) with
        | None => None
        | Some (events, Rejected e) => Some (w, actions ++ [Await events], Rejected e)
        | Some (events, Resolved state) =>
            if negb (String.eqb state "passed") then
              Some (w, actions ++ [Await events], Rejected (BuildNotPassed branch))
            else Some (w, actions ++ [Await events], Resolved tt)
        end
  end.

(** The callback of [pushTag] on one remote. *)
Definition pushTagTo {W : Type} (c : Collaborators W) (tag : string) (dryRun : bool)
    (w : W) (remote : string) : W * list Action * Settled PushError unit :=
  if dryRun then (w, [], Resolved tt)
  else
    let refspec := "refs/tags/" +:+ tag in
    match push c w remote refspec with
    | Some w' => (w', [PushRef remote refspec], Resolved tt)
    | None => (w, [PushRef remote refspec], Rejected (PushRejected remote))
    end.

(** [pushTag(log, module, remotes, tag, options)] *)
Definition pushTag {W : Type} (fuel : nat) (c : Collaborators W) (w : W)
    (module : Module.t) (remotes : list string) (tag : string) (dryRun : bool)
  : option (W * list Action * Settled PushError unit) :=
  match runSequentialOn remotes (pushTagTo c tag dryRun) w with
  | (w, actions, Rejected e) => Some (w, actions, Rejected e)
  | (w, actions, Resolved _) =>
      if negb (JS.includes remotes "origin") then Some (w, actions, Resolved tt)
      else
        match awaitBuild fuel c tag dryRun (tagOptions module) with
        | None => None
        | Some (events, Rejected e) => Some (w, actions ++ [Await events], Rejected e)
        | Some (events, Resolved state) =>
            if negb (String.eqb state "passed") then
              Some (w, actions ++ [Await events], Rejected (BuildNotPassed tag))
            else if negb (String.eqb (Module.type module) "package") then
              match createRelease c w tag dryRun with
              | Some w' =>
                  Some (w', actions ++ [Await events; CreateRelease tag dryRun],
                        Resolved tt)
              | None =>
                  Some (w, actions ++ [Await events; CreateRelease tag dryRun],
                        Rejected ReleaseFailed)
              end
            else Some (w, actions ++ [Await events], Resolved tt)
        end
  end.

End Release.

(* ===================================================================== *)
(** ** Concrete inputs used by the examples below *)
(* ===================================================================== *)

Module Examples.

Definition noDependencies : Pkg.t :=
  {| Pkg.dependencies := []; Pkg.devDependencies := []; Pkg.peerDependencies := [] |}.

(** A machine on which no path exists. *)
Definition emptyDisk : Node.t :=
  {| Node.existsSync := fun _ => false;
     Node.isFile := fun _ => false;
     Node.dirname := fun path => path;
     Node.basename := fun path => path;
     Node.join := fun a b => a +:+ "/" +:+ b;
     Node.parents := fun _ => [];
     Node.normalize := fun path => path;
     Node.sep := "/";
     Node.readPackageName := fun _ => Throw tt |}.

Definition chrome : Browser.t :=
  {| Browser.name := "chrome";
     Browser.package := "radon-extension-chrome";
     Browser.modules := [];
     Browser.extension := {| Extension.package := noDependencies |} |}.

Definition production : Environment.t := {| Environment.name := "production" |}.

(** A module that pins lodash, uses it, and also declares moment and the
    framework without a recorded use. *)
Definition corePackage : Pkg.t :=
  {| Pkg.dependencies :=
       [("lodash", "4.17.5"); ("moment", "^2.20.1");
        ("@radon-extension/framework", "^1.0.0")];
     Pkg.devDependencies := [];
     Pkg.peerDependencies := [] |}.

Definition core : Mod.t :=
  {| Mod.name := "@radon-extension/core"; Mod.type := "core";
     Mod.path := "/work/Core"; Mod.package := corePackage |}.

Definition firefox : Browser.t :=
  {| Browser.name := "firefox";
     Browser.package := "radon-extension-firefox";
     Browser.modules := [core];
     Browser.extension :=
       {| Extension.package :=
            {| Pkg.dependencies := [("jquery", "^3.0.0")];
               Pkg.devDependencies := []; Pkg.peerDependencies := [] |} |} |}.

(** The same browser, with a top-level dependency named after a method
    of every object. *)
Definition shadowed : Browser.t :=
  {| Browser.name := "firefox";
     Browser.package := "radon-extension-firefox";
     Browser.modules := [core];
     Browser.extension :=
       {| Extension.package :=
            {| Pkg.dependencies := [("jquery", "^3.0.0"); ("hasOwnProperty", "^1.0.0")];
               Pkg.devDependencies := []; Pkg.peerDependencies := [] |} |} |}.

(** The same browser, with top-level dependencies named after members of
    every object, none of them used. *)
Definition builtinNames : Browser.t :=
  {| Browser.name := "firefox";
     Browser.package := "radon-extension-firefox";
     Browser.modules := [core];
     Browser.extension :=
       {| Extension.package :=
            {| Pkg.dependencies :=
                 [("jquery", "^3.0.0"); ("constructor", "^1.0.0"); ("toString", "^1.0.0")];
               Pkg.devDependencies := []; Pkg.peerDependencies := [] |} |} |}.

(** A module that pins react, which the validator ignores, and itself. *)
Definition pinning : Mod.t :=
  {| Mod.name := "@radon-extension/core"; Mod.type := "core";
     Mod.path := "/work/Core";
     Mod.package :=
       {| Pkg.dependencies := [("react", "16.2.0")];
          Pkg.devDependencies := [];
          Pkg.peerDependencies := [("@radon-extension/core", "1.0.0")] |} |}.

Definition opera : Browser.t :=
  {| Browser.name := "opera";
     Browser.package := "radon-extension-opera";
     Browser.modules := [pinning];
     Browser.extension := {| Extension.package := noDependencies |} |}.

(** A disk that holds the sources of that module and its manifest. *)
Definition coreDisk : Node.t :=
  {| Node.existsSync :=
       fun path =>
         JS.includes ["/work/Core/src/index.js"; "/work/Core/src/util.js";
                      "/work/Core/package.json"] path;
     Node.isFile := fun path => negb (JS.includes ["/work/Core/src"; "/work/Core"] path);
     Node.dirname := fun path => JS.substring path 0 (JS.lastIndexOf path "/");
     Node.basename := fun path => JS.substringFrom path (JS.lastIndexOf path "/" + 1);
     Node.join := fun a b => a +:+ "/" +:+ b;
     Node.parents :=
       fun path =>
         if String.eqb path "/work/Core/src" then ["/work/Core"; "/work"; "/"] else [];
     Node.normalize := fun path => path;
     Node.sep := "/";
     Node.readPackageName :=
       fun path =>
         if String.eqb path "/work/Core/package.json"
         then Return "@radon-extension/core" else Throw tt |}.

(** A disk with one installed package whose manifest bears another name
    than its directory. *)
Definition renamedDisk : Node.t :=
  {| Node.existsSync :=
       fun path =>
         JS.includes ["/work/node_modules/left-pad";
                      "/work/node_modules/left-pad/package.json"] path;
     Node.isFile := fun _ => false;
     Node.dirname := fun path => JS.substring path 0 (JS.lastIndexOf path "/");
     Node.basename := fun path => JS.substringFrom path (JS.lastIndexOf path "/" + 1);
     Node.join := fun a b => a +:+ "/" +:+ b;
     Node.parents := fun _ => ["/work/node_modules"; "/work"; "/"];
     Node.normalize := fun path => path;
     Node.sep := "/";
     Node.readPackageName := fun _ => Return "leftpad" |}.

(** An instance with one recorded edge and no error. *)
Definition oneEdge : Validator.t :=
  Validator.markUsed Validator.create "firefox" "production"
    "@radon-extension/core" "lodash".

(** A workspace in which the build tool and one destination are installed
    but git knows nothing about either of them. *)
Definition noRepository : ModuleResolver.World.t :=
  {| ModuleResolver.World.existsSync :=
       fun path =>
         JS.includes ["/work/node_modules/neon-extension-build";
                      "/work/node_modules/neon-extension-destination-lastfm"] path;
     ModuleResolver.World.Path_resolve :=
       fun segments => fold_left (fun path s => path +:+ "/" +:+ s) (tail segments)
                                 (hd EmptyString segments);
     ModuleResolver.World.Path_join :=
       fun segments => fold_left (fun path s => path +:+ "/" +:+ s) (tail segments)
                                 (hd EmptyString segments);
     ModuleResolver.World.readPackageDetails :=
       fun path =>
         Resolved {| ModuleResolver.Details.name := JS.substringFrom path 19;
                     ModuleResolver.Details.key := None;
                     ModuleResolver.Details.type := None;
                     ModuleResolver.Details.path := None;
                     ModuleResolver.Details.manifest := noDependencies |};
     ModuleResolver.World.Git_status := fun _ => Rejected tt;
     ModuleResolver.World.describe := fun module => Resolved module |}.

Definition cleanRepository : ModuleResolver.Repository.t :=
  {| ModuleResolver.Repository.ahead := 0;
     ModuleResolver.Repository.dirty := false;
     ModuleResolver.Repository.branch := Some "master";
     ModuleResolver.Repository.commit := Some "0a1b2c3";
     ModuleResolver.Repository.tag := None;
     ModuleResolver.Repository.latestTag := None |}.

(** The same workspace, of which git knows a clean status. *)
Definition inRepository : ModuleResolver.World.t :=
  {| ModuleResolver.World.existsSync := ModuleResolver.World.existsSync noRepository;
     ModuleResolver.World.Path_resolve := ModuleResolver.World.Path_resolve noRepository;
     ModuleResolver.World.Path_join := ModuleResolver.World.Path_join noRepository;
     ModuleResolver.World.readPackageDetails :=
       ModuleResolver.World.readPackageDetails noRepository;
     ModuleResolver.World.Git_status := fun _ => Resolved cleanRepository;
     ModuleResolver.World.describe := fun module => Resolved module |}.

Definition extensionContext : ModuleResolver.ExtensionContext.t :=
  {| ModuleResolver.ExtensionContext.path := "/work";
     ModuleResolver.ExtensionContext.repository := cleanRepository;
     ModuleResolver.ExtensionContext.build := ∅;
     ModuleResolver.ExtensionContext.modules :=
       [("destinations", ["neon-extension-destination-lastfm"])];
     ModuleResolver.ExtensionContext.travis :=
       {| ModuleResolver.Travis.branch := None;
          ModuleResolver.Travis.commit := None;
          ModuleResolver.Travis.tag := None |} |}.

(** A machine whose world is the list of existing paths; only the
    [develop] branch exists on the remote, and cloning creates the local
    path. *)
Definition laptop : Install.Collaborators (list string) :=
  {| Install.existsSync := fun w path => JS.includes w path;
     Install.Path_join := fun a b => a +:+ "/" +:+ b;
     Install.Github_exists := fun _ _ branch => String.eqb branch "develop";
     Install.Git_clone := fun w _ _ localPath _ => Some (localPath :: w) |}.

(** A manifest that declares lodash only; everything else is its name. *)
Definition chromeManifest : Package.Manifest string :=
  {| Package.dependencies := Some {[ "lodash" := "^4.17.5" ]};
     Package.peerDependencies := None;
     Package.rest := "radon-extension-chrome" |}.

(** A JSON codec that knows one document. *)
Definition oneDocument : Package.Json string :=
  {| Package.JSON_parse :=
       fun data => if String.eqb data "chrome" then Some chromeManifest else None;
     Package.stringify := fun _ _ => "updated" |}.

Definition workDisk : Package.Disk :=
  {| Package.directories := {[ "/work" ]};
     Package.files := {[ "/work/package.json" := "chrome" ]} |}.

(** Status polling with a budget of three attempts and no answer ever
    carrying a travis status. *)
Definition threeAttempts : Push.StatusOptions.t :=
  {| Push.StatusOptions.createdAfter := None; Push.StatusOptions.sha := None;
     Push.StatusOptions.delay := 30 * 1000; Push.StatusOptions.retryAttempts := 3;
     Push.StatusOptions.retryInterval := 15 * 1000 |}.

Definition neverReady : nat -> Push.StatusResponse :=
  fun _ => Push.Combined "0a1b2c3" [].

Definition twoBuildAttempts : Push.BuildOptions.t :=
  {| Push.BuildOptions.maximumAttempts := 2;
     Push.BuildOptions.maximumInterval := 45 * 1000 |}.

Definition alwaysStarted : nat -> Push.BuildResponse :=
  fun _ => Push.Build "started" "master".

End Examples.

(* ===================================================================== *)
(** ** Concrete inputs for the further properties *)
(* ===================================================================== *)

Module Samples.

Definition updatedManifest : Package.Manifest string :=
  {| Package.dependencies := Some {[ "lodash" := "2.0.0" ]};
     Package.peerDependencies := None;
     Package.rest := "radon-extension-chrome" |}.

(** A JSON codec that knows two documents and prints the second. *)
Definition twoDocuments : Package.Json string :=
  {| Package.JSON_parse :=
       fun data =>
         if String.eqb data "chrome" then Some Examples.chromeManifest
         else if String.eqb data "updated" then Some updatedManifest
         else None;
     Package.stringify := fun _ _ => "updated" |}.

Definition updatedDisk : Package.Disk :=
  {| Package.directories := {[ "/work" ]};
     Package.files := {[ "/work/package.json" := "updated" ]} |}.

(** A lock file of the chrome package: one internal and one external
    dependency, both with an integrity hash. *)
Definition chromeLocks : PackageLocks.Locks unit unit :=
  {| PackageLocks.name := Some "@radon-extension/chrome";
     PackageLocks.lockVersion := PackageLocks.Value (Package.Literal (Some "1.0.0"));
     PackageLocks.dependencies :=
       Some {[ "@radon-extension/core" :=
                 {| PackageLocks.version := Some "1.0.0";
                    PackageLocks.from := None;
                    PackageLocks.integrity := Some "sha512-core";
                    PackageLocks.extra := tt |};
               "lodash" :=
                 {| PackageLocks.version := Some "4.17.5";
                    PackageLocks.from := None;
                    PackageLocks.integrity := Some "sha512-lodash";
                    PackageLocks.extra := tt |} ]};
     PackageLocks.rest := tt |}.

(** The same lock file after core went to 1.1.0. *)
Definition updatedLocks : PackageLocks.Locks unit unit :=
  {| PackageLocks.name := Some "@radon-extension/chrome";
     PackageLocks.lockVersion := PackageLocks.Value (Package.Literal (Some "1.0.0"));
     PackageLocks.dependencies :=
       Some {[ "@radon-extension/core" :=
                 {| PackageLocks.version := Some "1.1.0";
                    PackageLocks.from := None;
                    PackageLocks.integrity := None;
                    PackageLocks.extra := tt |};
               "lodash" :=
                 {| PackageLocks.version := Some "4.17.5";
                    PackageLocks.from := None;
                    PackageLocks.integrity := Some "sha512-lodash";
                    PackageLocks.extra := tt |} ]};
     PackageLocks.rest := tt |}.

(** A codec for lock files that knows one document. *)
Definition oneLock : PackageLocks.Json unit unit :=
  {| PackageLocks.JSON_parse :=
       fun data => if String.eqb data "locks" then Some chromeLocks else None;
     PackageLocks.stringify := fun _ _ => "rewritten" |}.

(** A lock named after a member of every object, with nothing to clean. *)
Definition constructorLocks : PackageLocks.Locks unit unit :=
  {| PackageLocks.name := Some "constructor";
     PackageLocks.lockVersion := PackageLocks.Value (Package.Literal (Some "1.0.0"));
     PackageLocks.dependencies := Some ∅;
     PackageLocks.rest := tt |}.

Definition constructorLock : PackageLocks.Json unit unit :=
  {| PackageLocks.JSON_parse :=
       fun data => if String.eqb data "locks" then Some constructorLocks else None;
     PackageLocks.stringify := fun _ _ => "rewritten" |}.

Definition lockDisk : Package.Disk :=
  {| Package.directories := {[ "/work" ]};
     Package.files := {[ "/work/package-lock.json" := "locks" ]} |}.

(** A repository whose log is [commits], of which git can tell nothing
    else. *)
Definition logOnly (commits : list Git.Commit) : Git.Repository unit :=
  {| Git.describe := fun _ => Rejected tt;
     Git.log := fun _ =>
       Resolved {| Git.all := commits; Git.total := Z.of_nat (length commits) |};
     Git.revparse := Rejected tt;
     Git.status_summary := Rejected tt |}.

(** A repository with three commits by two authors, of which git can tell
    nothing else. *)
Definition threeCommits : Git.Repository unit :=
  {| Git.describe := fun _ => Rejected tt;
     Git.log := fun _ =>
       Resolved
         {| Git.all :=
              [ {| Git.author_name := "Ada"; Git.author_email := "ada@example.org" |};
                {| Git.author_name := "Bob"; Git.author_email := "bob@example.org" |};
                {| Git.author_name := "A."; Git.author_email := "ada@example.org" |} ];
            Git.total := 3 |};
     Git.revparse := Rejected tt;
     Git.status_summary := Rejected tt |}.

(** GitHub knows the travis status of the commit from the second request
    on. *)
Definition travisStatus : Push.Status.t :=
  {| Push.Status.context := "continuous-integration/travis-ci/push";
     Push.Status.target_url := "https://travis-ci.org/RadonApp/radon-extension-core/builds/42";
     Push.Status.created_at := 1500 |}.

Definition readyAtSecond : nat -> Push.StatusResponse :=
  fun k =>
    if (k <? 2)%nat then Push.Combined "0a1b2c3" []
    else Push.Combined "0a1b2c3" [travisStatus].

(** Travis reports the build as started twice, then as passed. *)
Definition passesAtThird : nat -> Push.BuildResponse :=
  fun k =>
    if (k <? 3)%nat then Push.Build "started" "master" else Push.Build "passed" "master".

End Samples.

(* ===================================================================== *)
(** * Properties *)
(* ===================================================================== *)

(** ** Strings *)

Section StringFacts.

Implicit Types (s p r : string) (c : ascii).

Lemma prefix_single c s :
  String.prefix (String c EmptyString) s
  = match s with String d _ => Ascii.eqb c d | EmptyString => false end.
Proof.
  destruct s as [|d s]; simpl; [reflexivity|].
  destruct (ascii_dec c d) as [->|Hne].
  - rewrite Ascii.eqb_refl. now destruct s.
  - symmetry. now apply Ascii.eqb_neq.
Qed.

Lemma append_nil r : EmptyString +:+ r = r.
Proof. reflexivity. Qed.

Lemma append_cons c p r : String c p +:+ r = String c (p +:+ r).
Proof. reflexivity. Qed.

Lemma prefix_app p r : String.prefix p (p +:+ r) = true.
Proof.
  induction p as [|c p IH]; simpl.
  - now destruct r.
  - destruct (ascii_dec c c); [exact IH|congruence].
Qed.

Lemma length_app p r :
  String.length (p +:+ r) = (String.length p + String.length r)%nat.
Proof. induction p as [|c p IH]; simpl; [reflexivity|now rewrite IH]. Qed.

Lemma substring_take p r : String.substring 0 (String.length p) (p +:+ r) = p.
Proof.
  induction p as [|c p IH]; simpl.
  - now destruct r.
  - now rewrite IH.
Qed.

Lemma substring_all s : String.substring 0 (String.length s) s = s.
Proof. induction s as [|c s IH]; simpl; [reflexivity|now rewrite IH]. Qed.

Lemma substring_drop p r :
  String.substring (String.length p) (String.length r) (p +:+ r) = r.
Proof.
  induction p as [|c p IH]; simpl; [apply substring_all|exact IH].
Qed.

(** Position of the first occurrence of a character. *)
Lemma indexOf_from_char_absent c s from :
  ~ In c (list_ascii_of_string s) ->
  JS.indexOf_from s (String c EmptyString) from = (-1)%Z.
Proof.
  revert from. induction s as [|d s IH]; intros from Hnot.
  - reflexivity.
  - cbn [JS.indexOf_from]. rewrite prefix_single.
    simpl in Hnot.
    destruct (Ascii.eqb_spec c d) as [->|Hne]; [tauto|].
    apply IH. tauto.
Qed.

Lemma indexOf_from_char_first c p r from :
  ~ In c (list_ascii_of_string p) ->
  JS.indexOf_from (p +:+ String c r) (String c EmptyString) from
  = (from + Z.of_nat (String.length p))%Z.
Proof.
  revert from. induction p as [|d p IH]; intros from Hnot.
  - rewrite append_nil. cbn [JS.indexOf_from]. rewrite prefix_single, Ascii.eqb_refl.
    simpl. lia.
  - rewrite append_cons. cbn [JS.indexOf_from]. rewrite prefix_single.
    simpl in Hnot.
    destruct (Ascii.eqb_spec c d) as [->|Hne]; [tauto|].
    rewrite IH by tauto. cbn [String.length]. lia.
Qed.

(** [s.substring(0, n)] on a string that starts with [n] known characters. *)
Lemma substring_to_prefix p r :
  JS.substring (p +:+ r) 0 (Z.of_nat (String.length p)) = p.
Proof.
  unfold JS.substring. rewrite length_app.
  replace (Z.min (Z.max 0 0) _) with 0%Z by lia.
  replace (Z.min (Z.max (Z.of_nat (String.length p)) 0) _)
    with (Z.of_nat (String.length p)) by lia.
  replace (Z.min 0 _) with 0%Z by lia.
  replace (Z.max 0 _ - 0)%Z with (Z.of_nat (String.length p)) by lia.
  rewrite Nat2Z.id. apply substring_take.
Qed.

Lemma substring_to_negative s : JS.substring s 0 (-1) = EmptyString.
Proof.
  unfold JS.substring.
  replace (Z.min (Z.max 0 0) _) with 0%Z by lia.
  replace (Z.min (Z.max (-1) 0) _) with 0%Z by lia.
  simpl. now destruct s.
Qed.

(** [(p + r).substring(p.length)] *)
Lemma substringFrom_suffix p r :
  JS.substringFrom (p +:+ r) (Z.of_nat (String.length p)) = r.
Proof.
  unfold JS.substringFrom, JS.substring. rewrite length_app.
  set (lp := String.length p). set (lr := String.length r).
  replace (Z.min (Z.max (Z.of_nat lp) 0) (Z.of_nat (lp + lr))) with (Z.of_nat lp) by lia.
  replace (Z.min (Z.max (Z.of_nat (lp + lr)) 0) (Z.of_nat (lp + lr)))
    with (Z.of_nat (lp + lr)) by lia.
  replace (Z.min (Z.of_nat lp) (Z.of_nat (lp + lr))) with (Z.of_nat lp) by lia.
  replace (Z.max (Z.of_nat lp) (Z.of_nat (lp + lr)) - Z.of_nat lp)%Z
    with (Z.of_nat lr) by lia.
  rewrite !Nat2Z.id. apply substring_drop.
Qed.

Lemma indexOf_prefix p r : JS.indexOf (p +:+ r) p = 0%Z.
Proof.
  unfold JS.indexOf.
  destruct (p +:+ r) eqn:E; cbn [JS.indexOf_from]; rewrite <- E, prefix_app;
    reflexivity.
Qed.

End StringFacts.

(** ** Parsing dependency requests *)

(** C10.  For a request whose path does not exist, [parseDependency] does
    not throw, writes nothing and returns [{name, path: null}]: when the request contains a
    slash, [name] is the part before the first slash if that part is not
    empty and the whole request otherwise; when it contains no slash, [name]
    is the whole request. *)
Theorem parseDependency_missing_path (node : Node.t) (request : string) :
  Node.existsSync node request = false ->
  exists name,
    Validator.parseDependency node request
    = Return (Some {| Dep.name := name; Dep.path := None |}, [])
    /\ (forall before after,
          request = before +:+ "/" +:+ after ->
          ~ In "/"%char (list_ascii_of_string before) ->
          name = if String.eqb before EmptyString then request else before)
    /\ (~ In "/"%char (list_ascii_of_string request) -> name = request).
Proof.
  intros Hmissing. unfold Validator.parseDependency. rewrite Hmissing. cbn [negb].
  eexists. split; [reflexivity|]. split.
  - intros before after Hrequest Hfirst.
    assert (Hindex : JS.indexOf request "/" = Z.of_nat (String.length before)).
    { rewrite Hrequest. unfold JS.indexOf.
      rewrite append_cons, append_nil, indexOf_from_char_first by exact Hfirst.
      lia. }
    rewrite Hindex.
    rewrite Hrequest at 1. rewrite substring_to_prefix.
    destruct before; reflexivity.
  - intros Hnone. unfold JS.indexOf.
    rewrite indexOf_from_char_absent by exact Hnone.
    rewrite substring_to_negative. reflexivity.
Qed.

Lemma parseDependency_missing_path_witness :
  Node.existsSync Examples.emptyDisk "lodash/merge" = false
  /\ exists name,
       Validator.parseDependency Examples.emptyDisk "lodash/merge"
       = Return (Some {| Dep.name := name; Dep.path := None |}, [])
       /\ (forall before after,
             "lodash/merge" = before +:+ "/" +:+ after ->
             ~ In "/"%char (list_ascii_of_string before) ->
             name = if String.eqb before EmptyString then "lodash/merge" else before)
       /\ (~ In "/"%char (list_ascii_of_string "lodash/merge") -> name = "lodash/merge").
Proof.
  split; [reflexivity|].
  apply (parseDependency_missing_path Examples.emptyDisk "lodash/merge").
  reflexivity.
Defined.

Example parseDependency_scoped :
  Validator.parseDependency Examples.emptyDisk "@radon-extension/framework"
  = Return (Some {| Dep.name := "@radon-extension"; Dep.path := None |}, []).
Proof. reflexivity. Qed.

(** ** The link registry *)

Section LinkFacts.

Lemma links_get_set (links : Validator.Links) (b e target source : string) :
  Validator.links_get (Validator.links_set links b e target source) b e
  = Some (dict_set (default [] (Validator.links_get links b e)) target source).
Proof.
  unfold Validator.links_get, Validator.links_set, Validator.Links in *.
  rewrite lookup_insert_eq, lookup_insert_eq.
  destruct (links !! b) as [per_env|]; simpl; [reflexivity|].
  now rewrite lookup_empty.
Qed.

(** A path under a registered target is rewritten to the registered source. *)
Lemma resolveLink_each_head (target source suffix : string) (rest : Dict string) :
  Validator.resolveLink_each ((target, source) :: rest) (target +:+ suffix)
  = source +:+ suffix.
Proof.
  cbn [Validator.resolveLink_each]. rewrite indexOf_prefix. cbn [Z.ltb Z.compare].
  rewrite Z.add_0_l, substringFrom_suffix. reflexivity.
Qed.

(** What a first registration stores and writes. *)
Lemma registerLink_fresh (node : Node.t) (browser : Browser.t)
    (environment : Environment.t) (source target : string) (dep : Dep.t)
    (warned : list LogEntry) :
  Validator.parseDependency node source = Return (Some dep, warned) ->
  JS.indexOf (Dep.name dep) Validator.ModuleScope <> 0%Z ->
  Validator.registerLink node ∅ browser environment source target
  = Return (Validator.links_set ∅ (Browser.name browser) (Environment.name environment)
              target source,
            warned ++ [(Info, RegisteredLink source target)]).
Proof.
  intros Hparse Hscope. unfold Validator.registerLink. rewrite Hparse.
  destruct (Z.eqb_spec (JS.indexOf (Dep.name dep) Validator.ModuleScope) 0) as [|_];
    [contradiction|].
  unfold Validator.links_get, Validator.Links. rewrite lookup_empty. reflexivity.
Qed.

(** Registration followed by resolution: any path under the registered
    target comes back under the registered source. *)
Lemma resolveLink_after_registerLink (node : Node.t) (browser : Browser.t)
    (environment : Environment.t) (source target suffix : string) (dep : Dep.t)
    (warned : list LogEntry) :
  Validator.parseDependency node source = Return (Some dep, warned) ->
  JS.indexOf (Dep.name dep) Validator.ModuleScope <> 0%Z ->
  exists links logged,
    Validator.registerLink node ∅ browser environment source target
    = Return (links, logged)
    /\ Validator.resolveLink links browser environment (Some (target +:+ suffix))
       = Some (source +:+ suffix).
Proof.
  intros Hparse Hscope.
  eexists _, _. split; [exact (registerLink_fresh _ _ _ _ _ _ _ Hparse Hscope)|].
  unfold Validator.resolveLink. rewrite links_get_set.
  unfold Validator.links_get, Validator.Links. rewrite lookup_empty.
  cbn [default from_option id dict_set]. now rewrite resolveLink_each_head.
Qed.

End LinkFacts.

(** C3, as the code has it.  After
    [registerLink(B, E, "/work/node_modules/x", "/modules/x")] on a fresh
    registry, [resolveLink] rewrites a path under the registered target
    ["/modules/x"] to the registered source: ["/modules/x/lib/y.js"] becomes
    ["/work/node_modules/x/lib/y.js"]; a path under the source is returned
    unchanged.  Whether [parseDependency] warned of the source makes no
    difference. *)
Theorem registerLink_then_resolveLink (node : Node.t) (browser : Browser.t)
    (environment : Environment.t) (dep : Dep.t) (warned : list LogEntry) :
  Validator.parseDependency node "/work/node_modules/x" = Return (Some dep, warned) ->
  JS.indexOf (Dep.name dep) Validator.ModuleScope <> 0%Z ->
  exists links logged,
    Validator.registerLink node ∅ browser environment "/work/node_modules/x" "/modules/x"
    = Return (links, logged)
    /\ Validator.resolveLink links browser environment (Some "/modules/x/lib/y.js")
       = Some "/work/node_modules/x/lib/y.js"
    /\ Validator.resolveLink links browser environment (Some "/work/node_modules/x/lib/y.js")
       = Some "/work/node_modules/x/lib/y.js".
Proof.
  intros Hparse Hscope.
  eexists _, _. split; [exact (registerLink_fresh _ _ _ _ _ _ _ Hparse Hscope)|].
  unfold Validator.resolveLink. rewrite links_get_set.
  unfold Validator.links_get, Validator.Links. rewrite lookup_empty.
  split; reflexivity.
Qed.

Lemma registerLink_then_resolveLink_witness :
  Validator.parseDependency Examples.emptyDisk "/work/node_modules/x"
  = Return (Some {| Dep.name := "/work/node_modules/x"; Dep.path := None |}, [])
  /\ JS.indexOf "/work/node_modules/x" Validator.ModuleScope <> 0%Z
  /\ exists links logged,
       Validator.registerLink Examples.emptyDisk ∅ Examples.chrome Examples.production
         "/work/node_modules/x" "/modules/x"
       = Return (links, logged)
       /\ Validator.resolveLink links Examples.chrome Examples.production
            (Some "/modules/x/lib/y.js")
          = Some "/work/node_modules/x/lib/y.js"
       /\ Validator.resolveLink links Examples.chrome Examples.production
            (Some "/work/node_modules/x/lib/y.js")
          = Some "/work/node_modules/x/lib/y.js".
Proof.
  split; [reflexivity|]. split; [vm_compute; discriminate|].
  apply (registerLink_then_resolveLink Examples.emptyDisk Examples.chrome
           Examples.production
           {| Dep.name := "/work/node_modules/x"; Dep.path := None |} []).
  - reflexivity.
  - vm_compute. discriminate.
Defined.

(** C3, as the spec words it, fails: on a machine where the link path does
    not exist yet, the registration succeeds and [resolveLink] returns
    ["/work/node_modules/x/lib/y.js"] itself, not ["/modules/x/lib/y.js"]. *)
Lemma resolveLink_does_not_rewrite_source :
  exists links logged,
    Validator.registerLink Examples.emptyDisk ∅ Examples.chrome Examples.production
      "/work/node_modules/x" "/modules/x"
    = Return (links, logged)
    /\ Validator.resolveLink links Examples.chrome Examples.production
         (Some "/work/node_modules/x/lib/y.js")
       = Some "/work/node_modules/x/lib/y.js"
    /\ Validator.resolveLink links Examples.chrome Examples.production
         (Some "/work/node_modules/x/lib/y.js")
       <> Some "/modules/x/lib/y.js".
Proof.
  exists (Validator.links_set ∅ "chrome" "production" "/modules/x" "/work/node_modules/x"),
         [(Info, RegisteredLink "/work/node_modules/x" "/modules/x")].
  split.
  { apply (registerLink_fresh Examples.emptyDisk Examples.chrome Examples.production
             "/work/node_modules/x" "/modules/x"
             {| Dep.name := "/work/node_modules/x"; Dep.path := None |} []).
    - reflexivity.
    - vm_compute. discriminate. }
  assert (H : Validator.resolveLink
                (Validator.links_set ∅ "chrome" "production" "/modules/x"
                   "/work/node_modules/x")
                Examples.chrome Examples.production
                (Some "/work/node_modules/x/lib/y.js")
              = Some "/work/node_modules/x/lib/y.js").
  { unfold Validator.resolveLink. cbn [Browser.name Examples.chrome
      Environment.name Examples.production].
    rewrite links_get_set. reflexivity. }
  split; [exact H|]. rewrite H. discriminate.
Qed.

(** ** Regular expressions: the derivative matcher decides the language *)

Section RegexFacts.

Import Regex.

Lemma append_empty (s1 s2 : string) :
  s1 +:+ s2 = EmptyString -> s1 = EmptyString /\ s2 = EmptyString.
Proof. destruct s1; [rewrite append_nil; auto|rewrite append_cons; discriminate]. Qed.

Lemma append_first (s1 s2 : string) (c : ascii) (s : string) :
  s1 +:+ s2 = String c s ->
  (s1 = EmptyString /\ s2 = String c s)
  \/ exists s1', s1 = String c s1' /\ s = s1' +:+ s2.
Proof.
  destruct s1 as [|d s1].
  - rewrite append_nil. auto.
  - rewrite append_cons. intros [= -> <-]. right. eauto.
Qed.

Lemma nullable_lang (r : re) : nullable r = true <-> lang r EmptyString.
Proof.
  split.
  - induction r; simpl; intros H; try discriminate.
    + constructor.
    + apply andb_prop in H as [H1 H2].
      rewrite <- (append_nil EmptyString). constructor; auto.
    + apply orb_prop in H as [H|H]; [apply lang_alt_l|apply lang_alt_r]; auto.
    + constructor.
  - intros H. remember EmptyString as w eqn:Hs.
    induction H; simpl; try discriminate; auto.
    + apply append_empty in Hs as [-> ->]. rewrite IHlang1, IHlang2; auto.
    + rewrite IHlang; auto.
    + rewrite IHlang; auto using orb_true_r.
Qed.

Lemma deriv_sound (c : ascii) (r : re) :
  forall s, lang (deriv c r) s -> lang r (String c s).
Proof.
  induction r; simpl; intros s H.
  - inversion H.
  - inversion H.
  - destruct (p c) eqn:Hp; inversion H; subst. now constructor.
  - assert (Hseq : lang (Seq (deriv c r1) r2) s -> lang (Seq r1 r2) (String c s)).
    { intros Hs. inversion Hs; subst. rewrite <- append_cons. constructor; auto. }
    destruct (nullable r1) eqn:Hn; [|auto].
    inversion H; subst; [auto|].
    rewrite <- (append_nil (String c s)). constructor; [|auto].
    now apply nullable_lang.
  - inversion H; subst; [apply lang_alt_l|apply lang_alt_r]; auto.
  - inversion H; subst. rewrite <- append_cons. constructor; auto.
Qed.

Lemma deriv_complete (c : ascii) (r : re) (t : string) :
  lang r (String c t) -> lang (deriv c r) t.
Proof.
  intros H. remember (String c t) as ct eqn:Hct. revert t Hct.
  induction H; intros t Hct; simpl; try discriminate.
  - injection Hct as -> <-. rewrite H. constructor.
  - apply append_first in Hct as [[-> ->]|(s1' & -> & ->)].
    + apply nullable_lang in H. rewrite H. apply lang_alt_r. auto.
    + assert (lang (Seq (deriv c r1) r2) (s1' +:+ s2)) by (constructor; auto).
      destruct (nullable r1); [apply lang_alt_l|]; auto.
  - apply lang_alt_l; auto.
  - apply lang_alt_r; auto.
  - apply append_first in Hct as [[-> ->]|(s1' & -> & ->)].
    + apply (IHlang2 t eq_refl).
    + constructor; auto.
Qed.

(** The matcher accepts exactly the language of the pattern. *)
Lemma matches_lang (r : re) (s : string) : matches r s = true <-> lang r s.
Proof.
  revert r. induction s as [|c s IH]; intros r; simpl.
  - apply nullable_lang.
  - rewrite IH. split; [apply deriv_sound|apply deriv_complete].
Qed.

End RegexFacts.

Example pinned_versions :
  map Validator.isPinned ["1.2.3"; "1.2.3-beta"; "1.2.3-beta.1"; "10.0.12-rc_1.44"]
  = [true; true; true; true].
Proof. reflexivity. Qed.

Example ranged_versions :
  map Validator.isPinned ["^1.2.3"; "~1.2.3"; ">=1.2.3"; "1.2"; "1.2.x"; "1.2.3-"; "*"; ""]
  = [false; false; false; false; false; false; false; false].
Proof. reflexivity. Qed.

(** ** The validator: the sticky flag and the used-dependency index *)

Section ValidatorFacts.

Import Validator.

Implicit Types (v : Validator.t) (b e m d : string).

Lemma used_markUsed_same v b e m d :
  used (markUsed v b e m d) b e
  = Some (<[m := <[d := true]> (default ∅ (default ∅ (used v b e) !! m))]>
            (default ∅ (used v b e))).
Proof.
  unfold used, markUsed; cbn [dependencies].
  rewrite lookup_insert_eq, lookup_insert_eq.
  destruct (dependencies v !! b) as [per_env|]; cbn [default from_option id]; [reflexivity|].
  rewrite lookup_empty. reflexivity.
Qed.

Lemma used_markUsed_other v b e m d b' e' :
  (b, e) <> (b', e') ->
  used (markUsed v b e m d) b' e' = used v b' e'.
Proof.
  intros Hne. unfold used, markUsed; cbn [dependencies].
  destruct (decide (b = b')) as [<-|Hb].
  - rewrite lookup_insert_eq.
    assert (He : e <> e') by congruence.
    rewrite lookup_insert_ne by exact He.
    destruct (dependencies v !! b) as [per_env|]; cbn [default from_option id]; [reflexivity|].
    apply lookup_empty.
  - rewrite lookup_insert_ne by exact Hb. reflexivity.
Qed.

Lemma usedEdge_markUsed_same v b e m d : usedEdge (markUsed v b e m d) b e m d = true.
Proof.
  unfold usedEdge. rewrite used_markUsed_same. cbv iota beta.
  rewrite lookup_insert_eq. cbn [default from_option id].
  rewrite lookup_insert_eq. reflexivity.
Qed.

Lemma usedEdge_markUsed_mono v b e m d b' e' m' d' :
  usedEdge v b' e' m' d' = true -> usedEdge (markUsed v b e m d) b' e' m' d' = true.
Proof.
  destruct (decide ((b, e) = (b', e'))) as [[= <- <-]|Hne].
  - unfold usedEdge. rewrite used_markUsed_same.
    destruct (used v b e) as [per_module|]; [|discriminate]. cbn [default from_option id].
    cbv iota beta.
    destruct (decide (m = m')) as [<-|Hm].
    + rewrite lookup_insert_eq. cbn [default from_option id].
      destruct (decide (d = d')) as [<-|Hd].
      * now rewrite lookup_insert_eq.
      * now rewrite lookup_insert_ne by exact Hd.
    + now rewrite lookup_insert_ne by exact Hm.
  - unfold usedEdge. now rewrite used_markUsed_other by exact Hne.
Qed.

Lemma usedEdge_slot v b e m d : usedEdge v b e m d = true -> used v b e <> None.
Proof. unfold usedEdge. destruct (used v b e); [discriminate|discriminate]. Qed.

Lemma slotsInhabited_create : slotsInhabited create.
Proof.
  intros b e per_module. unfold used, create; cbn [dependencies].
  rewrite lookup_empty. discriminate.
Qed.

Lemma slotsInhabited_markUsed v b e m d :
  slotsInhabited v -> slotsInhabited (markUsed v b e m d).
Proof.
  intros Hv b' e' per_module Hused.
  destruct (decide ((b, e) = (b', e'))) as [[= <- <-]|Hne].
  - exists m, d. apply usedEdge_markUsed_same.
  - rewrite used_markUsed_other in Hused by exact Hne.
    destruct (Hv _ _ _ Hused) as (m' & d' & Hedge).
    exists m', d'. now apply usedEdge_markUsed_mono.
Qed.

(** *** [laterThan] is a preorder that every operation respects *)

Lemma later_refl v : laterThan v v.
Proof. unfold laterThan. auto. Qed.

Lemma later_trans v1 v2 v3 : laterThan v1 v2 -> laterThan v2 v3 -> laterThan v1 v3.
Proof. unfold laterThan. intros (? & ? & ?) (? & ? & ?). auto 6. Qed.

Lemma later_log v level message : laterThan v (log v level message).
Proof. unfold laterThan. auto. Qed.

Lemma later_logAll v entries : laterThan v (logAll v entries).
Proof. unfold laterThan. auto. Qed.

Lemma later_setError v : laterThan v (setError v).
Proof. unfold laterThan. auto. Qed.

Lemma later_markChecked v request source : laterThan v (markChecked v request source).
Proof. unfold laterThan. auto. Qed.

Lemma later_markUsed v b e m d : laterThan v (markUsed v b e m d).
Proof.
  unfold laterThan. split; [auto|]. split.
  - intros. now apply usedEdge_markUsed_mono.
  - apply slotsInhabited_markUsed.
Qed.

Create HintDb later discriminated.

#[local] Hint Resolve later_refl later_log later_logAll later_setError
  later_markChecked later_markUsed : later.

Ltac later :=
  solve [ auto with later
        | eapply later_trans; [apply later_log|apply later_setError] ].

Lemma later_validateRequirement v dep module :
  laterThan v (snd (validateRequirement v dep module)).
Proof.
  unfold validateRequirement.
  repeat (match goal with |- context [match ?x with _ => _ end] => destruct x end;
          cbn [snd]); later.
Qed.

Lemma later_validateModule v dep module :
  laterThan v (snd (validateModule v dep module)).
Proof.
  unfold validateModule.
  repeat (match goal with |- context [match ?x with _ => _ end] => destruct x end;
          cbn [snd]); later.
Qed.

Lemma later_validateDependency v dep module :
  laterThan v (snd (validateDependency v dep module)).
Proof.
  unfold validateDependency.
  destruct (_ =? _)%Z; [apply later_validateModule|apply later_validateRequirement].
Qed.

Lemma later_validateReason node v browser environment source request :
  laterThan v (snd (validateReason node v browser environment source request)).
Proof.
  unfold validateReason.
  destruct browser as [browser|], environment as [environment|],
    request as [request|]; cbn [snd]; auto with later.
  destruct (parseDependency node request) as [[[dep|] warned]|]; cbn [snd];
    auto with later.
  2:{ eapply later_trans; [apply later_logAll|apply later_log]. }
  apply (later_trans _ (logAll v warned)); [apply later_logAll|].
  generalize (logAll v warned) as w. intros w.
  destruct (JS.includes _ _); cbn [snd]; auto with later.
  destruct (_ && _); cbn [snd]; [later|].
  match goal with |- context [match ?x with Some _ => _ | None => _ end] =>
    destruct x as [module|] end; cbn [snd]; [|later].
  destruct (String.eqb _ _); cbn [snd]; [later|].
  destruct (_ && _); cbn [snd]; [later|].
  destruct (negb (String.eqb _ _)); cbn [snd]; [|later].
  pose proof (later_validateDependency w dep module) as Hdep.
  destruct (validateDependency w dep module) as [result v1]; cbn [snd] in *.
  destruct (negb (validOf result)); cbn [snd].
  { eapply later_trans; [exact Hdep|apply later_setError]. }
  destruct (negb (JS.IsNilProperty _)); cbn [snd]; [|exact Hdep].
  eapply later_trans; [exact Hdep|apply later_markUsed].
Qed.

Lemma later_fold {A : Type} (f : Validator.t -> A -> Validator.t) (l : list A) :
  (forall v a, laterThan v (f v a)) -> forall v, laterThan v (fold_left f l v).
Proof.
  intros Hf. induction l as [|a l IH]; intros v; cbn [fold_left].
  - apply later_refl.
  - eapply later_trans; [apply Hf|apply IH].
Qed.

Lemma later_validate node links v browser environment module :
  laterThan v (validate node links v browser environment module).
Proof.
  unfold validate.
  destruct browser as [browser|], environment as [environment|],
    module as [module|]; auto with later.
  destruct (JS.IsNil _); auto with later.
  apply later_fold. intros v0 [reason source].
  destruct (isChecked _ _ _); auto with later.
  eapply later_trans; [apply later_markChecked|apply later_validateReason].
Qed.

Lemma later_step v call : laterThan v (step v call).
Proof.
  destruct call; cbn [step]; [apply later_validate|apply later_validateReason].
Qed.

Lemma run_take_drop (calls : list Call) (n : nat) :
  run calls = fold_left step (drop n calls) (run (take n calls)).
Proof.
  unfold run. rewrite <- fold_left_app, take_drop. reflexivity.
Qed.

(** The state after a whole run is later than the state after any prefix. *)
Lemma later_run_prefix (calls : list Call) (n : nat) :
  laterThan (run (take n calls)) (run calls).
Proof.
  rewrite (run_take_drop calls n). apply later_fold. apply later_step.
Qed.

Lemma slotsInhabited_run (calls : list Call) : slotsInhabited (run calls).
Proof.
  pose proof (later_run_prefix calls 0) as (_ & _ & H).
  apply H. rewrite take_0. apply slotsInhabited_create.
Qed.

Lemma existsb_over_map {A B : Type} (f : A -> B) (p : B -> bool) (l : list A) :
  existsb p (map f l) = existsb (fun a => p (f a)) l.
Proof. induction l as [|a l IH]; cbn [map existsb]; [reflexivity|now rewrite IH]. Qed.

Lemma log_logAll v level message : log v level message = logAll v [(level, message)].
Proof. reflexivity. Qed.

Lemma logAll_nil v : logAll v [] = v.
Proof. destruct v. unfold logAll; cbn. now rewrite app_nil_r. Qed.

Lemma logAll_app v (first second : list LogEntry) :
  logAll (logAll v first) second = logAll v (first ++ second).
Proof. unfold logAll; cbn. now rewrite app_assoc. Qed.

Lemma checkDependencies_throws (prefix : string) (current : Dict string)
    (matched : option (gmap string bool)) (moduleName : option string) :
  throws (_checkDependencies (Some prefix) (Some current) matched moduleName)
  = shadowsHasOwnProperty current.
Proof. unfold _checkDependencies. now destruct (shadowsHasOwnProperty current). Qed.

Lemma auditModules_throws v (matched : gmap string (gmap string bool))
    (modules : list Mod.t) :
  throws (auditModules v matched modules)
  = existsb (fun module => shadowsHasOwnProperty (Pkg.dependencies (Mod.package module)))
            modules.
Proof.
  revert v. induction modules as [|module modules IH]; intros v;
    cbn [auditModules existsb]; [reflexivity|].
  pose proof (checkDependencies_throws "Dependency"
                (Pkg.dependencies (Mod.package module))
                (matched !! Mod.name module) (Some (Mod.name module))) as Hthrows.
  destruct (_checkDependencies _ _ _ _) as [warned|e]; cbn [throws] in Hthrows;
    rewrite <- Hthrows; cbn [orb throws]; [apply IH|reflexivity].
Qed.

(** When [finish] throws: the flag, a missing slot, or an audited
    collection whose key [hasOwnProperty] hides the method. *)
Lemma finish_throws v browser environment :
  throws (finish v browser environment) = true
  <-> _error v = true
      \/ used v (Browser.name browser) (Environment.name environment) = None
      \/ existsb shadowsHasOwnProperty (auditedCollections browser) = true.
Proof.
  unfold finish, auditedCollections. cbn [existsb]. rewrite existsb_over_map.
  destruct (_error v); cbn [throws]; [tauto|].
  destruct (used v _ _) as [matched|]; cbn [throws]; [|tauto].
  pose proof (checkDependencies_throws "Dependency"
                (Pkg.dependencies (Extension.package (Browser.extension browser)))
                (matched !! "null") None) as Htop.
  destruct (_checkDependencies _ _ _ _) as [warned|e]; cbn [throws] in Htop;
    rewrite <- Htop; cbn [orb throws].
  - rewrite auditModules_throws. split; [auto|]. intros [|[|]]; congruence.
  - tauto.
Qed.

(** Over a run, the flag and the slot are what the prefixes of the run
    show. *)
Lemma finish_throws_run (calls : list Validator.Call)
    (browser : Browser.t) (environment : Environment.t) :
  throws (finish (run calls) browser environment) = true
  <-> (exists n, _error (run (take n calls)) = true)
      \/ ~ (exists n module dep,
              usedEdge (run (take n calls))
                (Browser.name browser) (Environment.name environment) module dep = true)
      \/ existsb shadowsHasOwnProperty (auditedCollections browser) = true.
Proof.
  rewrite finish_throws. split.
  - intros [Herror|[Hnone|Hshadow]].
    + left. exists (length calls). now rewrite firstn_all.
    + right. left. intros (n & module & dep & Hedge).
      destruct (later_run_prefix calls n) as (_ & Hedges & _).
      apply Hedges in Hedge. now apply usedEdge_slot in Hedge.
    + auto.
  - intros [(n & Herror)|[Hnever|Hshadow]].
    + left. destruct (later_run_prefix calls n) as (Hsticky & _ & _). auto.
    + destruct (used (run calls) (Browser.name browser)
                  (Environment.name environment)) as [per_module|] eqn:Hused; [|auto].
      exfalso. apply Hnever.
      destruct (slotsInhabited_run calls _ _ _ Hused) as (module & dep & Hedge).
      exists (length calls), module, dep. now rewrite firstn_all.
    + auto.
Qed.

End ValidatorFacts.

(** X29.  For every validation run, and a browser and an environment
    whose names are ordinary keys, [finish(browser, environment)] throws
    exactly in three cases: the error flag was set at some point of the run;
    no dependency edge was ever recorded under (browser.name,
    environment.name); or one of the audited collections (the dependencies
    of the top-level package and of the modules that are neither packages
    nor tools) declares a dependency named [hasOwnProperty].  A flag set
    early makes [finish] fail whatever is validated afterwards, and no
    unused-dependency warning makes it throw. *)
Theorem finish_throws_iff (calls : list Validator.Call)
    (browser : Browser.t) (environment : Environment.t) :
  JS.ordinary (Browser.name browser) = true ->
  JS.ordinary (Environment.name environment) = true ->
  throws (Validator.finish (Validator.run calls) browser environment) = true
  <-> (exists n, Validator._error (Validator.run (take n calls)) = true)
      \/ ~ (exists n module dep,
              Validator.usedEdge (Validator.run (take n calls))
                (Browser.name browser) (Environment.name environment) module dep = true)
      \/ existsb Validator.shadowsHasOwnProperty (Validator.auditedCollections browser)
         = true.
Proof. intros _ _. exact (finish_throws_run calls browser environment). Qed.

Lemma finish_throws_iff_witness :
  JS.ordinary (Browser.name Examples.shadowed) = true
  /\ JS.ordinary (Environment.name Examples.production) = true
  /\ throws (Validator.finish (Validator.run []) Examples.shadowed Examples.production)
     = true.
Proof.
  split; [reflexivity|]. split; [reflexivity|].
  apply (finish_throws_iff [] Examples.shadowed Examples.production);
    [reflexivity..|].
  right. right. reflexivity.
Defined.

(** C1, at an input where the code departs from it.  The top-level
    package declares a dependency named [hasOwnProperty].  A run validates
    one well-declared edge: the flag stays clear and the edge is recorded,
    so neither condition of C1 holds.  [finish] throws all the same: the
    audit calls [current.hasOwnProperty(name)], which is the version string
    of that dependency.  With the declaration removed [finish] returns. *)
Theorem finish_throws_on_shadowed_method :
  let ranged :=
    Validator.CallValidateReason Examples.emptyDisk
      (Some Examples.shadowed) (Some Examples.production)
      (Some "/work/Core/src/index.js") (Some "moment") in
  (forall n, Validator._error (Validator.run (take n [ranged])) = false)
  /\ Validator.usedEdge (Validator.run [ranged]) "firefox" "production"
       "@radon-extension/core" "moment" = true
  /\ Validator.finish (Validator.run [ranged]) Examples.shadowed Examples.production
     = Throw Validator.NotAFunction
  /\ throws (Validator.finish (Validator.run [ranged]) Examples.firefox
               Examples.production) = false.
Proof.
  cbv zeta. split; [|vm_compute; repeat split; reflexivity].
  intros [|[|n]]; vm_compute; reflexivity.
Qed.

(** A run in which a pinned lodash is validated first and a well-declared
    moment afterwards: the second validation succeeds and is recorded, and
    [finish] still fails.  Without the first call [finish] passes. *)
Example sticky_flag_example :
  let pinned :=
    Validator.CallValidateReason Examples.emptyDisk
      (Some Examples.firefox) (Some Examples.production)
      (Some "/work/Core/src/index.js") (Some "lodash/merge") in
  let ranged :=
    Validator.CallValidateReason Examples.emptyDisk
      (Some Examples.firefox) (Some Examples.production)
      (Some "/work/Core/src/index.js") (Some "moment") in
  Validator.usedEdge (Validator.run [pinned; ranged]) "firefox" "production"
    "@radon-extension/core" "moment" = true
  /\ Validator.finish (Validator.run [pinned; ranged]) Examples.firefox Examples.production
     = Throw Validator.DidNotPassValidation
  /\ throws (Validator.finish (Validator.run [ranged]) Examples.firefox
               Examples.production) = false
  /\ Validator.finish (Validator.run []) Examples.firefox Examples.production
     = Throw Validator.NoDependenciesValidated.
Proof. vm_compute. repeat split; reflexivity. Qed.
(** ** The validator: pinned versions *)

Section PinnedFacts.

Import Validator.

Lemma validateModule_pinned (v : Validator.t) (dep : Dep.t) (module : Mod.t)
    (version : string) :
  declared (Pkg.peerDependencies (Mod.package module)) (Dep.name dep) = JS.Own version ->
  isPinned version = true ->
  validOf (fst (validateModule v dep module)) = false.
Proof.
  intros Hdeclared Hpinned. unfold validateModule. rewrite Hdeclared.
  cbn [JS.IsNilProperty matchesPin].
  destruct (negb (JS.IsNilProperty _)); [reflexivity|]. now rewrite Hpinned.
Qed.

Lemma validateRequirement_pinned (v : Validator.t) (dep : Dep.t) (module : Mod.t)
    (version : string) :
  declared (Pkg.dependencies (Mod.package module)) (Dep.name dep) = JS.Own version ->
  isPinned version = true ->
  validOf (fst (validateRequirement v dep module)) = false.
Proof.
  intros Hdeclared Hpinned. unfold validateRequirement. rewrite Hdeclared.
  cbn [JS.IsNilProperty matchesPin].
  destruct (negb (JS.IsNilProperty _)); [reflexivity|].
  destruct (negb (JS.IsNilProperty _)); [reflexivity|]. now rewrite Hpinned.
Qed.

Lemma validateDependency_pinned (v : Validator.t) (dep : Dep.t) (module : Mod.t)
    (version : string) :
  declaredVersion dep module = JS.Own version ->
  isPinned version = true ->
  validOf (fst (validateDependency v dep module)) = false.
Proof.
  unfold declaredVersion, validateDependency.
  destruct (_ =? _)%Z; [apply validateModule_pinned|apply validateRequirement_pinned].
Qed.

End PinnedFacts.

(** C2, as the code has it.  Take an edge that reaches the declaration
    check (the request parses to a dependency that is neither on the ignore
    list nor the requesting module itself) and whose declared version, in
    [peerDependencies] for an internal module and in [dependencies]
    otherwise, matches the exact-pin pattern.  Then the check of the edge is
    not valid, [validateReason] returns [false], and the error flag is set
    afterwards, whatever the other policy checks say. *)
Theorem pinned_dependency_fails (node : Node.t) (v : Validator.t)
    (browser : Browser.t) (environment : Environment.t)
    (source request : string) (dep : Dep.t) (warned : list LogEntry)
    (module : Mod.t) (version : string) :
  Validator.parseDependency node request = Return (Some dep, warned) ->
  JS.includes Validator.IgnoredPackages (Dep.name dep) = false ->
  List.find (fun module => JS.startsWith source (Mod.path module))
            (Browser.modules browser) = Some module ->
  Dep.name dep <> Mod.name module ->
  Validator.declaredVersion dep module = JS.Own version ->
  Regex.lang Validator.DependencyVersionRegex version ->
  (forall w, Validator.validOf (fst (Validator.validateDependency w dep module)) = false)
  /\ fst (Validator.validateReason node v (Some browser) (Some environment)
            (Some source) (Some request)) = false
  /\ Validator._error
       (snd (Validator.validateReason node v (Some browser) (Some environment)
               (Some source) (Some request))) = true.
Proof.
  intros Hparse Hignored Hfind Hself Hdeclared Hlang.
  assert (Hpinned : Validator.isPinned version = true) by now apply matches_lang.
  pose proof (fun w => validateDependency_pinned w dep module version Hdeclared Hpinned)
    as Hinvalid.
  split; [exact Hinvalid|].
  unfold Validator.validateReason. rewrite Hparse, Hignored, Hfind.
  cbn [JS.IsNil negb andb].
  destruct (String.eqb_spec (Dep.name dep) (Mod.name module)) as [|_];
    [contradiction|].
  destruct (_ && _); [split; reflexivity|].
  destruct (negb (String.eqb _ _)); [|split; reflexivity].
  specialize (Hinvalid (Validator.logAll v warned)).
  destruct (Validator.validateDependency (Validator.logAll v warned) dep module)
    as [result v1].
  cbn [fst] in Hinvalid. rewrite Hinvalid. split; reflexivity.
Qed.

Lemma pinned_dependency_fails_witness :
  Validator.parseDependency Examples.emptyDisk "lodash/merge"
  = Return (Some {| Dep.name := "lodash"; Dep.path := None |}, [])
  /\ JS.includes Validator.IgnoredPackages "lodash" = false
  /\ List.find (fun module => JS.startsWith "/work/Core/src/index.js" (Mod.path module))
               (Browser.modules Examples.firefox) = Some Examples.core
  /\ "lodash" <> Mod.name Examples.core
  /\ Validator.declaredVersion {| Dep.name := "lodash"; Dep.path := None |} Examples.core
     = JS.Own "4.17.5"
  /\ Regex.lang Validator.DependencyVersionRegex "4.17.5"
  /\ (forall w,
        Validator.validOf
          (fst (Validator.validateDependency w
                  {| Dep.name := "lodash"; Dep.path := None |} Examples.core)) = false)
  /\ fst (Validator.validateReason Examples.emptyDisk Validator.create
            (Some Examples.firefox) (Some Examples.production)
            (Some "/work/Core/src/index.js") (Some "lodash/merge")) = false
  /\ Validator._error
       (snd (Validator.validateReason Examples.emptyDisk Validator.create
               (Some Examples.firefox) (Some Examples.production)
               (Some "/work/Core/src/index.js") (Some "lodash/merge"))) = true.
Proof.
  assert (Hlang : Regex.lang Validator.DependencyVersionRegex "4.17.5")
    by (apply matches_lang; reflexivity).
  repeat (split; [first [reflexivity | discriminate | exact Hlang]|]).
  apply (pinned_dependency_fails Examples.emptyDisk Validator.create Examples.firefox
           Examples.production "/work/Core/src/index.js" "lodash/merge"
           {| Dep.name := "lodash"; Dep.path := None |} [] Examples.core "4.17.5");
    first [reflexivity | discriminate | exact Hlang].
Defined.

(** C2, as the spec words it, fails on two edges with a pinned
    declaration.  A request for [react], which the module pins in its
    [dependencies], is on the ignore list: [validateReason] returns [false]
    and leaves the instance as it was, the flag clear.  A request of the
    module for a file of its own, while the module pins itself in its
    [peerDependencies], is an internal dependency: [validateReason] returns
    [true], the flag clear. *)
Lemma pinned_edges_pass_guards :
  (Validator.declaredVersion {| Dep.name := "react"; Dep.path := None |} Examples.pinning
   = JS.Own "16.2.0"
   /\ Regex.lang Validator.DependencyVersionRegex "16.2.0"
   /\ Validator.validateReason Examples.emptyDisk Validator.create
        (Some Examples.opera) (Some Examples.production)
        (Some "/work/Core/src/index.js") (Some "react")
      = (false, Validator.create))
  /\ (Validator.parseDependency Examples.coreDisk "/work/Core/src/util.js"
      = Return (Some {| Dep.name := "@radon-extension/core";
                        Dep.path := Some "/work/Core" |}, [])
      /\ Validator.declaredVersion
           {| Dep.name := "@radon-extension/core"; Dep.path := Some "/work/Core" |}
           Examples.pinning
         = JS.Own "1.0.0"
      /\ Regex.lang Validator.DependencyVersionRegex "1.0.0"
      /\ Validator.validateReason Examples.coreDisk Validator.create
           (Some Examples.opera) (Some Examples.production)
           (Some "/work/Core/src/index.js") (Some "/work/Core/src/util.js")
         = (true, Validator.create))
  /\ Validator._error Validator.create = false.
Proof.
  repeat split; try (apply matches_lang); vm_compute; reflexivity.
Qed.

(** ** The validator: the unused-dependency audit *)

Section AuditFacts.

Import Validator.

Lemma checkDependencies_returns (prefix : string) (current : Dict string)
    (matched : option (gmap string bool)) (moduleName : option string) :
  shadowsHasOwnProperty current = false ->
  _checkDependencies (Some prefix) (Some current) matched moduleName
  = Return (unusedIn prefix current (default ∅ matched) moduleName).
Proof. intros Hplain. unfold _checkDependencies. now rewrite Hplain. Qed.

Lemma In_unusedIn (prefix : string) (current : Dict string)
    (matched : gmap string bool) (moduleName : option string)
    (entry : LogEntry) :
  In entry (unusedIn prefix current matched moduleName)
  <-> exists name,
        In name (dict_keys current)
        /\ JS.startsWith name ModuleScope = false
        /\ isMatched matched name = false
        /\ entry = (Warn, NotRequired prefix name moduleName).
Proof.
  unfold unusedIn. rewrite in_flat_map. split.
  - intros (name & Hin & Hentry). exists name.
    destruct (JS.startsWith name ModuleScope); [destruct Hentry|].
    destruct (isMatched _ _); [destruct Hentry|].
    destruct Hentry as [<-|[]]. auto.
  - intros (name & Hin & Hscope & Hunused & ->). exists name.
    rewrite Hscope, Hunused. split; [exact Hin|now left].
Qed.

Lemma audited_spec (module : Mod.t) :
  audited module = true <-> Mod.type module <> "package" /\ Mod.type module <> "tool".
Proof.
  unfold audited, JS.includes; cbn [existsb].
  destruct (String.eqb_spec (Mod.type module) "package") as [->|Hp];
    [cbn; split; [discriminate|tauto]|].
  destruct (String.eqb_spec (Mod.type module) "tool") as [->|Ht];
    [cbn; split; [discriminate|tauto]|].
  cbn. tauto.
Qed.

(** The audit of the modules, when no collection hides the method. *)
Lemma auditModules_returns (v : Validator.t) (matched : gmap string (gmap string bool))
    (modules : list Mod.t) :
  existsb (fun module => shadowsHasOwnProperty (Pkg.dependencies (Mod.package module)))
          modules = false ->
  auditModules v matched modules
  = Return
      (logAll v
         (flat_map
            (fun module =>
               unusedIn "Dependency" (Pkg.dependencies (Mod.package module))
                 (default ∅ (matched !! Mod.name module)) (Some (Mod.name module)))
            modules)).
Proof.
  revert v. induction modules as [|module modules IH]; intros v Hplain;
    cbn [auditModules flat_map existsb] in *.
  - now rewrite logAll_nil.
  - apply orb_false_iff in Hplain as [Hmodule Hrest].
    rewrite checkDependencies_returns by exact Hmodule.
    rewrite IH by exact Hrest. now rewrite logAll_app.
Qed.

(** What a name is matched by: an entry of the index, or a member that
    every object inherits. *)
Lemma isMatched_spec (matched : gmap string bool) (name : string) :
  isMatched matched name = true
  <-> matched !! name = Some true
      \/ (matched !! name = None /\ JS.inherited name = true).
Proof.
  unfold isMatched, JS.property.
  destruct (matched !! name) as [[|]|].
  - split; auto.
  - split; [discriminate|]. intros [|[]]; discriminate.
  - destruct (JS.inherited name); split; auto; intros [|[]]; discriminate.
Qed.

(** What [finish] writes when it returns. *)
Lemma finish_audit (v : Validator.t) (browser : Browser.t)
    (environment : Environment.t) (per_module : gmap string (gmap string bool)) :
  _error v = false ->
  used v (Browser.name browser) (Environment.name environment) = Some per_module ->
  existsb shadowsHasOwnProperty (auditedCollections browser) = false ->
  finish v browser environment
  = Return
      (logAll v
         ((Info, CheckedModules (size (checked v)))
          :: unusedIn "Dependency"
               (Pkg.dependencies (Extension.package (Browser.extension browser)))
               (default ∅ (per_module !! "null")) None
          ++ flat_map
               (fun module =>
                  unusedIn "Dependency" (Pkg.dependencies (Mod.package module))
                    (default ∅ (per_module !! Mod.name module)) (Some (Mod.name module)))
               (List.filter audited (Browser.modules browser)))).
Proof.
  intros Hclear Hused Hplain. unfold finish. rewrite Hclear, Hused.
  unfold auditedCollections in Hplain. cbn [existsb] in Hplain.
  apply orb_false_iff in Hplain as [Htop Hmodules].
  rewrite existsb_over_map in Hmodules.
  rewrite checkDependencies_returns by exact Htop.
  rewrite auditModules_returns by exact Hmodules.
  f_equal. rewrite log_logAll, !logAll_app. reflexivity.
Qed.

End AuditFacts.

(** X30.  Take a browser, an environment and modules whose names are not
    names of members every object inherits.  When the flag is clear, the
    index has a slot for the pair and no audited collection declares a
    dependency named [hasOwnProperty], [finish] does not throw, and after the line counting the checked modules
    it writes warnings only: for the top-level package exactly the declared
    dependencies outside the internal scope that [matched[name]] does not
    find under the key [null], and for every module that is neither a
    package nor a tool exactly its declared dependencies outside the
    internal scope that [matched[name]] does not find for the module.
    [matched[name]] finds a recorded name, and also a name that is not
    recorded but is the name of a member every object inherits.  Names in
    the internal scope are never reported. *)
Theorem finish_reports_unused (v : Validator.t) (browser : Browser.t)
    (environment : Environment.t) (per_module : gmap string (gmap string bool)) :
  JS.inherited (Browser.name browser) = false ->
  JS.inherited (Environment.name environment) = false ->
  Forall (fun module => JS.inherited (Mod.name module) = false)
         (Browser.modules browser) ->
  Validator._error v = false ->
  Validator.used v (Browser.name browser) (Environment.name environment)
  = Some per_module ->
  existsb Validator.shadowsHasOwnProperty (Validator.auditedCollections browser) = false ->
  exists v' audit,
    Validator.finish v browser environment = Return v'
    /\ Validator.logger v'
       = Validator.logger v
         ++ (Info, CheckedModules (size (Validator.checked v))) :: audit
    /\ (forall entry, In entry audit -> fst entry = Warn)
    /\ (forall name,
          In (Warn, NotRequired "Dependency" name None) audit
          <-> In name (dict_keys (Pkg.dependencies
                                    (Extension.package (Browser.extension browser))))
              /\ JS.startsWith name Validator.ModuleScope = false
              /\ Validator.isMatched (default ∅ (per_module !! "null")) name = false)
    /\ (forall name moduleName,
          In (Warn, NotRequired "Dependency" name (Some moduleName)) audit
          <-> exists module,
                In module (Browser.modules browser)
                /\ Mod.name module = moduleName
                /\ Mod.type module <> "package"
                /\ Mod.type module <> "tool"
                /\ In name (dict_keys (Pkg.dependencies (Mod.package module)))
                /\ JS.startsWith name Validator.ModuleScope = false
                /\ Validator.isMatched (default ∅ (per_module !! moduleName)) name
                   = false)
    /\ (forall matched name,
          Validator.isMatched matched name = true
          <-> matched !! name = Some true
              \/ (matched !! name = None /\ JS.inherited name = true))
    /\ (forall prefix name moduleName,
          JS.startsWith name Validator.ModuleScope = true ->
          ~ In (Warn, NotRequired prefix name moduleName) audit).
Proof.
  intros _ _ _ Hclear Hused Hplain.
  eexists _, _. split; [exact (finish_audit v browser environment per_module
                                 Hclear Hused Hplain)|].
  cbn [Validator.logAll Validator.logger]. split; [reflexivity|].
  refine (conj _ (conj _ (conj _ (conj _ _)))).
  - intros entry [Htop|Hmodule]%in_app_iff.
    + apply In_unusedIn in Htop as (? & _ & _ & _ & ->). reflexivity.
    + apply in_flat_map in Hmodule as (module & _ & Hentry).
      apply In_unusedIn in Hentry as (? & _ & _ & _ & ->). reflexivity.
  - intros name. split.
    + intros [Htop|Hmodule]%in_app_iff.
      * apply In_unusedIn in Htop as (name' & Hin & Hscope & Hunused & [= <-]).
        auto.
      * apply in_flat_map in Hmodule as (module & _ & Hentry).
        apply In_unusedIn in Hentry as (? & _ & _ & _ & [=]).
    + intros (Hin & Hscope & Hunused). apply in_app_iff. left.
      apply In_unusedIn. exists name. auto.
  - intros name moduleName. split.
    + intros [Htop|Hmodule]%in_app_iff.
      * apply In_unusedIn in Htop as (? & _ & _ & _ & [=]).
      * apply in_flat_map in Hmodule as (module & Hmodule & Hentry).
        apply filter_In in Hmodule as [Hmodule [Hp Ht]%audited_spec].
        apply In_unusedIn in Hentry as (name' & Hin & Hscope & Hunused & [= -> ->]).
        exists module. auto 8.
    + intros (module & Hmodule & <- & Hp & Ht & Hin & Hscope & Hunused).
      apply in_app_iff. right. apply in_flat_map. exists module. split.
      * apply filter_In. split; [exact Hmodule|]. now apply audited_spec.
      * apply In_unusedIn. exists name. auto.
  - intros matched name. apply isMatched_spec.
  - intros prefix name moduleName Hscope [Htop|Hmodule]%in_app_iff.
    + apply In_unusedIn in Htop as (? & _ & Hout & _ & [= _ <- _]).
      congruence.
    + apply in_flat_map in Hmodule as (module & _ & Hentry).
      apply In_unusedIn in Hentry as (? & _ & Hout & _ & [= _ <- _]).
      congruence.
Qed.

Lemma finish_reports_unused_witness :
  JS.inherited (Browser.name Examples.builtinNames) = false
  /\ JS.inherited (Environment.name Examples.production) = false
  /\ Forall (fun module => JS.inherited (Mod.name module) = false)
            (Browser.modules Examples.builtinNames)
  /\ Validator._error Examples.oneEdge = false
  /\ Validator.used Examples.oneEdge (Browser.name Examples.builtinNames)
       (Environment.name Examples.production)
     = Some (<["@radon-extension/core" := <["lodash" := true]> (∅ : gmap string bool)]>
          (∅ : gmap string (gmap string bool)))
  /\ existsb Validator.shadowsHasOwnProperty
       (Validator.auditedCollections Examples.builtinNames) = false
  /\ exists v' audit,
       Validator.finish Examples.oneEdge Examples.builtinNames Examples.production
       = Return v'
       /\ Validator.logger v'
          = Validator.logger Examples.oneEdge
            ++ (Info, CheckedModules (size (Validator.checked Examples.oneEdge))) :: audit
       /\ (forall entry, In entry audit -> fst entry = Warn).
Proof.
  assert (Hused : Validator.used Examples.oneEdge (Browser.name Examples.builtinNames)
                    (Environment.name Examples.production)
                  = Some (<["@radon-extension/core" := <["lodash" := true]>
                                                         (∅ : gmap string bool)]>
                            (∅ : gmap string (gmap string bool))))
    by (vm_compute; reflexivity).
  assert (Hmodules : Forall (fun module => JS.inherited (Mod.name module) = false)
                             (Browser.modules Examples.builtinNames))
    by (repeat constructor).
  split; [reflexivity|]. split; [reflexivity|]. split; [exact Hmodules|].
  split; [reflexivity|]. split; [exact Hused|]. split; [reflexivity|].
  destruct (finish_reports_unused Examples.oneEdge Examples.builtinNames
              Examples.production _ eq_refl eq_refl Hmodules eq_refl Hused eq_refl)
    as (v' & audit & Hfinish & Hlog & Hwarn & _).
  exists v', audit. auto.
Defined.

(** C8, at an input where the code departs from it.  The top-level
    package declares [jquery], [constructor] and [toString]; the index
    holds one edge of another module, so none of the three was recorded.
    [finish] returns and warns of [jquery] only: the audit tests
    [matched[name]], which for [constructor] and [toString] finds the
    members every object inherits. *)
Theorem finish_skips_inherited_names :
  (forall name,
     In name ["jquery"; "constructor"; "toString"] ->
     In name (dict_keys (Pkg.dependencies
                           (Extension.package (Browser.extension Examples.builtinNames))))
     /\ JS.startsWith name Validator.ModuleScope = false
     /\ Validator.usedEdge Examples.oneEdge "firefox" "production" "null" name = false)
  /\ exists v',
       Validator.finish Examples.oneEdge Examples.builtinNames Examples.production
       = Return v'
       /\ Validator.logger v'
          = [ (Info, CheckedModules 0);
              (Warn, NotRequired "Dependency" "jquery" None);
              (Warn, NotRequired "Dependency" "moment" (Some "@radon-extension/core")) ]
       /\ ~ In (Warn, NotRequired "Dependency" "constructor" None) (Validator.logger v')
       /\ ~ In (Warn, NotRequired "Dependency" "toString" None) (Validator.logger v').
Proof.
  split.
  - intros name [<-|[<-|[<-|[]]]]; vm_compute; auto.
  - eexists. split; [vm_compute; reflexivity|].
    split; [reflexivity|].
    split; intros [H|[H|[H|[]]]]; discriminate H.
Qed.

(** The audit on a concrete instance: lodash was used, jquery (top level)
    and moment were not, and the framework is exempt. *)
Example finish_audit_example :
  match Validator.finish Examples.oneEdge Examples.firefox Examples.production with
  | Return v' =>
      Validator.logger v'
      = [ (Info, CheckedModules 0);
          (Warn, NotRequired "Dependency" "jquery" None);
          (Warn, NotRequired "Dependency" "moment" (Some "@radon-extension/core")) ]
  | Throw _ => False
  end.
Proof. vm_compute. reflexivity. Qed.

(** ** Resolving modules *)

Section ResolverFacts.

Import ModuleResolver.

(** A sequential run is rejected as soon as one callback is. *)
Lemma runSequential_rejected {A B E : Type} (items : list A)
    (f : A -> list LogEntry * Settled E B) (item : A) :
  In item items ->
  isRejected (snd (f item)) = true ->
  isRejected (snd (runSequential items f)) = true.
Proof.
  intros Hin Hrejected. induction items as [|first rest IH]; [destruct Hin|].
  cbn [runSequential].
  destruct (f first) as [logged [b|e]] eqn:Hfirst; [|reflexivity].
  destruct Hin as [->|Hin].
  - rewrite Hfirst in Hrejected. discriminate.
  - specialize (IH Hin).
    destruct (runSequential rest f) as [logged' [bs|e]]; [discriminate|reflexivity].
Qed.

Lemma checkRepository_rejects (name : string) (module : Resolving.t)
    (repository : Repository.t) :
  Repository.commit repository = None ->
  Repository.dirty repository = false ->
  checkRepository name module repository
  = ([(Debug, RepositoryStatus name);
      (Error, InvalidRepositoryStatus (Resolving.name module))],
     Rejected NoReason).
Proof.
  intros Hcommit Hdirty. unfold checkRepository.
  rewrite Hcommit, Hdirty. reflexivity.
Qed.

(** A type of the table is found as it is. *)
Lemma lookupType_known (type : string) (moduleType : TypeEntry.t) :
  dict_get ModuleType type = Some moduleType -> lookupType type = Some moduleType.
Proof. intros H. unfold lookupType, JS.property. now rewrite H. Qed.

End ResolverFacts.

(** C4, as the code has it.  When the resolved repository status has
    neither a commit hash nor a dirty flag, [resolve] logs an error and its
    promise is rejected (without a reason); a module-graph build whose work
    list contains that module is rejected as well. *)
Theorem resolve_rejects_without_commit (w : ModuleResolver.World.t)
    (extension : ModuleResolver.ExtensionContext.t) (path type name : string)
    (moduleType : ModuleResolver.TypeEntry.t) (modulePath : string)
    (pkg : ModuleResolver.Details.t) (repository : ModuleResolver.Repository.t) :
  dict_get ModuleResolver.ModuleType type = Some moduleType ->
  (1 <= String.length (JS.substringFrom name (JS.lastIndexOf name "-" + 1)))%nat ->
  ModuleResolver.getModulePath w path name moduleType = Return modulePath ->
  ModuleResolver.World.readPackageDetails w modulePath = Resolved pkg ->
  snd (ModuleResolver.repositoryStatus w extension
         (ModuleResolver.withDetails
            (JS.substringFrom name (JS.lastIndexOf name "-" + 1))
            (ModuleResolver.TypeEntry.name moduleType) modulePath pkg))
  = repository ->
  ModuleResolver.Repository.commit repository = None ->
  ModuleResolver.Repository.dirty repository = false ->
  exists logged,
    ModuleResolver.resolve w extension path type name
    = Return (logged, Rejected ModuleResolver.NoReason)
    /\ In (Error, InvalidRepositoryStatus (ModuleResolver.Details.name pkg)) logged
    /\ (In (type, name) (ModuleResolver.workList extension) ->
        isRejected (snd (ModuleResolver.resolveMany w path extension)) = true).
Proof.
  intros Htype Hkey Hpath Hpkg Hstatus Hcommit Hdirty.
  assert (Hresolve :
    exists logged,
      ModuleResolver.resolve w extension path type name
      = Return (logged, Rejected ModuleResolver.NoReason)
      /\ In (Error, InvalidRepositoryStatus (ModuleResolver.Details.name pkg)) logged).
  { unfold ModuleResolver.resolve.
    rewrite (lookupType_known _ _ Htype).
    destruct (Nat.ltb_spec
                (String.length (JS.substringFrom name (JS.lastIndexOf name "-" + 1))) 1)
      as [Hshort|_]; [lia|].
    rewrite Hpath, Hpkg.
    destruct (ModuleResolver.repositoryStatus w extension _) as [logged status].
    cbn [snd] in Hstatus. subst status.
    rewrite (checkRepository_rejects _ _ _ Hcommit Hdirty).
    eexists. split; [reflexivity|].
    apply in_or_app. right. right. left. reflexivity. }
  destruct Hresolve as (logged & Hresolve & Hlogged).
  exists logged. split; [exact Hresolve|]. split; [exact Hlogged|].
  intros Hlisted. unfold ModuleResolver.resolveMany.
  pose proof (runSequential_rejected (ModuleResolver.workList extension)
    (fun '(type, name) =>
       match ModuleResolver.resolve w extension path type name with
       | Throw e => ([], Rejected e)
       | Return settled => settled
       end) (type, name) Hlisted) as Hrun.
  cbn beta iota in Hrun. rewrite Hresolve in Hrun. specialize (Hrun eq_refl).
  destruct (runSequential _ _) as [logged' [modules|e]]; [discriminate|reflexivity].
Qed.

Lemma resolve_rejects_without_commit_witness :
  dict_get ModuleResolver.ModuleType "tool"
  = Some {| ModuleResolver.TypeEntry.name := Some "tool";
            ModuleResolver.TypeEntry.directory := Some "Tools/" |}
  /\ (1 <= String.length
             (JS.substringFrom "neon-extension-build"
                (JS.lastIndexOf "neon-extension-build" "-" + 1)))%nat
  /\ exists logged,
       ModuleResolver.resolve Examples.noRepository Examples.extensionContext
         "/work" "tool" "neon-extension-build"
       = Return (logged, Rejected ModuleResolver.NoReason)
       /\ In (Error, InvalidRepositoryStatus "neon-extension-build") logged
       /\ (In ("tool", "neon-extension-build")
              (ModuleResolver.workList Examples.extensionContext) ->
           isRejected
             (snd (ModuleResolver.resolveMany Examples.noRepository "/work"
                     Examples.extensionContext)) = true).
Proof.
  split; [reflexivity|]. split; [vm_compute; lia|].
  apply (resolve_rejects_without_commit Examples.noRepository
           Examples.extensionContext "/work" "tool" "neon-extension-build"
           {| ModuleResolver.TypeEntry.name := Some "tool";
              ModuleResolver.TypeEntry.directory := Some "Tools/" |}
           "/work/node_modules/neon-extension-build"
           {| ModuleResolver.Details.name := "neon-extension-build";
              ModuleResolver.Details.key := None;
              ModuleResolver.Details.type := None;
              ModuleResolver.Details.path := None;
              ModuleResolver.Details.manifest := Examples.noDependencies |}
           ModuleResolver.unknownStatus).
  - reflexivity.
  - vm_compute. lia.
  - reflexivity.
  - reflexivity.
  - vm_compute. reflexivity.
  - reflexivity.
  - reflexivity.
Defined.

(** C4, as the spec words it, fails: with no commit and a clean tree the
    resolution does not continue.  [resolve] is rejected after logging the
    error, the graph build is rejected too, and the destination that comes
    next in the work list is never looked at (nothing is logged for it). *)
Lemma resolve_does_not_continue :
  ModuleResolver.resolve Examples.noRepository Examples.extensionContext
    "/work" "tool" "neon-extension-build"
  = Return ([(Debug, RepositoryStatus "neon-extension-build");
             (Error, InvalidRepositoryStatus "neon-extension-build")],
            Rejected ModuleResolver.NoReason)
  /\ ModuleResolver.workList Examples.extensionContext
     = [("tool", "neon-extension-build");
        ("destinations", "neon-extension-destination-lastfm")]
  /\ ModuleResolver.resolveMany Examples.noRepository "/work" Examples.extensionContext
     = ([(Debug, RepositoryStatus "neon-extension-build");
         (Error, InvalidRepositoryStatus "neon-extension-build")],
        Rejected ModuleResolver.NoReason)
  /\ ~ (exists logged module,
          ModuleResolver.resolve Examples.noRepository Examples.extensionContext
            "/work" "tool" "neon-extension-build"
          = Return (logged, Resolved module)).
Proof.
  assert (H : ModuleResolver.resolve Examples.noRepository Examples.extensionContext
                "/work" "tool" "neon-extension-build"
              = Return ([(Debug, RepositoryStatus "neon-extension-build");
                         (Error, InvalidRepositoryStatus "neon-extension-build")],
                        Rejected ModuleResolver.NoReason))
    by (vm_compute; reflexivity).
  split; [exact H|]. split; [reflexivity|]. split; [vm_compute; reflexivity|].
  intros (logged & module & Hcontinues). rewrite H in Hcontinues. discriminate.
Qed.

(** ** Target branches of a release tag *)

(** C5.  For a tag that semver accepts, [getTargetBranches] returns
    [develop] exactly when the patch component is zero, then always the
    series branch [v<major>.<minor>], then [master] exactly when the tag
    has no pre-release component; and the three tags of the spec give the
    three lists of the spec. *)
Theorem getTargetBranches_spec (tag : string) (version : Semver.t) :
  Semver.parse tag = Some version ->
  let series :=
    "v" +:+ JS.numberToString (Semver.major version) +:+ "."
        +:+ JS.numberToString (Semver.minor version) in
  (exists branches,
     Push.getTargetBranches tag = Return branches
     /\ branches
        = (if (Semver.patch version =? 0)%N then ["develop"] else [])
          ++ [series]
          ++ (match Semver.prerelease version with [] => ["master"] | _ => [] end)
     /\ (In "develop" branches <-> Semver.patch version = 0%N)
     /\ In series branches
     /\ (In "master" branches <-> Semver.prerelease version = []))
  /\ Push.getTargetBranches "v1.2.0" = Return ["develop"; "v1.2"; "master"]
  /\ Push.getTargetBranches "v1.2.3" = Return ["v1.2"; "master"]
  /\ Push.getTargetBranches "v1.2.3-beta.1" = Return ["v1.2"].
Proof.
  intros Hparse series. split; [|repeat split; reflexivity].
  eexists. split.
  { unfold Push.getTargetBranches, Semver.prereleaseOf. rewrite Hparse.
    fold series.
    instantiate (1 :=
      (if (Semver.patch version =? 0)%N then ["develop"] else [])
      ++ [series]
      ++ (match Semver.prerelease version with [] => ["master"] | _ => [] end)).
    destruct (Semver.patch version =? 0)%N, (Semver.prerelease version);
      reflexivity. }
  split; [reflexivity|].
  assert (Hseries : forall rest, "develop" <> "v" +:+ rest /\ "master" <> "v" +:+ rest)
    by (intros rest; split; discriminate).
  destruct (Hseries (JS.numberToString (Semver.major version) +:+ "."
                       +:+ JS.numberToString (Semver.minor version)))
    as [Hdevelop Hmaster].
  fold series in Hdevelop, Hmaster.
  destruct (N.eqb_spec (Semver.patch version) 0) as [Hpatch|Hpatch];
    destruct (Semver.prerelease version) as [|component components];
    cbn [app In]; repeat split; intros; auto;
    repeat match goal with
           | H : _ \/ _ |- _ => destruct H
           | H : False |- _ => destruct H
           end;
    try congruence; try discriminate.
Qed.

Lemma getTargetBranches_spec_witness :
  Semver.parse "v2.0.0-rc.1"
  = Some {| Semver.major := 2; Semver.minor := 0; Semver.patch := 0;
            Semver.prerelease := [Semver.Alphanumeric "rc"; Semver.Numeric 1];
            Semver.build := [] |}
  /\ Push.getTargetBranches "v2.0.0-rc.1" = Return ["develop"; "v2.0"]
  /\ Push.getTargetBranches "v1.2.0" = Return ["develop"; "v1.2"; "master"].
Proof.
  split; [reflexivity|].
  destruct (getTargetBranches_spec "v2.0.0-rc.1"
              {| Semver.major := 2; Semver.minor := 0; Semver.patch := 0;
                 Semver.prerelease := [Semver.Alphanumeric "rc"; Semver.Numeric 1];
                 Semver.build := [] |} eq_refl)
    as ((branches & Hreturn & Hbranches & _) & Hfirst & _).
  split; [|exact Hfirst].
  rewrite Hreturn, Hbranches. reflexivity.
Defined.

(** ** Cloning *)

Section CloneFacts.

Import Install.

(** When [resolveOne] resolves, one of its callbacks did. *)
Lemma resolveOne_resolved {W A B E T : Type} (items : list A)
    (f : W -> A -> W * list T * Settled E B) :
  forall (w : W) (none : E) (w1 : W) (trace : list T) (b : B),
    resolveOne items f w none = (w1, trace, Resolved b) ->
    exists w0 item trace0, In item items /\ f w0 item = (w1, trace0, Resolved b).
Proof.
  induction items as [|item rest IH]; intros w none w1 trace b; cbn [resolveOne].
  - discriminate.
  - destruct (f w item) as [[w' trace0] [b0|e]] eqn:Hitem.
    + intros [= <- <- <-]. exists w, item, trace0. split; [now left|exact Hitem].
    + destruct (resolveOne rest f w' e) as [[w'' trace'] settled] eqn:Hrest.
      intros [= <- <- ->].
      destruct (IH _ _ _ _ _ Hrest) as (w0 & item' & trace1 & Hin & Hf).
      exists w0, item', trace1. split; [now right|exact Hf].
Qed.

Lemma clone_existing {W : Type} (c : Collaborators W) (w : W)
    (target branch name : string) :
  JS.indexOf name "radon-extension-" = 0%Z ->
  existsSync c w (localPathOf c target name) = true ->
  clone c w target branch name
  = (w, [], Resolved {| branch := branch; localPath := localPathOf c target name |}).
Proof.
  intros Hname Hexists. unfold clone. rewrite Hname. cbn [Z.eqb negb].
  unfold localPathOf in Hexists. rewrite Hexists. reflexivity.
Qed.

(** After a call that resolved, the local path exists, provided a
    successful [Git.clone] creates the directory it clones into. *)
Lemma clone_resolved_exists {W : Type} (c : Collaborators W) (w w1 : W)
    (target branch name : string) (ops : list NetworkOp) (cloned : Cloned) :
  (forall w0 w' modulesPath url path b,
     Git_clone c w0 modulesPath url path b = Some w' -> existsSync c w' path = true) ->
  clone c w target branch name = (w1, ops, Resolved cloned) ->
  localPath cloned = localPathOf c target name
  /\ existsSync c w1 (localPathOf c target name) = true.
Proof.
  intros Hgit. unfold clone.
  destruct (negb _); [discriminate|].
  fold (localPathOf c target name).
  destruct (existsSync c w (localPathOf c target name)) eqn:Hexists.
  - intros [= <- _ <-]. auto.
  - intros Hone. apply resolveOne_resolved in Hone as (w0 & b & trace0 & _ & Hf).
    cbn beta in Hf. destruct (Github_exists c w0 name b); [|discriminate].
    destruct (Git_clone c w0 _ _ _ b) as [w'|] eqn:Hclone; [|discriminate].
    injection Hf as <- _ <-. split; [reflexivity|].
    exact (Hgit _ _ _ _ _ _ Hclone).
Qed.

End CloneFacts.

(** C6.  For a name that starts with [radon-extension-]: if the local
    module path exists, [clone] resolves [{branch, localPath}] and performs
    no network operation (no remote-existence check, no clone) and leaves
    the world as it is; hence, given that a successful [Git.clone] creates
    the directory it clones into, any call that follows a call that
    resolved performs no network operation either. *)
Theorem clone_is_idempotent {W : Type} (c : Install.Collaborators W) (w : W)
    (target branch name : string) :
  JS.indexOf name "radon-extension-" = 0%Z ->
  (Install.existsSync c w (Install.localPathOf c target name) = true ->
   Install.clone c w target branch name
   = (w, [],
      Resolved {| Install.branch := branch;
                  Install.localPath := Install.localPathOf c target name |}))
  /\ ((forall w0 w' modulesPath url path b,
         Install.Git_clone c w0 modulesPath url path b = Some w' ->
         Install.existsSync c w' path = true) ->
      forall w1 ops cloned,
        Install.clone c w target branch name = (w1, ops, Resolved cloned) ->
        forall again,
          Install.clone c w1 target again name
          = (w1, [],
             Resolved {| Install.branch := again;
                         Install.localPath := Install.localPath cloned |})).
Proof.
  intros Hname. split.
  - now apply clone_existing.
  - intros Hgit w1 ops cloned Hfirst again.
    destruct (clone_resolved_exists c w w1 target branch name ops cloned Hgit Hfirst)
      as [-> Hexists].
    now apply clone_existing.
Qed.

Lemma clone_is_idempotent_witness :
  JS.indexOf "radon-extension-core" "radon-extension-" = 0%Z
  /\ Install.clone Examples.laptop [] "/work" "my-feature" "radon-extension-core"
     = (["/work/.modules/radon-extension-core"],
        [Install.GithubExists "radon-extension-core" "my-feature";
         Install.GithubExists "radon-extension-core" "develop";
         Install.GitClone "https://github.com/RadonApp/radon-extension-core.git"
           "/work/.modules/radon-extension-core" "develop"],
        Resolved {| Install.branch := "develop";
                    Install.localPath := "/work/.modules/radon-extension-core" |})
  /\ Install.clone Examples.laptop ["/work/.modules/radon-extension-core"]
       "/work" "my-feature" "radon-extension-core"
     = (["/work/.modules/radon-extension-core"], [],
        Resolved {| Install.branch := "my-feature";
                    Install.localPath := "/work/.modules/radon-extension-core" |}).
Proof.
  split; [reflexivity|].
  assert (Hfirst :
    Install.clone Examples.laptop [] "/work" "my-feature" "radon-extension-core"
    = (["/work/.modules/radon-extension-core"],
       [Install.GithubExists "radon-extension-core" "my-feature";
        Install.GithubExists "radon-extension-core" "develop";
        Install.GitClone "https://github.com/RadonApp/radon-extension-core.git"
          "/work/.modules/radon-extension-core" "develop"],
       Resolved {| Install.branch := "develop";
                   Install.localPath := "/work/.modules/radon-extension-core" |}))
    by (vm_compute; reflexivity).
  split; [exact Hfirst|].
  destruct (clone_is_idempotent Examples.laptop [] "/work" "my-feature"
              "radon-extension-core" eq_refl) as [_ Hagain].
  apply (Hagain
           ltac:(intros w0 w' modulesPath url path b [= <-]; cbn;
                 now rewrite String.eqb_refl)
           _ _ _ Hfirst "my-feature").
Defined.
(** ** Updating dependency versions *)

Section OverlayFacts.

(** The lookup of [{...base, ...MapValues(PickBy(source, P), f)}]. *)
Lemma overlay_lookup {A B : Type} (P : string * A -> Prop) `{!forall x, Decision (P x)}
    (f : string -> A -> option B) (source : gmap string A) (base : gmap string B)
    (name : string) :
  (map_imap f (filter P source) ∪ base) !! name
  = match source !! name with
    | Some a =>
        if decide (P (name, a))
        then match f name a with Some b => Some b | None => base !! name end
        else base !! name
    | None => base !! name
    end.
Proof.
  rewrite lookup_union, map_lookup_imap, map_lookup_filter.
  destruct (source !! name) as [a|]; cbn.
  - destruct (decide (P (name, a))) as [Hp|Hp].
    + rewrite option_guard_True by exact Hp. cbn.
      destruct (f name a); cbn; [now destruct (base !! name)|].
      now rewrite (left_id_L None _).
    + rewrite option_guard_False by exact Hp. cbn. now rewrite (left_id_L None _).
  - now rewrite (left_id_L None _).
Qed.

End OverlayFacts.

Section UpdateFacts.

Import Package PackageSteps.

Context {Rest : Type}.

Implicit Types (pkg : Manifest Rest) (versions : gmap string Requested)
  (formatVersion : Formatter) (declared : gmap string string).

Lemma found_spec declared name :
  found declared name = true
  <-> is_Some (declared !! name) \/ JS.inherited name = true.
Proof.
  unfold found, JS.property.
  destruct (declared !! name) as [old|]; cbn [negb JS.IsNilProperty].
  - split; eauto.
  - destruct (JS.inherited name); cbn [negb JS.IsNilProperty]; split; auto.
    intros [[? [=]]|[=]].
Qed.

Lemma found_declared declared name old :
  declared !! name = Some old -> found declared name = true.
Proof. intros H. apply found_spec. left. eauto. Qed.

Lemma found_false declared name :
  found declared name = false
  <-> declared !! name = None /\ JS.inherited name = false.
Proof.
  unfold found, JS.property.
  destruct (declared !! name) as [old|]; cbn [negb JS.IsNilProperty].
  - split; [discriminate|intros [[=] _]].
  - destruct (JS.inherited name); cbn [negb JS.IsNilProperty]; split; auto;
      intros [_ [=]].
Qed.

(** What [updateVersions] does to one group. *)
Lemma updateVersions_spec versions formatVersion pkg g declared :
  group pkg g = Some declared ->
  (updateVersions versions formatVersion pkg g = Throw InvalidVersion
   /\ exists name dep,
        found declared name = true /\ versions !! name = Some dep
        /\ versionOf dep = None)
  \/ (exists updated,
        updateVersions versions formatVersion pkg g = Return (Some updated)
        /\ (forall name dep,
              versions !! name = Some dep -> found declared name = true ->
              exists wanted,
                versionOf dep = Some wanted
                /\ updated !! name = Some (formatVersion wanted name g))
        /\ (forall name,
              versions !! name = None \/ found declared name = false ->
              updated !! name = declared !! name)).
Proof.
  intros Hgroup. unfold updateVersions. rewrite Hgroup.
  set (P := fun entry : string * Requested => found declared (fst entry) = true).
  destruct (bool_decide _) eqn:Hall.
  - right. apply bool_decide_eq_true in Hall. eexists. split; [reflexivity|].
    split.
    + intros name dep Hdep Hfound. rewrite (overlay_lookup P), Hdep.
      rewrite decide_True by exact Hfound.
      assert (Hpicked : filter P versions !! name = Some dep).
      { apply map_lookup_filter_Some. split; [exact Hdep|exact Hfound]. }
      destruct (Hall name dep Hpicked) as [wanted Hwanted].
      exists wanted. rewrite Hwanted. auto.
    + intros name Hname. rewrite (overlay_lookup P).
      destruct (versions !! name) as [dep|]; [|reflexivity].
      destruct Hname as [[=]|Hname].
      rewrite decide_False; [reflexivity|]. unfold P; cbn [fst]. congruence.
  - left. split; [reflexivity|].
    apply bool_decide_eq_false, map_not_Forall in Hall
      as (name & dep & Hpicked & Hnil); [|solve_decision].
    apply map_lookup_filter_Some in Hpicked as [Hdep Hfound]. cbn [fst] in Hfound.
    exists name, dep. split; [exact Hfound|]. split; [exact Hdep|].
    destruct (versionOf dep); [|reflexivity]. exfalso. apply Hnil. eauto.
Qed.

Lemma assign_same pkg g : assign pkg g (group pkg g) = pkg.
Proof. destruct pkg, g; reflexivity. Qed.

Lemma group_assign_same pkg g updated : group (assign pkg g updated) g = updated.
Proof. destruct g; reflexivity. Qed.

Lemma group_assign_other pkg g g' updated :
  g <> g' -> group (assign pkg g updated) g' = group pkg g'.
Proof. destruct g, g'; try reflexivity; congruence. Qed.

Lemma rest_assign pkg g updated : rest (assign pkg g updated) = rest pkg.
Proof. destruct g; reflexivity. Qed.

(** [updatePackage] is the guarded assignment of the dependencies, then of
    the peer dependencies. *)
Lemma updatePackage_steps pkg (versions : option (gmap string Requested))
    (options : option Formatter) :
  updatePackage pkg versions options
  = match step (default ∅ versions) (default defaultFormatVersion options)
            pkg Dependencies with
    | Throw e => Throw e
    | Return pkg1 =>
        step (default ∅ versions) (default defaultFormatVersion options)
          pkg1 PeerDependencies
    end.
Proof.
  unfold updatePackage, step. cbn [group].
  destruct (nonEmpty (dependencies pkg)); [|reflexivity].
  destruct (updateVersions _ _ pkg Dependencies); reflexivity.
Qed.

Lemma nonEmpty_spec (collection : option (gmap string string)) :
  nonEmpty collection = true
  <-> exists declared, collection = Some declared /\ declared <> ∅.
Proof.
  unfold nonEmpty. destruct collection as [declared|].
  - rewrite negb_true_iff, bool_decide_eq_false. split.
    + intros H. exists declared. auto.
    + intros (? & [= <-] & H). exact H.
  - split; [discriminate|]. intros (? & [=] & _).
Qed.

(** What one guarded assignment does. *)
Lemma step_spec versions formatVersion pkg g :
  match group pkg g with
  | Some declared =>
      if decide (declared = ∅) then step versions formatVersion pkg g = Return pkg
      else
        (step versions formatVersion pkg g = Throw InvalidVersion
         /\ exists name dep,
              found declared name = true /\ versions !! name = Some dep
              /\ versionOf dep = None)
        \/ (exists updated,
              step versions formatVersion pkg g = Return (assign pkg g (Some updated))
              /\ (forall name dep,
                    versions !! name = Some dep -> found declared name = true ->
                    exists wanted,
                      versionOf dep = Some wanted
                      /\ updated !! name = Some (formatVersion wanted name g))
              /\ (forall name,
                    versions !! name = None \/ found declared name = false ->
                    updated !! name = declared !! name))
  | None => step versions formatVersion pkg g = Return pkg
  end.
Proof.
  unfold step. destruct (group pkg g) as [declared|] eqn:Hgroup; [|reflexivity].
  cbn [nonEmpty]. destruct (decide (declared = ∅)) as [->|Hne].
  - now rewrite bool_decide_eq_true_2.
  - rewrite bool_decide_eq_false_2 by exact Hne. cbn [negb].
    destruct (updateVersions_spec versions formatVersion pkg g declared Hgroup)
      as [[-> Hwitness]|(updated & -> & Hspec)]; [left|right]; eauto.
Qed.

(** A guarded assignment touches its own group only. *)
Lemma step_frame versions formatVersion pkg pkg1 g :
  step versions formatVersion pkg g = Return pkg1 ->
  rest pkg1 = rest pkg /\ forall g', g <> g' -> group pkg1 g' = group pkg g'.
Proof.
  unfold step. destruct (nonEmpty _); [|intros [= <-]; auto].
  destruct (updateVersions _ _ _ _) as [updated|]; [|discriminate].
  intros [= <-]. split; [apply rest_assign|]. intros g'. apply group_assign_other.
Qed.

(** A guarded assignment reads its own group only. *)
Lemma step_of_group versions formatVersion pkg pkg' g :
  group pkg g = group pkg' g ->
  match step versions formatVersion pkg g with
  | Throw e => step versions formatVersion pkg' g = Throw e
  | Return pkg1 =>
      exists pkg1',
        step versions formatVersion pkg' g = Return pkg1'
        /\ group pkg1' g = group pkg1 g
  end.
Proof.
  intros Hsame. unfold step, updateVersions. rewrite <- Hsame.
  destruct (nonEmpty (group pkg g)).
  - destruct (group pkg g) as [declared|]; [|eexists; split; [reflexivity|]].
    + destruct (bool_decide _); [|reflexivity].
      eexists. split; [reflexivity|]. now rewrite !group_assign_same.
    + now rewrite !group_assign_same.
  - eexists. split; [reflexivity|]. now symmetry.
Qed.

(** A second guarded assignment with the same versions changes nothing. *)
Lemma step_again versions formatVersion pkg pkg1 g :
  step versions formatVersion pkg g = Return pkg1 ->
  step versions formatVersion pkg1 g = Return pkg1.
Proof.
  intros Hfirst. pose proof (step_spec versions formatVersion pkg g) as Hspec.
  destruct (group pkg g) as [declared|] eqn:Hgroup.
  2:{ rewrite Hfirst in Hspec. injection Hspec as ->. exact Hfirst. }
  destruct (decide (declared = ∅)) as [->|Hne].
  { rewrite Hfirst in Hspec. injection Hspec as ->. exact Hfirst. }
  destruct Hspec as [[Hthrow _]|(updated & Hreturn & Hlisted & Hother)];
    [congruence|].
  rewrite Hfirst in Hreturn. injection Hreturn as ->.
  assert (Hfound : forall name dep,
            versions !! name = Some dep ->
            found updated name = found declared name).
  { intros name dep Hdep. destruct (found declared name) eqn:Hdeclared.
    - destruct (Hlisted name dep Hdep Hdeclared) as (wanted & _ & Hupdated).
      eapply found_declared, Hupdated.
    - apply found_false in Hdeclared as Hparts. apply found_false.
      split; [|apply Hparts]. rewrite Hother by auto. apply Hparts. }
  pose proof (step_spec versions formatVersion (assign pkg g (Some updated)) g) as Hnext.
  rewrite group_assign_same in Hnext.
  assert (Hsome : updated <> ∅).
  { intros ->. apply Hne. apply map_eq. intros name. rewrite lookup_empty.
    destruct (declared !! name) as [old|] eqn:Hold; [|reflexivity].
    destruct (versions !! name) as [dep|] eqn:Hdep.
    - destruct (Hlisted name dep Hdep (found_declared _ _ _ Hold))
        as (wanted & _ & Hupdated).
      rewrite lookup_empty in Hupdated. discriminate.
    - rewrite <- Hold, <- (Hother name) by auto. now rewrite lookup_empty. }
  rewrite decide_False in Hnext by exact Hsome.
  destruct Hnext as [(_ & name & dep & Hf & Hdep & Hnil)
                    |(again & -> & Hlisted' & Hother')].
  - exfalso. rewrite (Hfound name dep Hdep) in Hf.
    destruct (Hlisted name dep Hdep Hf) as (wanted & Hwanted & _). congruence.
  - f_equal. destruct g, pkg; cbn [assign]; f_equal; f_equal;
      apply map_eq; intros name;
      (destruct (versions !! name) as [dep|] eqn:Hdep;
       [destruct (found declared name) eqn:Hdeclared;
        [destruct (Hlisted name dep Hdep Hdeclared) as (wanted & Hwanted & ->);
         destruct (Hlisted' name dep Hdep) as (wanted' & Hwanted' & ->);
         [now rewrite (Hfound name dep Hdep)|congruence]
        |apply Hother'; right; now rewrite (Hfound name dep Hdep)]
       |apply Hother'; now left]).
Qed.

(** A second update with the same versions changes nothing. *)
Lemma updatePackage_twice pkg pkg' (versions : option (gmap string Requested))
    (options : option Formatter) :
  updatePackage pkg versions options = Return pkg' ->
  updatePackage pkg' versions options = Return pkg'.
Proof.
  rewrite !updatePackage_steps.
  set (vs := default ∅ versions). set (fmt := default defaultFormatVersion options).
  destruct (step vs fmt pkg Dependencies) as [pkg1|] eqn:Hfirst; [|discriminate].
  intros Hsecond.
  pose proof (step_again vs fmt pkg pkg1 Dependencies Hfirst) as Hfirst'.
  pose proof (step_again vs fmt pkg1 pkg' PeerDependencies Hsecond) as Hsecond'.
  destruct (step_frame vs fmt pkg1 pkg' PeerDependencies Hsecond) as [_ Hframe].
  pose proof (step_of_group vs fmt pkg1 pkg' Dependencies
                (eq_sym (Hframe Dependencies ltac:(discriminate)))) as Hagain.
  rewrite Hfirst' in Hagain. destruct Hagain as (pkg2 & Hstep & Hgroup).
  rewrite Hstep.
  destruct (step_frame vs fmt pkg' pkg2 Dependencies Hstep) as [Hrest Hframe'].
  assert (Hsame : pkg2 = pkg').
  { destruct pkg2 as [d2 p2 r2], pkg' as [d' p' r'], pkg1 as [d1 p1 r1].
    cbn [rest] in Hrest.
    specialize (Hframe' PeerDependencies ltac:(discriminate)).
    specialize (Hframe Dependencies ltac:(discriminate)).
    cbn [group dependencies peerDependencies] in *. congruence. }
  rewrite Hsame. exact Hsecond'.
Qed.

End UpdateFacts.

(** A manifest that declares no dependency named [A], where [A] is not the
    name of a member every object inherits, is returned as it is by an
    update of [A] alone, and [writePackage] on a file holding it resolves
    [false] and leaves the disk as it was. *)
Lemma update_without_match_is_noop {Rest : Type} `{EqDecision Rest}
    (json : Package.Json Rest) (Path_join : string -> string -> string)
    (pkg : Package.Manifest Rest) (A : string) :
  (forall declared, Package.dependencies pkg = Some declared -> declared !! A = None) ->
  (forall declared, Package.peerDependencies pkg = Some declared -> declared !! A = None) ->
  JS.inherited A = false ->
  Package.updatePackage pkg (Some {[ A := Package.Literal (Some "2.0.0") ]}) None
  = Return pkg
  /\ forall (disk : Package.Disk) (path data : string),
       Package.files disk
         !! (if bool_decide (path ∈ Package.directories disk)
             then Path_join path "package.json" else path) = Some data ->
       Package.JSON_parse json data = Some pkg ->
       Package.writePackage json Path_join disk path
         (Some {[ A := Package.Literal (Some "2.0.0") ]}) None
       = Return (disk, Resolved false).
Proof.
  intros Hdependencies Hpeers Hplain.
  assert (Hstep : forall g,
            (forall declared, Package.group pkg g = Some declared ->
                              declared !! A = None) ->
            PackageSteps.step {[ A := Package.Literal (Some "2.0.0") ]}
              Package.defaultFormatVersion pkg g = Return pkg).
  { intros g Hg.
    pose proof (step_spec {[ A := Package.Literal (Some "2.0.0") ]}
                  Package.defaultFormatVersion pkg g) as Hspec.
    destruct (Package.group pkg g) as [declared|] eqn:Hgroup; [|exact Hspec].
    destruct (decide (declared = ∅)); [exact Hspec|].
    specialize (Hg declared eq_refl).
    assert (Hmissing : Package.found declared A = false)
      by (apply found_false; auto).
    destruct Hspec as [(_ & name & dep & Hfound & Hdep & _)
                      |(updated & -> & _ & Hother)].
    - apply lookup_singleton_Some in Hdep as [<- _]. congruence.
    - rewrite <- (assign_same pkg g) at 2. rewrite Hgroup. do 3 f_equal.
      apply map_eq. intros name. apply Hother.
      destruct (decide (A = name)) as [<-|Hname]; [now right|].
      left. now apply lookup_singleton_ne. }
  assert (Hupdate :
    Package.updatePackage pkg (Some {[ A := Package.Literal (Some "2.0.0") ]}) None
    = Return pkg).
  { rewrite updatePackage_steps. cbn [default from_option id].
    rewrite (Hstep Package.Dependencies) by exact Hdependencies.
    apply (Hstep Package.PeerDependencies). exact Hpeers. }
  split; [exact Hupdate|].
  intros disk path data Hfile Hparse. unfold Package.writePackage.
  destruct (bool_decide (path ∈ Package.directories disk)) eqn:Hdirectory.
  - cbn [negb andb]. rewrite Hfile, Hparse, Hupdate.
    now rewrite bool_decide_eq_true_2.
  - cbn [negb andb]. rewrite Hfile.
    rewrite bool_decide_eq_true_2 by eauto. cbn [negb].
    rewrite Hparse, Hupdate. now rewrite bool_decide_eq_true_2.
Qed.

(** C7, at an input where the code departs from it.  The manifest declares
    [lodash] only, so no dependency named [toString].  [updatePackage] with
    [versions = {toString: "2.0.0"}] tests [dependencies["toString"]], finds
    the method every object inherits, and adds the entry: the result is not
    the input, and [writePackage] rewrites the file and resolves [true]. *)
Theorem update_adds_inherited_name :
  Package.dependencies Examples.chromeManifest
  = Some (<["lodash" := "^4.17.5"]> (∅ : gmap string string))
  /\ Package.peerDependencies Examples.chromeManifest = None
  /\ Package.updatePackage Examples.chromeManifest
       (Some (<["toString" := Package.Literal (Some "2.0.0")]>
                (∅ : gmap string Package.Requested))) None
     = Return {| Package.dependencies :=
                   Some (<["toString" := "2.0.0"]>
                           (<["lodash" := "^4.17.5"]> (∅ : gmap string string)));
                 Package.peerDependencies := None;
                 Package.rest := "radon-extension-chrome" |}
  /\ Package.updatePackage Examples.chromeManifest
       (Some (<["toString" := Package.Literal (Some "2.0.0")]>
                (∅ : gmap string Package.Requested))) None
     <> Return Examples.chromeManifest
  /\ exists disk,
       Package.writePackage Examples.oneDocument (fun a b => a +:+ "/" +:+ b)
         Examples.workDisk "/work"
         (Some (<["toString" := Package.Literal (Some "2.0.0")]>
                  (∅ : gmap string Package.Requested))) None
       = Return (disk, Resolved true)
       /\ Package.files disk !! "/work/package.json" = Some "updated"
       /\ Package.files Examples.workDisk !! "/work/package.json" = Some "chrome".
Proof.
  split; [vm_compute; reflexivity|]. split; [reflexivity|].
  split; [vm_compute; reflexivity|].
  split; [vm_compute; discriminate|].
  eexists. split; [vm_compute; reflexivity|]. split; vm_compute; reflexivity.
Qed.

(** The same update does change a manifest that declares the dependency. *)
Example update_with_match :
  Package.updatePackage Examples.chromeManifest
    (Some {[ "lodash" := Package.Literal (Some "2.0.0") ]}) None
  = Return {| Package.dependencies := Some {[ "lodash" := "2.0.0" ]};
              Package.peerDependencies := None;
              Package.rest := "radon-extension-chrome" |}.
Proof.
  vm_compute. reflexivity.
Qed.

(** An update of an undeclared name that no object inherits changes
    nothing. *)
Example update_without_match :
  Package.updatePackage Examples.chromeManifest
    (Some {[ "moment" := Package.Literal (Some "2.0.0") ]}) None
  = Return Examples.chromeManifest
  /\ Package.writePackage Examples.oneDocument (fun a b => a +:+ "/" +:+ b)
       Examples.workDisk "/work"
       (Some {[ "moment" := Package.Literal (Some "2.0.0") ]}) None
     = Return (Examples.workDisk, Resolved false).
Proof.
  destruct (update_without_match_is_noop Examples.oneDocument
              (fun a b => a +:+ "/" +:+ b) Examples.chromeManifest "moment")
    as [Hupdate Hwrite].
  - intros declared [= <-]. reflexivity.
  - intros declared [=].
  - reflexivity.
  - split; [exact Hupdate|].
    apply (Hwrite Examples.workDisk "/work" "chrome"); reflexivity.
Qed.

(** ** The polling loops *)

Section PollingFacts.

Import Push.

Lemma requests_request (events : list Event) :
  requests (Request :: events) = S (requests events).
Proof. reflexivity. Qed.

Lemma requests_wait (delay : Z) (events : list Event) :
  requests (Wait delay :: events) = requests events.
Proof. reflexivity. Qed.

(** An answer never produces the timeout error by itself. *)
Lemma onStatus_not_timeout (options : StatusOptions.t) (response : StatusResponse) :
  onStatus options response <> Some (Rejected UnableToRetrieve).
Proof.
  unfold onStatus. destruct response as [err|sha statuses]; [discriminate|].
  destruct (_ && _); [discriminate|].
  destruct (List.find _ _); [|discriminate].
  destruct (_ && _); discriminate.
Qed.

(** More fuel does not change a result. *)
Lemma statusRun_more_fuel (options : StatusOptions.t) (responses : nat -> StatusResponse) :
  forall fuel attempts result,
    statusRun fuel options responses attempts = Some result ->
    statusRun (S fuel) options responses attempts = Some result.
Proof.
  induction fuel as [|fuel IH]; intros attempts result; [discriminate|].
  intros Hrun. cbn [statusRun] in Hrun |- *.
  destruct (_ <? _)%nat; [exact Hrun|].
  destruct (onStatus options (responses (S attempts))); [exact Hrun|].
  destruct (statusRun fuel options responses (S attempts)) as [[events settled]|] eqn:Hrec;
    [|discriminate].
  apply IH in Hrec. cbn [statusRun] in Hrec. now rewrite Hrec.
Qed.

Lemma statusRun_enough_fuel (options : StatusOptions.t) (responses : nat -> StatusResponse)
    (fuel fuel' attempts : nat) result :
  (fuel <= fuel')%nat ->
  statusRun fuel options responses attempts = Some result ->
  statusRun fuel' options responses attempts = Some result.
Proof.
  induction 1 as [|fuel' _ IH]; [auto|].
  intros Hrun. now apply statusRun_more_fuel, IH.
Qed.

(** The loop settles within its budget. *)
Lemma statusRun_settles (options : StatusOptions.t) (responses : nat -> StatusResponse) :
  forall fuel attempts,
    (StatusOptions.retryAttempts options - attempts < fuel)%nat ->
    exists events settled,
      statusRun fuel options responses attempts = Some (events, settled)
      /\ (requests events <= StatusOptions.retryAttempts options - attempts)%nat
      /\ (settled = Rejected UnableToRetrieve ->
          requests events = (StatusOptions.retryAttempts options - attempts)%nat)
      /\ ((forall k, (attempts < k <= StatusOptions.retryAttempts options)%nat ->
                     onStatus options (responses k) = None) ->
          settled = Rejected UnableToRetrieve).
Proof.
  induction fuel as [|fuel IH]; intros attempts Hfuel; [lia|].
  cbn [statusRun].
  destruct (Nat.ltb_spec (StatusOptions.retryAttempts options) (S attempts))
    as [Hover|Hwithin].
  - exists [], (Rejected UnableToRetrieve).
    repeat split; auto; cbn; lia.
  - destruct (onStatus options (responses (S attempts))) as [settled|] eqn:Hanswer.
    + exists [Request], settled. split; [reflexivity|]. split; [cbn; lia|]. split.
      * intros ->. now apply onStatus_not_timeout in Hanswer.
      * intros Hpending. rewrite Hpending in Hanswer by lia. discriminate.
    + destruct (IH (S attempts)) as (events & settled & Hrun & Hle & Htimeout & Hpending);
        [lia|].
      rewrite Hrun. eexists _, settled. split; [reflexivity|].
      rewrite requests_request, requests_wait.
      split; [lia|]. split.
      * intros Hsettled. rewrite (Htimeout Hsettled). lia.
      * intros Hall. apply Hpending. intros k Hk. apply Hall. lia.
Qed.

Lemma buildRun_more_fuel (options : BuildOptions.t) (ref : string)
    (responses : nat -> BuildResponse) :
  forall fuel attempts interval result,
    buildRun fuel options ref responses attempts interval = Some result ->
    buildRun (S fuel) options ref responses attempts interval = Some result.
Proof.
  induction fuel as [|fuel IH]; intros attempts interval result; [discriminate|].
  intros Hrun. cbn [buildRun] in Hrun |- *.
  destruct (_ <? _)%nat; [exact Hrun|].
  set (interval' := nextInterval options interval (S attempts)) in *.
  destruct (buildRun fuel options ref responses (S attempts) interval')
    as [[events settled]|] eqn:Hrec.
  - apply IH in Hrec. cbn [buildRun] in Hrec. rewrite Hrec. exact Hrun.
  - destruct (responses (S attempts)) as [err|state branch]; [discriminate|].
    destruct (negb _); [exact Hrun|].
    destruct (JS.includes _ state); [discriminate|exact Hrun].
Qed.

Lemma buildRun_enough_fuel (options : BuildOptions.t) (ref : string)
    (responses : nat -> BuildResponse) (fuel fuel' attempts : nat) (interval : Z) result :
  (fuel <= fuel')%nat ->
  buildRun fuel options ref responses attempts interval = Some result ->
  buildRun fuel' options ref responses attempts interval = Some result.
Proof.
  induction 1 as [|fuel' _ IH]; [auto|].
  intros Hrun. now apply buildRun_more_fuel, IH.
Qed.

Lemma buildRun_settles (options : BuildOptions.t) (ref : string)
    (responses : nat -> BuildResponse) :
  forall fuel attempts interval,
    (BuildOptions.maximumAttempts options - attempts < fuel)%nat ->
    exists events settled,
      buildRun fuel options ref responses attempts interval = Some (events, settled)
      /\ (requests events <= BuildOptions.maximumAttempts options - attempts)%nat
      /\ (settled = Rejected BuildTimeout ->
          requests events = (BuildOptions.maximumAttempts options - attempts)%nat)
      /\ ((forall k, (attempts < k <= BuildOptions.maximumAttempts options)%nat ->
                     stillBuilding ref (responses k) = true) ->
          settled = Rejected BuildTimeout).
Proof.
  induction fuel as [|fuel IH]; intros attempts interval Hfuel; [lia|].
  cbn [buildRun].
  destruct (Nat.ltb_spec (BuildOptions.maximumAttempts options) (S attempts))
    as [Hover|Hwithin].
  - exists [], (Rejected BuildTimeout). repeat split; auto; cbn; lia.
  - set (interval' := nextInterval options interval (S attempts)).
    destruct (IH (S attempts) interval')
      as (events & settled & Hrun & Hle & Htimeout & Hpending); [lia|].
    rewrite Hrun.
    assert (Hagain : forall delay,
      exists events' settled',
        Some (Request :: Wait delay :: events, settled) = Some (events', settled')
        /\ (requests events' <= BuildOptions.maximumAttempts options - attempts)%nat
        /\ (settled' = Rejected BuildTimeout ->
            requests events' = (BuildOptions.maximumAttempts options - attempts)%nat)
        /\ ((forall k, (attempts < k <= BuildOptions.maximumAttempts options)%nat ->
                       stillBuilding ref (responses k) = true) ->
            settled' = Rejected BuildTimeout)).
    { intros delay. eexists _, settled. split; [reflexivity|].
      rewrite requests_request, requests_wait. split; [lia|]. split.
      - intros Hsettled. rewrite (Htimeout Hsettled). lia.
      - intros Hall. apply Hpending. intros k Hk. apply Hall. lia. }
    destruct (responses (S attempts)) as [err|state branch] eqn:Hanswer;
      [apply Hagain|].
    destruct (String.eqb_spec branch ref) as [->|Hbranch]; cbn [negb].
    + destruct (JS.includes ["created"; "started"] state) eqn:Hstate; [apply Hagain|].
      exists [Request], (Resolved state). split; [reflexivity|].
      split; [cbn; lia|]. split; [discriminate|].
      intros Hall. specialize (Hall (S attempts) ltac:(lia)).
      rewrite Hanswer in Hall. cbn [stillBuilding] in Hall.
      rewrite Hstate, andb_false_r in Hall. discriminate.
    + exists [Request], (Rejected (IncorrectBuild ref branch)). split; [reflexivity|].
      split; [cbn; lia|]. split; [discriminate|].
      intros Hall. specialize (Hall (S attempts) ltac:(lia)).
      rewrite Hanswer in Hall. cbn [stillBuilding] in Hall.
      apply String.eqb_neq in Hbranch. rewrite Hbranch in Hall. discriminate.
Qed.

End PollingFacts.

(** C9.  Both polling loops settle within their budget, whatever the
    answers are.  With a budget of N attempts, [getTravisStatus] settles
    for every fuel above N, issues at most N requests, rejects with its
    timeout error only after exactly N requests, and does so when none of
    the N answers is usable; [awaitTravisBuild] does the same with
    [maximumAttempts] and its build-timeout error. *)
Theorem polling_is_bounded :
  (forall (options : Push.StatusOptions.t) (responses : nat -> Push.StatusResponse),
     exists events settled,
       (forall fuel,
          (Push.StatusOptions.retryAttempts options < fuel)%nat ->
          Push.getTravisStatus fuel options responses = Some (events, settled))
       /\ (Push.requests events <= Push.StatusOptions.retryAttempts options)%nat
       /\ (settled = Rejected Push.UnableToRetrieve ->
           Push.requests events = Push.StatusOptions.retryAttempts options)
       /\ ((forall k, (1 <= k <= Push.StatusOptions.retryAttempts options)%nat ->
                      Push.onStatus options (responses k) = None) ->
           settled = Rejected Push.UnableToRetrieve))
  /\ (forall (options : Push.BuildOptions.t) (ref : string)
             (responses : nat -> Push.BuildResponse),
        exists events settled,
          (forall fuel,
             (Push.BuildOptions.maximumAttempts options < fuel)%nat ->
             Push.awaitTravisBuild fuel options ref responses = Some (events, settled))
          /\ (Push.requests events <= Push.BuildOptions.maximumAttempts options)%nat
          /\ (settled = Rejected Push.BuildTimeout ->
              Push.requests events = Push.BuildOptions.maximumAttempts options)
          /\ ((forall k, (1 <= k <= Push.BuildOptions.maximumAttempts options)%nat ->
                         Push.stillBuilding ref (responses k) = true) ->
              settled = Rejected Push.BuildTimeout)).
Proof.
  split.
  - intros options responses.
    destruct (statusRun_settles options responses
                (S (Push.StatusOptions.retryAttempts options)) 0)
      as (events & settled & Hrun & Hle & Htimeout & Hpending); [lia|].
    rewrite Nat.sub_0_r in *.
    exists (Push.Wait (Push.StatusOptions.delay options) :: events), settled.
    rewrite requests_wait. split; [|split; [exact Hle|split; [exact Htimeout|]]].
    + intros fuel Hfuel. unfold Push.getTravisStatus.
      rewrite (statusRun_enough_fuel options responses _ fuel 0 _ Hfuel Hrun).
      reflexivity.
    + intros Hall. apply Hpending. intros k Hk. apply Hall. lia.
  - intros options ref responses.
    destruct (buildRun_settles options ref responses
                (S (Push.BuildOptions.maximumAttempts options)) 0 (15 * 1000))
      as (events & settled & Hrun & Hle & Htimeout & Hpending); [lia|].
    rewrite Nat.sub_0_r in *.
    exists events, settled. split; [|split; [exact Hle|split; [exact Htimeout|]]].
    + intros fuel Hfuel. unfold Push.awaitTravisBuild.
      exact (buildRun_enough_fuel options ref responses _ fuel 0 _ _ Hfuel Hrun).
    + intros Hall. apply Hpending. intros k Hk. apply Hall. lia.
Qed.

Lemma polling_is_bounded_witness :
  (exists events,
     Push.getTravisStatus 4 Examples.threeAttempts Examples.neverReady
     = Some (events, Rejected Push.UnableToRetrieve)
     /\ Push.requests events = 3%nat)
  /\ (exists events,
        Push.awaitTravisBuild 3 Examples.twoBuildAttempts "master" Examples.alwaysStarted
        = Some (events, Rejected Push.BuildTimeout)
        /\ Push.requests events = 2%nat).
Proof.
  destruct polling_is_bounded as [Hstatus Hbuild]. split.
  - destruct (Hstatus Examples.threeAttempts Examples.neverReady)
      as (events & settled & Hrun & _ & Htimeout & Hpending).
    assert (Hsettled : settled = Rejected Push.UnableToRetrieve)
      by (apply Hpending; intros k _; reflexivity).
    exists events. rewrite <- Hsettled. split.
    + apply Hrun. cbn. lia.
    + now apply Htimeout.
  - destruct (Hbuild Examples.twoBuildAttempts "master" Examples.alwaysStarted)
      as (events & settled & Hrun & _ & Htimeout & Hpending).
    assert (Hsettled : settled = Rejected Push.BuildTimeout)
      by (apply Hpending; intros k _; reflexivity).
    exists events. rewrite <- Hsettled. split.
    + apply Hrun. cbn. lia.
    + now apply Htimeout.
Defined.

(** The trace of a status poll that never finds a status: the initial
    delay, then three requests a fixed interval apart, then the rejection
    on the fourth entry into the loop. *)
Example getTravisStatus_trace :
  Push.getTravisStatus 4 Examples.threeAttempts Examples.neverReady
  = Some ([Push.Wait 30000; Push.Request; Push.Wait 15000; Push.Request;
           Push.Wait 15000; Push.Request; Push.Wait 15000],
          Rejected Push.UnableToRetrieve).
Proof. reflexivity. Qed.

Example awaitTravisBuild_trace :
  Push.awaitTravisBuild 3 Examples.twoBuildAttempts "master" Examples.alwaysStarted
  = Some ([Push.Request; Push.Wait 15000; Push.Request; Push.Wait 15000],
          Rejected Push.BuildTimeout).
Proof. reflexivity. Qed.

(* ===================================================================== *)
(** * Further properties *)
(* ===================================================================== *)

(** ** Searching, and dictionaries *)

Section TextFacts.

Implicit Types (s t p r : string) (c : ascii).

Lemma prefix_split t s : String.prefix t s = true -> exists r, s = t +:+ r.
Proof.
  revert s. induction t as [|c t IH]; intros s H.
  - exists s. reflexivity.
  - destruct s as [|d s]; [discriminate|]. cbn [String.prefix] in H.
    destruct (ascii_dec c d) as [<-|]; [|discriminate].
    destruct (IH s H) as [r ->]. exists r. reflexivity.
Qed.

Lemma occurs_tail t c s : Text.occurs t s -> Text.occurs t (String c s).
Proof. intros (p & r & ->). exists (String c p), r. reflexivity. Qed.

Lemma occurs_prefix t s : String.prefix t s = true -> Text.occurs t s.
Proof. intros [r ->]%prefix_split. exists EmptyString, r. reflexivity. Qed.

(** A search that fails returns -1 wherever it started. *)
Lemma indexOf_from_absent s t from :
  ~ Text.occurs t s -> JS.indexOf_from s t from = (-1)%Z.
Proof.
  revert from. induction s as [|c s IH]; intros from Hnot; cbn [JS.indexOf_from].
  - destruct (String.prefix t EmptyString) eqn:Hp; [|reflexivity].
    exfalso. apply Hnot. now apply occurs_prefix.
  - destruct (String.prefix t (String c s)) eqn:Hp.
    + exfalso. apply Hnot. now apply occurs_prefix.
    + apply IH. intros Hocc. apply Hnot. now apply occurs_tail.
Qed.

(** A search returns the position of an occurrence, or -1. *)
Lemma indexOf_from_spec s t from :
  (exists before after,
     s = before +:+ t +:+ after
     /\ JS.indexOf_from s t from = (from + Z.of_nat (String.length before))%Z)
  \/ JS.indexOf_from s t from = (-1)%Z.
Proof.
  revert from. induction s as [|c s IH]; intros from; cbn [JS.indexOf_from].
  - destruct (String.prefix t EmptyString) eqn:Hp; [|now right].
    left. apply prefix_split in Hp as [r Hr]. exists EmptyString, r.
    split; [exact Hr|cbn; lia].
  - destruct (String.prefix t (String c s)) eqn:Hp.
    + left. apply prefix_split in Hp as [r Hr]. exists EmptyString, r.
      split; [exact Hr|cbn; lia].
    + destruct (IH (from + 1)%Z) as [(p & r & -> & Hindex)|Habsent]; [|now right].
      left. exists (String c p), r. split; [reflexivity|].
      rewrite Hindex. cbn [String.length]. lia.
Qed.

Lemma indexOf_from_present s t from :
  Text.occurs t s -> (from <= JS.indexOf_from s t from)%Z.
Proof.
  intros (p & r & ->). revert from.
  induction p as [|c p IH]; intros from.
  - rewrite append_nil.
    destruct (t +:+ r) eqn:E; cbn [JS.indexOf_from]; rewrite <- E, prefix_app; lia.
  - rewrite append_cons. cbn [JS.indexOf_from].
    destruct (String.prefix t _); [lia|]. specialize (IH (from + 1)%Z). lia.
Qed.

Lemma indexOf_occurs s t : (0 <= JS.indexOf s t)%Z <-> Text.occurs t s.
Proof.
  unfold JS.indexOf. split.
  - intros H. destruct (indexOf_from_spec s t 0) as [(p & r & -> & _)|Hno]; [|lia].
    now exists p, r.
  - apply indexOf_from_present.
Qed.

Lemma indexOf_decomposes s t :
  (0 <= JS.indexOf s t)%Z ->
  exists before after,
    s = before +:+ t +:+ after
    /\ JS.indexOf s t = Z.of_nat (String.length before).
Proof.
  intros H. unfold JS.indexOf in *.
  destruct (indexOf_from_spec s t 0) as [(p & r & Hs & Hindex)|Hno]; [|lia].
  exists p, r. split; [exact Hs|]. rewrite Hindex. lia.
Qed.

Lemma dict_get_set_eq {V : Type} (d : Dict V) (k : string) (v : V) :
  dict_get (dict_set d k v) k = Some v.
Proof.
  induction d as [|[k' v'] d IH]; cbn [dict_set dict_get].
  - now rewrite String.eqb_refl.
  - destruct (String.eqb_spec k k') as [->|Hne]; cbn [dict_get].
    + now rewrite String.eqb_refl.
    + apply String.eqb_neq in Hne. now rewrite Hne.
Qed.

Lemma dict_get_set_ne {V : Type} (d : Dict V) (k k' : string) (v : V) :
  k <> k' -> dict_get (dict_set d k v) k' = dict_get d k'.
Proof.
  intros Hne. induction d as [|[k0 v0] d IH]; cbn [dict_set dict_get].
  - destruct (String.eqb_spec k' k); [congruence|reflexivity].
  - destruct (String.eqb_spec k k0) as [->|Hk]; cbn [dict_get].
    + destruct (String.eqb_spec k' k0); [congruence|reflexivity].
    + destruct (String.eqb_spec k' k0); [reflexivity|exact IH].
Qed.

End TextFacts.
(** ** The validator: accepted edges and the log *)

Section DeclarationFacts.

Import Validator.

Lemma declared_own_or_inherited (collection : Dict string) (name : string) :
  JS.inherited name = true -> JS.IsNilProperty (declared collection name) = false.
Proof.
  intros Hinherited. unfold declared, JS.property. rewrite Hinherited.
  now destruct (dict_get collection name).
Qed.

Lemma declared_undefined (collection : Dict string) (name : string) :
  declared collection name = JS.Undefined
  <-> dict_get collection name = None /\ JS.inherited name = false.
Proof.
  unfold declared, JS.property.
  destruct (dict_get collection name); [split; [discriminate|intros [[=] _]]|].
  destruct (JS.inherited name); split; try discriminate; auto.
  intros [_ [=]].
Qed.

Lemma IsNilProperty_undefined {V : Type} (p : JS.Property V) :
  JS.IsNilProperty p = true <-> p = JS.Undefined.
Proof. destruct p; cbn; split; congruence. Qed.

(** A collection that does not declare a name does not hold one either
    when another collection of the same manifest finds nothing under it:
    what is inherited is inherited by all of them. *)
Lemma declared_not_inherited (first second : Dict string) (name : string) :
  declared second name = JS.Undefined ->
  JS.IsNilProperty (declared first name) = false ->
  exists version, declared first name = JS.Own version.
Proof.
  intros [_ Hplain]%declared_undefined. unfold declared, JS.property. rewrite Hplain.
  destruct (dict_get first name) as [version|]; [eauto|discriminate].
Qed.

Lemma validateModule_valid (v : Validator.t) (dep : Dep.t) (module : Mod.t) :
  validOf (fst (validateModule v dep module)) = true ->
  exists version,
    declared (Pkg.peerDependencies (Mod.package module)) (Dep.name dep) = JS.Own version
    /\ declared (Pkg.devDependencies (Mod.package module)) (Dep.name dep) = JS.Undefined
    /\ isPinned version = false
    /\ validateModule v dep module = (Result (JS.Own version) true, v).
Proof.
  unfold validateModule.
  destruct (JS.IsNilProperty (declared (Pkg.peerDependencies _) _)) eqn:Hpeer;
    [discriminate|].
  destruct (JS.IsNilProperty (declared (Pkg.devDependencies _) _)) eqn:Hdev;
    cbn [negb]; [|discriminate].
  apply IsNilProperty_undefined in Hdev.
  destruct (declared_not_inherited _ _ _ Hdev Hpeer) as [version Hown].
  rewrite Hown. cbn [matchesPin].
  destruct (isPinned version) eqn:Hpinned; [discriminate|].
  intros _. exists version. auto.
Qed.

Lemma validateRequirement_valid (v : Validator.t) (dep : Dep.t) (module : Mod.t) :
  validOf (fst (validateRequirement v dep module)) = true ->
  exists version,
    declared (Pkg.dependencies (Mod.package module)) (Dep.name dep) = JS.Own version
    /\ declared (Pkg.devDependencies (Mod.package module)) (Dep.name dep) = JS.Undefined
    /\ declared (Pkg.peerDependencies (Mod.package module)) (Dep.name dep) = JS.Undefined
    /\ isPinned version = false
    /\ validateRequirement v dep module = (Result (JS.Own version) true, v).
Proof.
  unfold validateRequirement.
  destruct (JS.IsNilProperty (declared (Pkg.dependencies _) _)) eqn:Hdeclared;
    [discriminate|].
  destruct (JS.IsNilProperty (declared (Pkg.devDependencies _) _)) eqn:Hdev;
    cbn [negb]; [|discriminate].
  destruct (JS.IsNilProperty (declared (Pkg.peerDependencies _) _)) eqn:Hpeer;
    cbn [negb]; [|discriminate].
  apply IsNilProperty_undefined in Hdev, Hpeer.
  destruct (declared_not_inherited _ _ _ Hdev Hdeclared) as [version Hown].
  rewrite Hown. cbn [matchesPin].
  destruct (isPinned version) eqn:Hpinned; [discriminate|].
  intros _. exists version. auto.
Qed.

End DeclarationFacts.

(** What the declaration check accepts. *)
Lemma validateDependency_checks (v : Validator.t) (dep : Dep.t) (module : Mod.t) :
  (Validator.validOf (fst (Validator.validateDependency v dep module)) = true
   <-> exists version,
         Validator.declaredVersion dep module = JS.Own version
         /\ Validator.declared (Pkg.devDependencies (Mod.package module)) (Dep.name dep)
            = JS.Undefined
         /\ ((JS.indexOf (Dep.name dep) Validator.ModuleScope =? 0)%Z = false ->
             Validator.declared (Pkg.peerDependencies (Mod.package module)) (Dep.name dep)
             = JS.Undefined)
         /\ Validator.isPinned version = false)
  /\ (Validator.validOf (fst (Validator.validateDependency v dep module)) = true ->
      Validator.validateDependency v dep module
      = (Validator.Result (Validator.declaredVersion dep module) true, v)).
Proof.
  unfold Validator.validateDependency, Validator.declaredVersion.
  destruct (JS.indexOf (Dep.name dep) Validator.ModuleScope =? 0)%Z.
  - split; [split|].
    + intros (version & Hd & Hdev & Hpin & _)%validateModule_valid.
      exists version. repeat split; auto. discriminate.
    + intros (version & Hd & Hdev & _ & Hpin). unfold Validator.validateModule.
      rewrite Hd, Hdev. cbn [JS.IsNilProperty negb Validator.matchesPin].
      rewrite Hpin. reflexivity.
    + intros (version & Hd & _ & _ & ->)%validateModule_valid. now rewrite Hd.
  - split; [split|].
    + intros (version & Hd & Hdev & Hpeer & Hpin & _)%validateRequirement_valid.
      exists version. auto.
    + intros (version & Hd & Hdev & Hpeer & Hpin). unfold Validator.validateRequirement.
      rewrite Hd, Hdev, (Hpeer eq_refl). cbn [JS.IsNilProperty negb Validator.matchesPin].
      rewrite Hpin. reflexivity.
    + intros (version & Hd & _ & _ & _ & ->)%validateRequirement_valid. now rewrite Hd.
Qed.

(** X1.  The declaration check of an edge is valid exactly when the
    collection of its kind ([peerDependencies] for an internal module,
    [dependencies] otherwise) declares the dependency with a version that is
    not an exact pin, and looking the name up in [devDependencies] and, for
    an external package, in [peerDependencies] finds nothing: neither a
    declaration nor a member that every object inherits.  A valid check
    returns the declared version and leaves the instance untouched. *)
Theorem validateDependency_valid_iff (v : Validator.t) (dep : Dep.t) (module : Mod.t) :
  (Validator.validOf (fst (Validator.validateDependency v dep module)) = true
   <-> exists version,
         Validator.declaredVersion dep module = JS.Own version
         /\ Validator.declared (Pkg.devDependencies (Mod.package module)) (Dep.name dep)
            = JS.Undefined
         /\ ((JS.indexOf (Dep.name dep) Validator.ModuleScope =? 0)%Z = false ->
             Validator.declared (Pkg.peerDependencies (Mod.package module)) (Dep.name dep)
             = JS.Undefined)
         /\ Validator.isPinned version = false)
  /\ (Validator.validOf (fst (Validator.validateDependency v dep module)) = true ->
      Validator.validateDependency v dep module
      = (Validator.Result (Validator.declaredVersion dep module) true, v)).
Proof. exact (validateDependency_checks v dep module). Qed.

(** A dependency named after a member that every object inherits never
    passes the declaration check, however it is declared. *)
Example validateDependency_inherited_name :
  forall (v : Validator.t) (module : Mod.t),
    Validator.validOf
      (fst (Validator.validateDependency v
              {| Dep.name := "constructor"; Dep.path := None |} module)) = false.
Proof.
  intros v module.
  destruct (Validator.validOf _) eqn:Hvalid; [|reflexivity].
  apply validateDependency_checks in Hvalid as (version & _ & Hdev & _).
  apply declared_undefined in Hdev as [_ Hplain]. discriminate Hplain.
Qed.



Section FlagFacts.

Import Validator.

Lemma validateDependency_invalid (v : Validator.t) (dep : Dep.t) (module : Mod.t) :
  validOf (fst (validateDependency v dep module)) = false ->
  exists message,
    logger (snd (validateDependency v dep module)) = logger v ++ [(Error, message)].
Proof.
  unfold validateDependency, validateModule, validateRequirement.
  repeat (match goal with |- context [if ?x then _ else _] => destruct x end;
          cbn [fst snd validOf]);
    try discriminate; intros _; eexists; reflexivity.
Qed.

(** [parseDependency] writes one warning at most. *)
Lemma parseDependency_warns (node : Node.t) (request : string)
    (dep : option Dep.t) (warned : list LogEntry) :
  parseDependency node request = Return (dep, warned) ->
  warned = []
  \/ exists packageName name, warned = [(Warn, PackageMismatch packageName name)].
Proof.
  unfold parseDependency.
  destruct (negb (Node.existsSync node request)); [intros [= _ <-]; auto|].
  destruct (List.find _ _) as [path|]; [|intros [= _ <-]; auto].
  destruct (Node.readPackageName node _) as [packageName|]; [|discriminate].
  intros [= _ <-].
  destruct (getDependencyName node _) as [name|]; [|auto].
  destruct (negb (String.eqb name packageName)); eauto.
Qed.

End FlagFacts.

(** X3.  One call of [validateReason] writes the warning of
    [parseDependency], if there is one, and after it at most one line; the
    error flag follows that line: nothing more or a warning (an unparsable
    request) leaves the flag as it was, and the flag is set exactly when an
    error is logged, in which case the call returns [false]. *)
Theorem validateReason_flag_follows_log (node : Node.t) (v : Validator.t)
    (browser : option Browser.t) (environment : option Environment.t)
    (source request : option string) :
  exists warned entries,
    Validator.logger
      (snd (Validator.validateReason node v browser environment source request))
    = Validator.logger v ++ warned ++ entries
    /\ (warned = []
        \/ exists packageName name, warned = [(Warn, PackageMismatch packageName name)])
    /\ ((entries = []
         /\ Validator._error
              (snd (Validator.validateReason node v browser environment source request))
            = Validator._error v)
        \/ (exists message,
              entries = [(Warn, message)]
              /\ fst (Validator.validateReason node v browser environment source request)
                 = false
              /\ Validator._error
                   (snd (Validator.validateReason node v browser environment source
                           request))
                 = Validator._error v)
        \/ (exists message,
              entries = [(Error, message)]
              /\ fst (Validator.validateReason node v browser environment source request)
                 = false
              /\ Validator._error
                   (snd (Validator.validateReason node v browser environment source
                           request))
                 = true)).
Proof.
  assert (Hnothing : forall result,
    exists warned entries,
      Validator.logger (snd (result, v)) = Validator.logger v ++ warned ++ entries
      /\ (warned = []
          \/ exists packageName name,
               warned = [(Warn, PackageMismatch packageName name)])
      /\ ((entries = [] /\ Validator._error (snd (result, v)) = Validator._error v)
          \/ (exists message,
                entries = [(Warn, message)] /\ fst (result, v) = false
                /\ Validator._error (snd (result, v)) = Validator._error v)
          \/ (exists message,
                entries = [(Error, message)] /\ fst (result, v) = false
                /\ Validator._error (snd (result, v)) = true)))
    by (intros result; exists [], []; cbn; rewrite app_nil_r; auto).
  unfold Validator.validateReason.
  destruct browser as [b|], environment as [e|], request as [wanted|];
    try apply Hnothing.
  clear Hnothing.
  destruct (Validator.parseDependency node wanted) as [[dep warned]|] eqn:Hparse.
  2:{ exists [], [(Warn, UnableToParse wanted)]. cbn. split; [reflexivity|].
      split; [auto|]. right. left. eauto. }
  apply parseDependency_warns in Hparse.
  destruct dep as [dep|].
  2:{ exists warned, [(Warn, UnableToParse wanted)].
      cbn [snd fst Validator.log Validator.logAll Validator.logger Validator._error].
      rewrite <- app_assoc. split; [reflexivity|]. split; [exact Hparse|].
      right. left. eauto. }
  match goal with
  | |- exists warned' entries, Validator.logger (snd ?R) = _ /\ _ =>
      cut (exists entries,
             Validator.logger (snd R)
             = Validator.logger (Validator.logAll v warned) ++ entries
             /\ ((entries = []
                  /\ Validator._error (snd R)
                     = Validator._error (Validator.logAll v warned))
                 \/ (exists message,
                       entries = [(Warn, message)] /\ fst R = false
                       /\ Validator._error (snd R)
                          = Validator._error (Validator.logAll v warned))
                 \/ (exists message,
                       entries = [(Error, message)] /\ fst R = false
                       /\ Validator._error (snd R) = true)))
  end.
  { intros (entries & Hlog & Hcases). exists warned, entries.
    cbn [Validator.logAll Validator.logger Validator._error] in Hlog, Hcases.
    rewrite <- app_assoc in Hlog. auto. }
  generalize (Validator.logAll v warned) as w. clear Hparse. intros w.
  assert (Hnothing : forall result,
    exists entries,
      Validator.logger (snd (result, w)) = Validator.logger w ++ entries
      /\ ((entries = [] /\ Validator._error (snd (result, w)) = Validator._error w)
          \/ (exists message,
                entries = [(Warn, message)] /\ fst (result, w) = false
                /\ Validator._error (snd (result, w)) = Validator._error w)
          \/ (exists message,
                entries = [(Error, message)] /\ fst (result, w) = false
                /\ Validator._error (snd (result, w)) = true)))
    by (intros result; exists []; cbn; rewrite app_nil_r; auto).
  assert (Herror : forall v1 message,
    Validator.logger v1 = Validator.logger w ++ [(Error, message)] ->
    exists entries,
      Validator.logger (snd (false, Validator.setError v1))
      = Validator.logger w ++ entries
      /\ ((entries = []
           /\ Validator._error (snd (false, Validator.setError v1)) = Validator._error w)
          \/ (exists message',
                entries = [(Warn, message')]
                /\ fst (false, Validator.setError v1) = false
                /\ Validator._error (snd (false, Validator.setError v1))
                   = Validator._error w)
          \/ (exists message',
                entries = [(Error, message')]
                /\ fst (false, Validator.setError v1) = false
                /\ Validator._error (snd (false, Validator.setError v1)) = true)))
    by (intros v1 message Hlog; eexists; split; [exact Hlog|]; right; right; eauto).
  destruct (JS.includes _ _); [apply Hnothing|].
  destruct (_ && _); [eapply Herror; reflexivity|].
  match goal with |- context [match ?x with Some _ => _ | None => _ end] =>
    destruct x as [module|] end; [|eapply Herror; reflexivity].
  destruct (String.eqb _ _); [apply Hnothing|].
  destruct (_ && _); [eapply Herror; reflexivity|].
  destruct (negb (String.eqb _ _)); [|eapply Herror; reflexivity].
  pose proof (validateDependency_invalid w dep module) as Hinvalid.
  pose proof (proj2 (validateDependency_checks w dep module)) as Hvalid.
  destruct (Validator.validateDependency w dep module) as [result v1].
  cbn [fst snd] in Hinvalid, Hvalid.
  destruct (Validator.validOf result); cbn [negb].
  - specialize (Hvalid eq_refl). injection Hvalid as -> ->.
    destruct (negb (JS.IsNilProperty _)); [|apply Hnothing].
    exists []. cbn. rewrite app_nil_r. auto.
  - destruct (Hinvalid eq_refl) as [message Hlog]. eapply Herror. exact Hlog.
Qed.

(** A request for an installed package whose manifest bears another name
    than its directory: the mismatch is warned of, then the missing
    declaration is an error. *)
Example validateReason_two_lines :
  Validator.logger
    (snd (Validator.validateReason Examples.renamedDisk Validator.create
            (Some Examples.firefox) (Some Examples.production)
            (Some "/work/Core/src/index.js") (Some "/work/node_modules/left-pad")))
  = [ (Warn, PackageMismatch "leftpad" "left-pad");
      (Error, ShouldBeDefinedFor "leftpad" "@radon-extension/core") ].
Proof. vm_compute. reflexivity. Qed.

Section CheckedFacts.

Import Validator Validation.

Lemma checked_validateDependency (v : Validator.t) (dep : Dep.t) (module : Mod.t) :
  checked (snd (validateDependency v dep module)) = checked v.
Proof.
  unfold validateDependency, validateModule, validateRequirement.
  repeat (match goal with |- context [if ?x then _ else _] => destruct x end;
          cbn [snd]); reflexivity.
Qed.

(** [validateReason] never touches the set of checked pairs. *)
Lemma checked_validateReason (node : Node.t) (v : Validator.t)
    (browser : option Browser.t) (environment : option Environment.t)
    (source request : option string) :
  checked (snd (validateReason node v browser environment source request)) = checked v.
Proof.
  unfold validateReason.
  destruct browser as [b|], environment as [e|], request as [wanted|];
    try reflexivity.
  destruct (parseDependency node wanted) as [[[dep|] warned]|]; try reflexivity.
  destruct (JS.includes _ _); [reflexivity|].
  destruct (_ && _); [reflexivity|].
  match goal with |- context [match ?x with Some _ => _ | None => _ end] =>
    destruct x as [module|] end; [|reflexivity].
  destruct (String.eqb _ _); [reflexivity|].
  destruct (_ && _); [reflexivity|].
  destruct (negb (String.eqb _ _)); [|reflexivity].
  pose proof (checked_validateDependency (logAll v warned) dep module) as Hdep.
  destruct (validateDependency (logAll v warned) dep module) as [result v1].
  cbn [snd] in *.
  destruct (negb (validOf result)); [exact Hdep|].
  destruct (negb (JS.IsNilProperty _)); exact Hdep.
Qed.

Lemma isChecked_markChecked_same (v : Validator.t) (request source : string) :
  isChecked (markChecked v request source) request source = true.
Proof.
  unfold isChecked, markChecked; cbn [checked].
  rewrite lookup_insert_eq, lookup_insert_eq. reflexivity.
Qed.

Lemma isChecked_markChecked_mono (v : Validator.t) (request source r s : string) :
  isChecked v r s = true -> isChecked (markChecked v request source) r s = true.
Proof.
  unfold isChecked, markChecked; cbn [checked].
  destruct (decide (request = r)) as [<-|Hr].
  - rewrite lookup_insert_eq.
    destruct (checked v !! request) as [per_source|]; [|discriminate].
    cbn [default from_option id].
    destruct (decide (source = s)) as [<-|Hs].
    + now rewrite lookup_insert_eq.
    + now rewrite lookup_insert_ne by exact Hs.
  - now rewrite lookup_insert_ne by exact Hr.
Qed.

Lemma isChecked_validateReason (node : Node.t) (v : Validator.t)
    (browser : option Browser.t) (environment : option Environment.t)
    (source request : option string) (r s : string) :
  isChecked (snd (validateReason node v browser environment source request)) r s
  = isChecked v r s.
Proof. unfold isChecked. now rewrite checked_validateReason. Qed.

Lemma fold_left_pointwise {A B : Type} (f g : A -> B -> A) (l : list B) (a : A) :
  (forall a b, f a b = g a b) -> fold_left f l a = fold_left g l a.
Proof.
  intros Hfg. revert a. induction l as [|b l IH]; intros a; cbn [fold_left].
  - reflexivity.
  - now rewrite Hfg, IH.
Qed.

Lemma visit_mono node browser environment v reason r s :
  isChecked v r s = true -> isChecked (visit node browser environment v reason) r s = true.
Proof.
  intros H. destruct reason as [module source]. cbn [Validation.visit].
  destruct (isChecked v _ source); [exact H|].
  rewrite isChecked_validateReason. now apply isChecked_markChecked_mono.
Qed.

Lemma visit_marks node browser environment v module source :
  isChecked (visit node browser environment v (module, source))
    (default "undefined" (userRequest module)) source = true.
Proof.
  cbn [Validation.visit].
  destruct (isChecked v _ source) eqn:Halready; [exact Halready|].
  rewrite isChecked_validateReason. apply isChecked_markChecked_same.
Qed.

Lemma visits_mono node browser environment reasons v r s :
  isChecked v r s = true ->
  isChecked (fold_left (visit node browser environment) reasons v) r s = true.
Proof.
  revert v. induction reasons as [|reason reasons IH]; intros v H; cbn [fold_left].
  - exact H.
  - apply IH. now apply visit_mono.
Qed.

Lemma visits_mark node browser environment reasons v module source :
  In (module, source) reasons ->
  isChecked (fold_left (visit node browser environment) reasons v)
    (default "undefined" (userRequest module)) source = true.
Proof.
  revert v. induction reasons as [|reason reasons IH]; intros v Hin; [destruct Hin|].
  cbn [fold_left]. destruct Hin as [->|Hin].
  - apply visits_mono, visit_marks.
  - now apply IH.
Qed.

Lemma visits_checked node browser environment reasons v :
  (forall module source,
     In (module, source) reasons ->
     isChecked v (default "undefined" (userRequest module)) source = true) ->
  fold_left (visit node browser environment) reasons v = v.
Proof.
  induction reasons as [|[module source] reasons IH]; intros Hall; cbn [fold_left].
  - reflexivity.
  - assert (Hvisit : visit node browser environment v (module, source) = v).
    { cbn [Validation.visit]. now rewrite (Hall module source (or_introl eq_refl)). }
    rewrite Hvisit. apply IH. intros m s Hin. apply Hall. now right.
Qed.

Lemma validate_visits node links v browser environment module :
  validate node links v (Some browser) (Some environment) (Some module)
  = if JS.IsNil (userRequest module) then v
    else fold_left (visit node browser environment)
                   (resolveReasons node links browser environment module) v.
Proof.
  unfold validate. destruct (JS.IsNil _); [reflexivity|].
  apply fold_left_pointwise. intros v0 [m s]. reflexivity.
Qed.

End CheckedFacts.

(** X4.  Validating the same compiled module again changes nothing: every
    (request, source) pair reached the first time is marked as checked, and
    a checked pair is skipped. *)
Theorem validate_twice (node : Node.t) (links : Validator.Links) (v : Validator.t)
    (browser : option Browser.t) (environment : option Environment.t)
    (module : option WebpackModule) :
  Validator.validate node links
    (Validator.validate node links v browser environment module)
    browser environment module
  = Validator.validate node links v browser environment module.
Proof.
  destruct browser as [b|], environment as [e|], module as [m|]; try reflexivity.
  rewrite !validate_visits.
  destruct (JS.IsNil (userRequest m)); [reflexivity|].
  apply visits_checked. intros module source Hin. now apply visits_mark.
Qed.

(** ** The link registry: locality *)

Section RegistryFacts.

Lemma links_get_set_other (links : Validator.Links) (b e target source b' e' : string) :
  (b, e) <> (b', e') ->
  Validator.links_get (Validator.links_set links b e target source) b' e'
  = Validator.links_get links b' e'.
Proof.
  intros Hne. unfold Validator.links_get, Validator.links_set, Validator.Links in *.
  destruct (decide (b = b')) as [<-|Hb].
  - rewrite lookup_insert_eq.
    assert (He : e <> e') by congruence.
    rewrite lookup_insert_ne by exact He.
    destruct (links !! b) as [per_env|]; cbn [default from_option id]; [reflexivity|].
    apply lookup_empty.
  - now rewrite lookup_insert_ne by exact Hb.
Qed.

Lemma linkOf_set (links : Validator.Links) (b e target source b' e' target' : string) :
  Registry.linkOf (Validator.links_set links b e target source) b' e' target'
  = if decide ((b, e, target) = (b', e', target')) then Some source
    else Registry.linkOf links b' e' target'.
Proof.
  unfold Registry.linkOf.
  destruct (decide ((b, e) = (b', e'))) as [[= <- <-]|Hpair].
  - rewrite links_get_set.
    destruct (decide (target = target')) as [<-|Htarget].
    + rewrite dict_get_set_eq. now rewrite decide_True.
    + rewrite dict_get_set_ne by exact Htarget.
      rewrite decide_False by congruence.
      now destruct (Validator.links_get links b e).
  - rewrite links_get_set_other by exact Hpair.
    rewrite decide_False by congruence. reflexivity.
Qed.

Lemma append_assoc (a b c : string) : (a +:+ b) +:+ c = a +:+ b +:+ c.
Proof.
  induction a as [|x a IH]; [reflexivity|].
  rewrite !append_cons. now rewrite IH.
Qed.

End RegistryFacts.

(** X5.  A registration touches one link at most: whatever its outcome, the
    links of every other browser, environment or target are as before, and
    the link of its own target is either the new source or what it was.  A
    source that parses to an internal module registers nothing and writes
    nothing but what [parseDependency] warned of. *)
Theorem registerLink_touches_one_link (node : Node.t) (links links' : Validator.Links)
    (browser : Browser.t) (environment : Environment.t) (source target : string)
    (logged : list LogEntry) :
  Validator.registerLink node links browser environment source target
  = Return (links', logged) ->
  (forall b e t,
     (Browser.name browser, Environment.name environment, target) <> (b, e, t) ->
     Registry.linkOf links' b e t = Registry.linkOf links b e t)
  /\ (Registry.linkOf links' (Browser.name browser) (Environment.name environment) target
      = Some source
      \/ links' = links)
  /\ (forall dep warned,
        Validator.parseDependency node source = Return (Some dep, warned) ->
        JS.indexOf (Dep.name dep) Validator.ModuleScope = 0%Z ->
        links' = links /\ logged = warned).
Proof.
  unfold Validator.registerLink.
  destruct (Validator.parseDependency node source) as [[[dep|] warned]|];
    [|discriminate|intros [= <- <-]; split; [auto|split; [auto|discriminate]]].
  destruct (Z.eqb_spec (JS.indexOf (Dep.name dep) Validator.ModuleScope) 0)
    as [Hscope|Hscope].
  { intros [= <- <-]. split; [auto|]. split; [auto|]. intros ? ? [= <- <-]. auto. }
  match goal with |- context [if ?c then _ else _] => destruct c end.
  { intros [= <- <-]. split; [auto|]. split; [auto|]. intros ? ? [= <- <-].
    contradiction. }
  intros [= <- <-]. split; [|split].
  - intros b e t Hne. rewrite linkOf_set. now rewrite decide_False.
  - left. rewrite linkOf_set. now rewrite decide_True.
  - intros ? ? [= <- <-]. contradiction.
Qed.

Lemma registerLink_touches_one_link_witness :
  Validator.registerLink Examples.emptyDisk ∅ Examples.chrome Examples.production
    "/work/node_modules/x" "/modules/x"
  = Return (Validator.links_set ∅ "chrome" "production" "/modules/x"
              "/work/node_modules/x",
            [(Info, RegisteredLink "/work/node_modules/x" "/modules/x")])
  /\ Registry.linkOf
       (Validator.links_set ∅ "chrome" "production" "/modules/x" "/work/node_modules/x")
       "chrome" "development" "/modules/x"
     = None.
Proof.
  assert (H : Validator.registerLink Examples.emptyDisk ∅ Examples.chrome
                Examples.production "/work/node_modules/x" "/modules/x"
              = Return (Validator.links_set ∅ "chrome" "production" "/modules/x"
                          "/work/node_modules/x",
                        [(Info, RegisteredLink "/work/node_modules/x" "/modules/x")])).
  { apply (registerLink_fresh Examples.emptyDisk Examples.chrome Examples.production
             "/work/node_modules/x" "/modules/x"
             {| Dep.name := "/work/node_modules/x"; Dep.path := None |} []).
    - reflexivity.
    - vm_compute. discriminate. }
  split; [exact H|].
  destruct (registerLink_touches_one_link _ _ _ _ _ _ _ _ H) as [Hframe _].
  rewrite (Hframe "chrome" "development" "/modules/x") by discriminate.
  reflexivity.
Defined.

(** X6.  [resolveLink] rewrites at most once.  It returns the path itself
    when no registered target occurs in it; otherwise it takes the first
    registered target that occurs in the path and returns the registered
    source followed by what comes after the target, dropping whatever
    preceded the target. *)
Theorem resolveLink_rewrites_once (links : Validator.Links) (browser : Browser.t)
    (environment : Environment.t) (path : string) :
  let entries :=
    default [] (Validator.links_get links (Browser.name browser)
                  (Environment.name environment)) in
  Validator.resolveLink links browser environment None = None
  /\ exists result,
       Validator.resolveLink links browser environment (Some path) = Some result
       /\ ((result = path
            /\ forall target source, In (target, source) entries ->
                                     ~ Text.occurs target path)
           \/ exists skipped target source rest before after,
                entries = skipped ++ (target, source) :: rest
                /\ (forall t s, In (t, s) skipped -> ~ Text.occurs t path)
                /\ path = before +:+ target +:+ after
                /\ result = source +:+ after).
Proof.
  intros entries. split; [reflexivity|].
  unfold Validator.resolveLink. fold entries. eexists. split; [reflexivity|].
  induction entries as [|[target source] rest IH]; cbn [Validator.resolveLink_each].
  - left. split; [reflexivity|]. intros ? ? [].
  - destruct (Z.ltb_spec (JS.indexOf path target) 0) as [Habsent|Hfound].
    + assert (Hnot : ~ Text.occurs target path)
        by (intros Hocc%indexOf_occurs; lia).
      destruct IH as [[Hsame Hnone]|
                      (skipped & t & s & rest' & before & after & -> & Hskip & Hpath & Hres)].
      * left. split; [exact Hsame|].
        intros t s [[= <- <-]|Hin]; [exact Hnot|eauto].
      * right. exists ((target, source) :: skipped), t, s, rest', before, after.
        split; [reflexivity|]. split; [|auto].
        intros t' s' [[= <- <-]|Hin]; [exact Hnot|eauto].
    + right. destruct (indexOf_decomposes path target Hfound)
        as (before & after & Hpath & Hindex).
      exists [], target, source, rest, before, after.
      split; [reflexivity|]. split; [intros ? ? []|]. split; [exact Hpath|].
      rewrite Hindex. f_equal.
      rewrite Hpath at 1. rewrite <- append_assoc, <- Nat2Z.inj_add, <- length_app.
      apply substringFrom_suffix.
Qed.
(** ** Dependency versions: what an update changes *)

Section UpdateResults.

Import Package PackageSteps.

Context {Rest : Type}.

Implicit Types (pkg : Manifest Rest) (versions : gmap string Requested)
  (formatVersion : Formatter) (declared : gmap string string).

(** What a guarded assignment that went through has changed. *)
Lemma step_effect versions formatVersion pkg pkg1 g :
  step versions formatVersion pkg g = Return pkg1 ->
  match group pkg g with
  | None => group pkg1 g = None
  | Some declared =>
      exists updated,
        group pkg1 g = Some updated
        /\ (declared = ∅ -> updated = ∅)
        /\ (forall name old,
              declared !! name = Some old ->
              match versions !! name with
              | None => updated !! name = Some old
              | Some dep =>
                  exists wanted,
                    versionOf dep = Some wanted
                    /\ updated !! name = Some (formatVersion wanted name g)
              end)
        /\ (forall name,
              declared !! name = None ->
              JS.inherited name = false \/ versions !! name = None ->
              updated !! name = None)
        /\ (forall name dep,
              declared <> ∅ -> declared !! name = None -> JS.inherited name = true ->
              versions !! name = Some dep ->
              exists wanted,
                versionOf dep = Some wanted
                /\ updated !! name = Some (formatVersion wanted name g))
  end.
Proof.
  intros Hstep. pose proof (step_spec versions formatVersion pkg g) as Hspec.
  destruct (group pkg g) as [declared|] eqn:Hgroup.
  2:{ rewrite Hstep in Hspec. injection Hspec as ->. exact Hgroup. }
  destruct (decide (declared = ∅)) as [->|Hne].
  { rewrite Hstep in Hspec. injection Hspec as ->. exists ∅.
    split; [exact Hgroup|]. split; [auto|]. split; [|split].
    - intros name old Hold. rewrite lookup_empty in Hold. discriminate.
    - intros. apply lookup_empty.
    - intros name dep Hne. now destruct Hne. }
  destruct Hspec as [[Hthrow _]|(updated & Hreturn & Hlisted & Hother)];
    [congruence|].
  rewrite Hstep in Hreturn. injection Hreturn as ->.
  exists updated. split; [apply group_assign_same|]. split; [contradiction|].
  split; [|split].
  - intros name old Hold.
    destruct (versions !! name) as [dep|] eqn:Hdep.
    + apply (Hlisted name dep Hdep). eapply found_declared, Hold.
    + rewrite <- Hold. apply Hother. now left.
  - intros name Hname Hcase. rewrite <- Hname. apply Hother.
    destruct Hcase as [Hplain|Hunlisted]; [right|now left].
    apply found_false. auto.
  - intros name dep _ Hname Hinherited Hdep. apply (Hlisted name dep Hdep).
    apply found_spec. now right.
Qed.

(** When a guarded assignment throws. *)
Lemma step_throws versions formatVersion pkg g :
  throws (step versions formatVersion pkg g) = true
  <-> exists declared name dep,
        group pkg g = Some declared /\ declared <> ∅
        /\ (is_Some (declared !! name) \/ JS.inherited name = true)
        /\ versions !! name = Some dep
        /\ versionOf dep = None.
Proof.
  pose proof (step_spec versions formatVersion pkg g) as Hspec.
  destruct (group pkg g) as [declared|] eqn:Hgroup.
  2:{ rewrite Hspec. cbn [throws]. split; [discriminate|].
      intros (? & ? & ? & [=] & _). }
  destruct (decide (declared = ∅)) as [->|Hne].
  { rewrite Hspec. cbn [throws]. split; [discriminate|].
    intros (? & ? & ? & [= <-] & Hne & _). now destruct Hne. }
  destruct Hspec as [[-> (name & dep & Hfound & Hdep & Hnil)]
                    |(updated & -> & Hlisted & _)]; cbn [throws].
  - split; [|reflexivity]. intros _. exists declared, name, dep.
    apply found_spec in Hfound. auto.
  - split; [discriminate|].
    intros (? & name & dep & [= <-] & _ & Hfound%found_spec & Hdep & Hnil).
    destruct (Hlisted name dep Hdep Hfound) as (wanted & Hwanted & _). congruence.
Qed.

End UpdateResults.

(** What an update changes. *)
Lemma updatePackage_effect {Rest : Type} (pkg pkg' : Package.Manifest Rest)
    (versions : option (gmap string Package.Requested))
    (options : option Package.Formatter) :
  Package.updatePackage pkg versions options = Return pkg' ->
  Package.rest pkg' = Package.rest pkg
  /\ forall g,
       match Package.group pkg g with
       | None => Package.group pkg' g = None
       | Some declared =>
           exists updated,
             Package.group pkg' g = Some updated
             /\ (declared = ∅ -> updated = ∅)
             /\ (forall name old,
                   declared !! name = Some old ->
                   match default ∅ versions !! name with
                   | None => updated !! name = Some old
                   | Some dep =>
                       exists wanted,
                         Package.versionOf dep = Some wanted
                         /\ updated !! name
                            = Some (default Package.defaultFormatVersion options
                                      wanted name g)
                   end)
             /\ (forall name,
                   declared !! name = None ->
                   JS.inherited name = false \/ default ∅ versions !! name = None ->
                   updated !! name = None)
             /\ (forall name dep,
                   declared <> ∅ -> declared !! name = None ->
                   JS.inherited name = true ->
                   default ∅ versions !! name = Some dep ->
                   exists wanted,
                     Package.versionOf dep = Some wanted
                     /\ updated !! name
                        = Some (default Package.defaultFormatVersion options
                                  wanted name g))
       end.
Proof.
  rewrite updatePackage_steps.
  set (vs := default ∅ versions).
  set (fmt := default Package.defaultFormatVersion options).
  destruct (PackageSteps.step vs fmt pkg Package.Dependencies) as [pkg1|] eqn:Hfirst;
    [|discriminate].
  intros Hsecond.
  destruct (step_frame vs fmt pkg pkg1 _ Hfirst) as [Hrest1 Hframe1].
  destruct (step_frame vs fmt pkg1 pkg' _ Hsecond) as [Hrest2 Hframe2].
  split; [congruence|]. intros [|].
  - rewrite (Hframe2 Package.Dependencies) by discriminate.
    exact (step_effect vs fmt pkg pkg1 _ Hfirst).
  - rewrite <- (Hframe1 Package.PeerDependencies) by discriminate.
    exact (step_effect vs fmt pkg1 pkg' _ Hsecond).
Qed.

(** When an update throws. *)
Lemma updatePackage_throws {Rest : Type} (pkg : Package.Manifest Rest)
    (versions : option (gmap string Package.Requested))
    (options : option Package.Formatter) :
  throws (Package.updatePackage pkg versions options) = true
  <-> exists g declared name dep,
        Package.group pkg g = Some declared
        /\ declared <> ∅
        /\ (is_Some (declared !! name) \/ JS.inherited name = true)
        /\ default ∅ versions !! name = Some dep
        /\ Package.versionOf dep = None.
Proof.
  rewrite updatePackage_steps.
  set (vs := default ∅ versions).
  set (fmt := default Package.defaultFormatVersion options).
  pose proof (step_throws vs fmt pkg Package.Dependencies) as Hfirst.
  destruct (PackageSteps.step vs fmt pkg Package.Dependencies) as [pkg1|e] eqn:Hstep.
  - cbn [throws] in Hfirst.
    destruct (step_frame vs fmt pkg pkg1 _ Hstep) as [_ Hframe].
    specialize (Hframe Package.PeerDependencies ltac:(discriminate)).
    rewrite step_throws, Hframe. split.
    + intros (declared & name & dep & H). exists Package.PeerDependencies. eauto.
    + intros ([|] & declared & name & dep & H).
      * exfalso. assert (false = true); [|discriminate]. apply Hfirst. eauto.
      * eauto.
  - cbn [throws] in *. split; [|reflexivity]. intros _.
    destruct (proj1 Hfirst eq_refl) as (declared & name & dep & H).
    exists Package.Dependencies. eauto.
Qed.

(** X7.  An update that goes through is selective: it leaves everything
    but the two collections alone and never removes a name; a name that
    [versions] does not list keeps what it had; a name that [versions] lists
    gets the formatted version given there when [dependencies[name]] finds
    something in a collection that is not empty, be it a declaration or a
    member every object inherits (the keys that lodash may refuse are left
    out of this).  So a name is added in one case only, that of an inherited
    member: any other undeclared name stays absent, and an empty collection
    stays empty. *)
Theorem updatePackage_selective {Rest : Type} (pkg pkg' : Package.Manifest Rest)
    (versions : option (gmap string Package.Requested))
    (options : option Package.Formatter) :
  Package.updatePackage pkg versions options = Return pkg' ->
  Package.rest pkg' = Package.rest pkg
  /\ forall g,
       match Package.group pkg g with
       | None => Package.group pkg' g = None
       | Some declared =>
           exists updated,
             Package.group pkg' g = Some updated
             /\ (declared = ∅ -> updated = ∅)
             /\ (forall name, is_Some (declared !! name) -> is_Some (updated !! name))
             /\ (forall name,
                   default ∅ versions !! name = None ->
                   updated !! name = declared !! name)
             /\ (forall name dep,
                   default ∅ versions !! name = Some dep ->
                   JS.refused name = false ->
                   declared <> ∅ ->
                   is_Some (declared !! name) \/ JS.inherited name = true ->
                   exists wanted,
                     Package.versionOf dep = Some wanted
                     /\ updated !! name
                        = Some (default Package.defaultFormatVersion options
                                  wanted name g))
             /\ (forall name,
                   declared !! name = None -> JS.inherited name = false ->
                   updated !! name = None)
       end.
Proof.
  intros [Hrest Hgroups]%updatePackage_effect. split; [exact Hrest|].
  intros g. specialize (Hgroups g).
  destruct (Package.group pkg g) as [declared|]; [|exact Hgroups].
  destruct Hgroups as (updated & Hgroup & Hempty & Hdeclared & Habsent & Hinherited).
  exists updated. split; [exact Hgroup|]. split; [exact Hempty|].
  split; [|split; [|split]].
  - intros name [old Hold]. specialize (Hdeclared name old Hold).
    destruct (default ∅ versions !! name) as [dep|]; [|eauto].
    destruct Hdeclared as (wanted & _ & ->). eauto.
  - intros name Hunlisted.
    destruct (declared !! name) as [old|] eqn:Hold.
    + specialize (Hdeclared name old Hold). now rewrite Hunlisted in Hdeclared.
    + apply Habsent; auto.
  - intros name dep Hdep _ Hne [[old Hold]|Hmember].
    + specialize (Hdeclared name old Hold). now rewrite Hdep in Hdeclared.
    + destruct (declared !! name) as [old|] eqn:Hold.
      * specialize (Hdeclared name old Hold). now rewrite Hdep in Hdeclared.
      * now apply (Hinherited name dep).
  - intros name Hname Hplain. apply Habsent; auto.
Qed.

Lemma updatePackage_selective_witness :
  Package.updatePackage Examples.chromeManifest
    (Some {[ "lodash" := Package.Literal (Some "2.0.0") ]}) None
  = Return {| Package.dependencies := Some {[ "lodash" := "2.0.0" ]};
              Package.peerDependencies := None;
              Package.rest := "radon-extension-chrome" |}
  /\ Package.rest
       {| Package.dependencies := Some {[ "lodash" := "2.0.0" ]};
          Package.peerDependencies := None;
          Package.rest := "radon-extension-chrome" |}
     = Package.rest Examples.chromeManifest.
Proof.
  assert (H : Package.updatePackage Examples.chromeManifest
                (Some {[ "lodash" := Package.Literal (Some "2.0.0") ]}) None
              = Return {| Package.dependencies := Some {[ "lodash" := "2.0.0" ]};
                          Package.peerDependencies := None;
                          Package.rest := "radon-extension-chrome" |})
    by (vm_compute; reflexivity).
  split; [exact H|].
  exact (proj1 (updatePackage_selective _ _ _ _ H)).
Defined.

(** X8.  When [updatePackage] throws, [versions] gives no version (a null
    entry, or an object without [version]) for a name that
    [dependencies[name]] finds in one of the two collections, the collection
    not being empty: a name the collection declares, or the name of a member
    every object inherits.  Conversely every such entry makes it throw,
    unless its name is a key that lodash may refuse. *)
Theorem updatePackage_throws_iff {Rest : Type} (pkg : Package.Manifest Rest)
    (versions : option (gmap string Package.Requested))
    (options : option Package.Formatter) :
  (throws (Package.updatePackage pkg versions options) = true ->
   exists g declared name dep,
     Package.group pkg g = Some declared
     /\ declared <> ∅
     /\ (is_Some (declared !! name) \/ JS.inherited name = true)
     /\ default ∅ versions !! name = Some dep
     /\ Package.versionOf dep = None)
  /\ (forall g declared name dep,
        Package.group pkg g = Some declared ->
        declared <> ∅ ->
        is_Some (declared !! name) \/ JS.inherited name = true ->
        JS.refused name = false ->
        default ∅ versions !! name = Some dep ->
        Package.versionOf dep = None ->
        throws (Package.updatePackage pkg versions options) = true).
Proof.
  split.
  - apply updatePackage_throws.
  - intros g declared name dep Hgroup Hne Hfound _ Hdep Hnil.
    apply updatePackage_throws. eauto 10.
Qed.

(** An entry of [versions] without a version for a name no collection
    declares: the update throws all the same when the name is that of a
    member every object inherits. *)
Example updatePackage_throws_on_inherited_name :
  Package.updatePackage Examples.chromeManifest
    (Some (<["toString" := Package.Literal None]> (∅ : gmap string Package.Requested)))
    None
  = Throw Package.InvalidVersion.
Proof. vm_compute. reflexivity. Qed.

(** X9.  With the default formatter an update is idempotent: updating the
    result again with the same versions returns it unchanged. *)
Theorem updatePackage_idempotent {Rest : Type} (pkg pkg' : Package.Manifest Rest)
    (versions : option (gmap string Package.Requested)) :
  Package.updatePackage pkg versions None = Return pkg' ->
  Package.updatePackage pkg' versions None = Return pkg'.
Proof. exact (updatePackage_twice pkg pkg' versions None). Qed.

Lemma updatePackage_idempotent_witness :
  Package.updatePackage Examples.chromeManifest
    (Some {[ "lodash" := Package.Literal (Some "2.0.0") ]}) None
  = Return {| Package.dependencies := Some {[ "lodash" := "2.0.0" ]};
              Package.peerDependencies := None;
              Package.rest := "radon-extension-chrome" |}
  /\ Package.updatePackage
       {| Package.dependencies := Some {[ "lodash" := "2.0.0" ]};
          Package.peerDependencies := None;
          Package.rest := "radon-extension-chrome" |}
       (Some {[ "lodash" := Package.Literal (Some "2.0.0") ]}) None
     = Return {| Package.dependencies := Some {[ "lodash" := "2.0.0" ]};
                 Package.peerDependencies := None;
                 Package.rest := "radon-extension-chrome" |}.
Proof.
  assert (H : Package.updatePackage Examples.chromeManifest
                (Some {[ "lodash" := Package.Literal (Some "2.0.0") ]}) None
              = Return {| Package.dependencies := Some {[ "lodash" := "2.0.0" ]};
                          Package.peerDependencies := None;
                          Package.rest := "radon-extension-chrome" |})
    by (vm_compute; reflexivity).
  split; [exact H|].
  exact (updatePackage_idempotent _ _ _ H).
Defined.

(** X10.  Writing is stable: when the JSON codec parses back the manifest
    a write prints, a [writePackage] that follows a [writePackage] with the
    same versions (and the default formatter) reports no change and leaves
    the disk as the first one left it.  The first one changes at most the
    manifest file, and nothing at all when it reports no change. *)
Theorem writePackage_twice {Rest : Type} `{EqDecision Rest}
    (json : Package.Json Rest) (Path_join : string -> string -> string)
    (disk disk1 : Package.Disk) (path : string)
    (versions : option (gmap string Package.Requested)) (changed : bool) :
  (forall data previous current EOL,
     Package.files disk
       !! (if bool_decide (path ∈ Package.directories disk)
           then Path_join path "package.json" else path) = Some data ->
     Package.JSON_parse json data = Some previous ->
     Package.updatePackage previous versions None = Return current ->
     Package.JSON_parse json (Package.stringify json current EOL) = Some current) ->
  Package.writePackage json Path_join disk path versions None
  = Return (disk1, Resolved changed) ->
  Package.writePackage json Path_join disk1 path versions None
  = Return (disk1, Resolved false)
  /\ (changed = false -> disk1 = disk)
  /\ Package.directories disk1 = Package.directories disk
  /\ forall other,
       other <> (if bool_decide (path ∈ Package.directories disk)
                 then Path_join path "package.json" else path) ->
       Package.files disk1 !! other = Package.files disk !! other.
Proof.
  intros Hcodec. unfold Package.writePackage at 1.
  destruct (negb _ && negb _) eqn:Hstat; [discriminate|].
  set (file := if bool_decide (path ∈ Package.directories disk)
               then Path_join path "package.json" else path) in *.
  destruct (Package.files disk !! file) as [data|] eqn:Hdata; [|discriminate].
  destruct (Package.JSON_parse json data) as [previous|] eqn:Hparse; [|discriminate].
  destruct (Package.updatePackage previous versions None) as [current|] eqn:Hupdate;
    [|discriminate].
  specialize (Hcodec data previous current).
  destruct (bool_decide (previous = current)) eqn:Hequal.
  - intros [= <- <-]. split; [|auto].
    unfold Package.writePackage. rewrite Hstat. fold file.
    now rewrite Hdata, Hparse, Hupdate, Hequal.
  - intros [= <- <-]. cbn [Package.directories Package.files].
    split; [|split; [discriminate|split; [reflexivity|]]].
    + unfold Package.writePackage. cbn [Package.directories Package.files].
      fold file.
      set (printed := Package.stringify json current
                        (if (0 <=? JS.indexOf data Package.CRLF)%Z
                         then Package.CRLF else Package.LF)).
      assert (Hfile : <[file := printed]> (Package.files disk) !! file = Some printed)
        by apply lookup_insert_eq.
      assert (Hstat' :
        negb (bool_decide (path ∈ Package.directories disk))
        && negb (bool_decide
                   (is_Some (<[file := printed]> (Package.files disk) !! path)))
        = false).
      { destruct (bool_decide (path ∈ Package.directories disk)) eqn:Hdir;
          [reflexivity|].
        subst file. cbn [negb andb]. rewrite Hfile.
        now rewrite bool_decide_eq_true_2 by eauto. }
      rewrite Hstat', Hfile. unfold printed.
      rewrite (Hcodec _ eq_refl Hparse Hupdate).
      rewrite (updatePackage_twice previous current versions None Hupdate).
      now rewrite bool_decide_eq_true_2.
    + intros other Hother. now apply lookup_insert_ne.
Qed.

Lemma writePackage_twice_witness :
  Package.writePackage Samples.twoDocuments (fun a b => a +:+ "/" +:+ b)
    Examples.workDisk "/work"
    (Some {[ "lodash" := Package.Literal (Some "2.0.0") ]}) None
  = Return (Samples.updatedDisk, Resolved true)
  /\ Package.writePackage Samples.twoDocuments (fun a b => a +:+ "/" +:+ b)
       Samples.updatedDisk "/work"
       (Some {[ "lodash" := Package.Literal (Some "2.0.0") ]}) None
     = Return (Samples.updatedDisk, Resolved false).
Proof.
  assert (H : Package.writePackage Samples.twoDocuments (fun a b => a +:+ "/" +:+ b)
                Examples.workDisk "/work"
                (Some {[ "lodash" := Package.Literal (Some "2.0.0") ]}) None
              = Return (Samples.updatedDisk, Resolved true))
    by (vm_compute; reflexivity).
  split; [exact H|].
  apply (writePackage_twice Samples.twoDocuments (fun a b => a +:+ "/" +:+ b)
           Examples.workDisk Samples.updatedDisk "/work"
           (Some {[ "lodash" := Package.Literal (Some "2.0.0") ]}) true);
    [|exact H].
  intros data previous current EOL Hdata Hparse Hupdate.
  vm_compute in Hdata. injection Hdata as <-.
  vm_compute in Hparse. injection Hparse as <-.
  vm_compute in Hupdate. injection Hupdate as <-.
  vm_compute. reflexivity.
Defined.

(** ** Module lists *)

Section OrderFacts.

Import PackageModules.

Lemma includes_In (l : list string) (x : string) : JS.includes l x = true <-> In x l.
Proof.
  unfold JS.includes. rewrite existsb_exists. split.
  - intros (y & Hin & Heq). apply String.eqb_eq in Heq. now subst.
  - intros Hin. exists x. split; [exact Hin|apply String.eqb_refl].
Qed.

Lemma includes_false (l : list string) (x : string) :
  JS.includes l x = false <-> ~ In x l.
Proof.
  rewrite <- includes_In. destruct (JS.includes l x); split; congruence.
Qed.

Lemma priority_fold (modules names acc : list string) :
  fold_left
    (fun result name =>
       if negb (JS.includes modules name) then result else result ++ [name])
    names acc
  = acc ++ List.filter (JS.includes modules) names.
Proof.
  revert acc. induction names as [|name names IH]; intros acc;
    cbn [fold_left List.filter].
  - now rewrite app_nil_r.
  - rewrite IH. destruct (JS.includes modules name); cbn [negb]; [|reflexivity].
    now rewrite <- app_assoc.
Qed.

(** The result is the priority names that are present, then the other
    names as they came. *)
Lemma orderModules_filters (modules : list string) :
  orderModules modules
  = List.filter (JS.includes modules) Priority
    ++ List.filter (fun x => negb (JS.includes Priority x)) modules.
Proof.
  unfold orderModules, without. rewrite priority_fold. cbn [app]. f_equal.
  apply filter_ext_in. intros x Hx. f_equal.
  destruct (JS.includes Priority x) eqn:Hp.
  - apply includes_In. apply filter_In. split; [now apply includes_In|].
    now apply includes_In.
  - apply includes_false. intros [Hin _]%filter_In.
    apply includes_In in Hin. congruence.
Qed.

Lemma orderModules_In (modules : list string) (x : string) :
  In x (orderModules modules) <-> In x modules.
Proof.
  rewrite orderModules_filters, in_app_iff, !filter_In, includes_In.
  destruct (JS.includes Priority x) eqn:Hp; cbn [negb].
  - apply includes_In in Hp. intuition congruence.
  - intuition congruence.
Qed.

Lemma NoDup_filter_list {A : Type} (f : A -> bool) (l : list A) :
  NoDup l -> NoDup (List.filter f l).
Proof.
  induction 1 as [|x l Hx Hl IH]; cbn [List.filter]; [constructor|].
  destruct (f x); [|exact IH]. constructor; [|exact IH].
  rewrite list_elem_of_In in Hx |- *. intros [Hin _]%filter_In. auto.
Qed.

Lemma filter_none {A : Type} (f : A -> bool) (l : list A) :
  (forall x, In x l -> f x = false) -> List.filter f l = [].
Proof.
  induction l as [|x l IH]; intros H; cbn [List.filter]; [reflexivity|].
  rewrite (H x (or_introl eq_refl)). apply IH. intros y Hy. apply H. now right.
Qed.

Lemma filter_again {A : Type} (f : A -> bool) (l : list A) :
  List.filter f (List.filter f l) = List.filter f l.
Proof.
  induction l as [|x l IH]; cbn [List.filter]; [reflexivity|].
  destruct (f x) eqn:Hx; cbn [List.filter]; [rewrite Hx|]; now rewrite IH.
Qed.

Lemma NoDup_Priority : NoDup Priority.
Proof.
  unfold Priority. repeat constructor; rewrite list_elem_of_In; cbn;
    intuition discriminate.
Qed.

End OrderFacts.

(** X11.  [orderModules] puts the priority modules that are present first,
    in the fixed order build, framework, core, and keeps the other names in
    the order they came in.  It neither adds nor drops a name, ordering an
    ordered list changes nothing, and a list without repetitions is only
    permuted. *)
Theorem orderModules_spec (modules : list string) :
  PackageModules.orderModules modules
  = List.filter (JS.includes modules) PackageModules.Priority
    ++ List.filter (fun x => negb (JS.includes PackageModules.Priority x)) modules
  /\ (forall x, In x (PackageModules.orderModules modules) <-> In x modules)
  /\ PackageModules.orderModules (PackageModules.orderModules modules)
     = PackageModules.orderModules modules
  /\ (NoDup modules -> Permutation modules (PackageModules.orderModules modules)).
Proof.
  split; [apply orderModules_filters|]. split; [apply orderModules_In|]. split.
  - rewrite (orderModules_filters (PackageModules.orderModules modules)).
    rewrite (orderModules_filters modules) at 3. f_equal.
    + apply filter_ext. intros p.
      destruct (JS.includes modules p) eqn:Hp.
      * apply includes_In, orderModules_In, includes_In, Hp.
      * apply includes_false. rewrite orderModules_In. now apply includes_false.
    + rewrite orderModules_filters, List.filter_app, filter_again.
      rewrite filter_none; [reflexivity|].
      intros x [Hx _]%filter_In. apply negb_false_iff. now apply includes_In.
  - intros Hnodup. apply NoDup_Permutation; [exact Hnodup| |].
    + rewrite orderModules_filters. apply NoDup_app. split; [|split].
      * apply NoDup_filter_list, NoDup_Priority.
      * intros x. rewrite !list_elem_of_In, !filter_In.
        intros [Hx _] [_ Hnot]. apply negb_true_iff, includes_false in Hnot. auto.
      * now apply NoDup_filter_list.
    + intros x. rewrite !list_elem_of_In. symmetry. apply orderModules_In.
Qed.

(** X12.  [getPackageModules] throws exactly when the package itself is
    not an internal module; otherwise it returns the internal names declared
    in [dependencies] or [peerDependencies], and nothing else. *)
Theorem getPackageModules_spec (pkg : PackageModules.PackageJson) :
  (throws (PackageModules.getPackageModules pkg) = true
   <-> PackageModules.isInternal (PackageModules.name pkg) = false)
  /\ forall names,
       PackageModules.getPackageModules pkg = Return names ->
       forall x,
         In x names
         <-> PackageModules.isInternal x = true
             /\ (In x (dict_keys (default [] (PackageModules.dependencies pkg)))
                 \/ In x (dict_keys (default [] (PackageModules.peerDependencies pkg)))).
Proof.
  unfold PackageModules.getPackageModules.
  destruct (PackageModules.isInternal (PackageModules.name pkg)); cbn [negb throws].
  - split; [split; discriminate|]. intros names [= <-] x.
    rewrite orderModules_In, filter_In, in_app_iff. tauto.
  - split; [tauto|]. discriminate.
Qed.

Example getPackageModules_example :
  PackageModules.getPackageModules
    {| PackageModules.name := "@radon-extension/chrome";
       PackageModules.dependencies :=
         Some [("lodash", "^4.17.5"); ("@radon-extension/core", "^1.0.0");
               ("@radon-extension/destination-lastfm", "^1.0.0")];
       PackageModules.peerDependencies :=
         Some [("@radon-extension/framework", "^1.0.0")] |}
  = Return ["@radon-extension/framework"; "@radon-extension/core";
            "@radon-extension/destination-lastfm"].
Proof. reflexivity. Qed.

(** ** Lock files *)

Section LockFacts.

Import PackageLocks.

Context {Extra Rest : Type}.

Implicit Types (locks current : Locks Extra Rest) (entry : Entry Extra)
  (versions : option (gmap string Package.Requested)) (options : option Formatter).

Lemma updateEntry_clears (requested : gmap string Package.Requested)
    (formatVersion : Formatter) (n : string) entry updated :
  updateEntry requested formatVersion n entry = Some updated ->
  integrity updated = None /\ extra updated = extra entry.
Proof.
  unfold updateEntry. intros H.
  destruct (requested !! n) as [r|]; [destruct (isNil r)|];
    [| destruct (Package.versionOf r) |]; try discriminate;
    injection H as <-; split; reflexivity.
Qed.

(** The entries after an update, name by name. *)
Lemma updatePackageLocks_lookup locks versions options current :
  updatePackageLocks locks versions options = Return current ->
  name current = name locks /\ rest current = rest locks
  /\ exists entries,
       dependencies current = Some entries
       /\ forall n,
            entries !! n
            = match default ∅ (dependencies locks) !! n with
              | Some entry =>
                  if PackageModules.isInternal n
                  then updateEntry (default ∅ versions)
                         (default defaultFormatVersion options) n entry
                  else Some entry
              | None => None
              end.
Proof.
  unfold updatePackageLocks.
  set (declared := default ∅ (dependencies locks)).
  set (P := fun e : string * Entry Extra => PackageModules.isInternal (fst e) = true).
  destruct (bool_decide _) eqn:Hall; [|discriminate].
  apply bool_decide_eq_true in Hall.
  intros [= <-]. cbn [name rest dependencies].
  split; [reflexivity|]. split; [reflexivity|].
  eexists. split; [reflexivity|]. intros n.
  rewrite (overlay_lookup P).
  destruct (declared !! n) as [entry|] eqn:Hn; [|reflexivity].
  destruct (decide (P (n, entry))) as [Hint|Hint]; unfold P in Hint; cbn [fst] in Hint.
  - rewrite Hint.
    assert (Hpicked : filter P declared !! n = Some entry).
    { apply map_lookup_filter_Some. split; [exact Hn|exact Hint]. }
    destruct (Hall n entry Hpicked) as [updated ->]. reflexivity.
  - apply not_true_is_false in Hint. rewrite Hint. reflexivity.
Qed.

Lemma updateEntry_None (requested : gmap string Package.Requested)
    (formatVersion : Formatter) (n : string) entry :
  updateEntry requested formatVersion n entry = None
  <-> exists origin, requested !! n = Some (Package.Described origin None).
Proof.
  unfold updateEntry. split.
  - destruct (requested !! n) as [[[v|]|origin [v|]]|]; cbn; try discriminate.
    intros _. now exists origin.
  - intros [origin ->]. reflexivity.
Qed.

Lemma updateEntry_again (requested : gmap string Package.Requested)
    (formatVersion : Formatter) (n : string) entry updated :
  updateEntry requested formatVersion n entry = Some updated ->
  updateEntry requested formatVersion n updated = Some updated.
Proof.
  unfold updateEntry.
  destruct (requested !! n) as [[[v|]|origin [v|]]|]; cbn; try discriminate;
    intros [= <-]; reflexivity.
Qed.

Lemma updatePackageLocks_throws locks versions options :
  throws (updatePackageLocks locks versions options) = true
  <-> exists n entry origin,
        default ∅ (dependencies locks) !! n = Some entry
        /\ PackageModules.isInternal n = true
        /\ default ∅ versions !! n = Some (Package.Described origin None).
Proof.
  unfold updatePackageLocks.
  set (declared := default ∅ (dependencies locks)).
  set (P := fun e : string * Entry Extra => PackageModules.isInternal (fst e) = true).
  destruct (bool_decide _) eqn:Hall; cbn [throws].
  - apply bool_decide_eq_true in Hall. split; [discriminate|].
    intros (n & entry & origin & Hn & Hint & Hv). exfalso.
    assert (Hpicked : filter P declared !! n = Some entry).
    { apply map_lookup_filter_Some. split; [exact Hn|exact Hint]. }
    destruct (Hall n entry Hpicked) as [updated Hupdated].
    assert (Hnone : updateEntry (default ∅ versions)
                      (default defaultFormatVersion options) n entry = None)
      by (apply updateEntry_None; eauto).
    congruence.
  - split; [intros _|reflexivity].
    apply bool_decide_eq_false, map_not_Forall in Hall
      as (n & entry & Hpicked & Hnone); [|solve_decision].
    apply map_lookup_filter_Some in Hpicked as [Hn Hint]. cbn [fst] in Hint.
    destruct (updateEntry _ _ n entry) as [updated|] eqn:Hupdate;
      [exfalso; apply Hnone; eauto|].
    apply updateEntry_None in Hupdate as [origin Hv].
    exists n, entry, origin. auto.
Qed.

(** The top-level version after an update. *)
Lemma updatePackageLocks_version locks versions options current :
  updatePackageLocks locks versions options = Return current ->
  lockVersion current = topVersion (default ∅ versions) locks.
Proof.
  unfold updatePackageLocks. destruct (bool_decide _); [|discriminate].
  intros [= <-]. reflexivity.
Qed.

Lemma Locks_eq locks current :
  name locks = name current -> lockVersion locks = lockVersion current ->
  dependencies locks = dependencies current -> rest locks = rest current ->
  locks = current.
Proof. destruct locks, current; cbn. congruence. Qed.

Lemma updatePackageLocks_again locks versions options current :
  updatePackageLocks locks versions options = Return current ->
  updatePackageLocks current versions options = Return current.
Proof.
  intros Hfirst.
  destruct (updatePackageLocks_lookup _ _ _ _ Hfirst)
    as (Hname & Hrest & entries & Hentries & Hlookup).
  pose proof (updatePackageLocks_version _ _ _ _ Hfirst) as Hversion.
  destruct (updatePackageLocks current versions options) as [again|e] eqn:Hsecond.
  - f_equal.
    destruct (updatePackageLocks_lookup _ _ _ _ Hsecond)
      as (Hname' & Hrest' & entries' & Hentries' & Hlookup').
    pose proof (updatePackageLocks_version _ _ _ _ Hsecond) as Hversion'.
    apply Locks_eq; [exact Hname'| | |exact Hrest'].
    + rewrite Hversion'. unfold topVersion. rewrite Hname, Hversion.
      unfold topVersion.
      destruct (JS.property _ _) as [r| |];
        [destruct (truthy r); [reflexivity|]|reflexivity|];
        now destruct (lockVersion locks).
    + rewrite Hentries', Hentries. f_equal. apply map_eq. intros n.
      rewrite Hlookup', Hentries. cbn [default from_option id].
      rewrite Hlookup.
      destruct (default ∅ (dependencies locks) !! n) as [entry|]; [|reflexivity].
      destruct (PackageModules.isInternal n); [|reflexivity].
      destruct (updateEntry _ _ n entry) as [updated|] eqn:Hupdate; [|reflexivity].
      exact (updateEntry_again _ _ _ _ _ Hupdate).
  - exfalso.
    assert (Hthrows : throws (updatePackageLocks current versions options) = true)
      by now rewrite Hsecond.
    apply updatePackageLocks_throws
      in Hthrows as (n & updated & origin & Hn & Hint & Hv).
    rewrite Hentries in Hn. cbn [default from_option id] in Hn.
    rewrite Hlookup, Hint in Hn.
    destruct (default ∅ (dependencies locks) !! n) as [entry|]; [|discriminate].
    assert (Hnone : updateEntry (default ∅ versions)
                      (default defaultFormatVersion options) n entry = None)
      by (apply updateEntry_None; eauto).
    congruence.
Qed.

End LockFacts.

(** X13.  When [updatePackageLocks] returns, the lock keeps its name and
    its other keys, and its dependencies have the same names as before.  An
    entry outside the [@radon-extension/] scope is untouched.  An entry
    inside it has no [integrity] afterwards; when [versions] gives a value
    for its name the entry gets that version, formatted, and the [from] of
    that value (none for a plain string), otherwise its version and [from]
    stay. *)
Theorem updatePackageLocks_entries {Extra Rest : Type}
    (locks current : PackageLocks.Locks Extra Rest)
    (versions : option (gmap string Package.Requested))
    (options : option PackageLocks.Formatter) :
  PackageLocks.updatePackageLocks locks versions options = Return current ->
  PackageLocks.name current = PackageLocks.name locks
  /\ PackageLocks.rest current = PackageLocks.rest locks
  /\ exists entries,
       PackageLocks.dependencies current = Some entries
       /\ forall n,
            match default ∅ (PackageLocks.dependencies locks) !! n with
            | None => entries !! n = None
            | Some entry =>
                if PackageModules.isInternal n then
                  exists updated,
                    entries !! n = Some updated
                    /\ PackageLocks.integrity updated = None
                    /\ PackageLocks.extra updated = PackageLocks.extra entry
                    /\ match default ∅ versions !! n with
                       | None | Some (Package.Literal None) =>
                           PackageLocks.version updated = PackageLocks.version entry
                           /\ PackageLocks.from updated = PackageLocks.from entry
                       | Some requested =>
                           exists wanted,
                             Package.versionOf requested = Some wanted
                             /\ PackageLocks.version updated
                                = Some (default PackageLocks.defaultFormatVersion
                                          options wanted n)
                             /\ PackageLocks.from updated
                                = PackageLocks.fromOf requested
                       end
                else entries !! n = Some entry
            end.
Proof.
  intros Hupdate.
  destruct (updatePackageLocks_lookup _ _ _ _ Hupdate)
    as (Hname & Hrest & entries & Hentries & Hlookup).
  split; [exact Hname|]. split; [exact Hrest|].
  exists entries. split; [exact Hentries|]. intros n. rewrite Hlookup.
  destruct (default ∅ (PackageLocks.dependencies locks) !! n) as [entry|] eqn:Hn;
    [|reflexivity].
  destruct (PackageModules.isInternal n) eqn:Hint; [|reflexivity].
  destruct (PackageLocks.updateEntry _ _ n entry) as [updated|] eqn:Hentry.
  - exists updated. split; [reflexivity|].
    destruct (updateEntry_clears _ _ _ _ _ Hentry) as [Hintegrity Hextra].
    split; [exact Hintegrity|]. split; [exact Hextra|].
    unfold PackageLocks.updateEntry in Hentry.
    destruct (default ∅ versions !! n) as [[[v|]|origin [v|]]|];
      cbn in Hentry; try discriminate; injection Hentry as <-; cbn;
      eauto.
  - exfalso. apply updateEntry_None in Hentry as [origin Hv].
    assert (Hthrows : throws (PackageLocks.updatePackageLocks locks versions options)
                      = true)
      by (apply updatePackageLocks_throws; eauto 6).
    rewrite Hupdate in Hthrows. discriminate.
Qed.

Lemma updatePackageLocks_entries_witness :
  PackageLocks.updatePackageLocks Samples.chromeLocks
    (Some {[ "@radon-extension/core" := Package.Literal (Some "1.1.0") ]}) None
  = Return Samples.updatedLocks
  /\ PackageLocks.rest Samples.updatedLocks = PackageLocks.rest Samples.chromeLocks.
Proof.
  assert (H : PackageLocks.updatePackageLocks Samples.chromeLocks
                (Some {[ "@radon-extension/core" := Package.Literal (Some "1.1.0") ]})
                None
              = Return Samples.updatedLocks)
    by (vm_compute; reflexivity).
  split; [exact H|].
  exact (proj1 (proj2 (updatePackageLocks_entries _ _ _ _ H))).
Defined.

(** X14.  [updatePackageLocks] throws exactly when a dependency of the lock
    inside the [@radon-extension/] scope is given, in [versions], an object
    without a version. *)
Theorem updatePackageLocks_throws_iff {Extra Rest : Type}
    (locks : PackageLocks.Locks Extra Rest)
    (versions : option (gmap string Package.Requested))
    (options : option PackageLocks.Formatter) :
  throws (PackageLocks.updatePackageLocks locks versions options) = true
  <-> exists n entry origin,
        default ∅ (PackageLocks.dependencies locks) !! n = Some entry
        /\ PackageModules.isInternal n = true
        /\ default ∅ versions !! n = Some (Package.Described origin None).
Proof. apply updatePackageLocks_throws. Qed.

(** X15.  Updating a lock a second time with the same versions and options
    changes nothing more, whatever the formatter. *)
Theorem updatePackageLocks_idempotent {Extra Rest : Type}
    (locks current : PackageLocks.Locks Extra Rest)
    (versions : option (gmap string Package.Requested))
    (options : option PackageLocks.Formatter) :
  PackageLocks.updatePackageLocks locks versions options = Return current ->
  PackageLocks.updatePackageLocks current versions options = Return current.
Proof. apply updatePackageLocks_again. Qed.

Lemma updatePackageLocks_idempotent_witness :
  PackageLocks.updatePackageLocks Samples.chromeLocks
    (Some {[ "@radon-extension/core" := Package.Literal (Some "1.1.0") ]}) None
  = Return Samples.updatedLocks
  /\ PackageLocks.updatePackageLocks Samples.updatedLocks
       (Some {[ "@radon-extension/core" := Package.Literal (Some "1.1.0") ]}) None
     = Return Samples.updatedLocks.
Proof.
  assert (H : PackageLocks.updatePackageLocks Samples.chromeLocks
                (Some {[ "@radon-extension/core" := Package.Literal (Some "1.1.0") ]})
                None
              = Return Samples.updatedLocks)
    by (vm_compute; reflexivity).
  split; [exact H|].
  exact (updatePackageLocks_idempotent _ _ _ _ H).
Defined.

Section LockFileFacts.

Import PackageLocks.

Context {Extra Rest : Type}.

(** The top-level version when there are no versions: the version of the
    lock, unless the name of the lock is that of a member every object
    inherits. *)
Lemma topVersion_plain (previous : Locks Extra Rest) :
  (forall member, lockVersion previous <> Builtin member) ->
  lockVersion previous = topVersion ∅ previous
  <-> (JS.inherited (default "undefined" (name previous)) = false
       /\ lockVersion previous <> Missing)
      \/ (name previous = Some "__proto__"
          /\ lockVersion previous = Value (Package.Described None None)).
Proof.
  intros Hparsed. unfold topVersion, JS.property. rewrite lookup_empty.
  destruct (JS.inherited (default "undefined" (name previous))) eqn:Hinherited.
  - destruct (String.eqb_spec (default "undefined" (name previous)) "__proto__")
      as [Hname|Hname].
    + assert (Hsome : name previous = Some "__proto__").
      { destruct (name previous) as [n|]; cbn in Hname; [now subst|discriminate]. }
      split; [intros ->; auto|]. intros [[[=] _]|[_ ->]]. reflexivity.
    + split.
      * intros Heq. now apply Hparsed in Heq.
      * intros [[[=] _]|[Hsome _]]. rewrite Hsome in Hname. now destruct Hname.
  - split.
    + intros Heq. left. split; [reflexivity|]. intros Hmissing.
      rewrite Hmissing in Heq. discriminate.
    + intros [[_ Hpresent]|[Hsome _]].
      * now destruct (lockVersion previous).
      * rewrite Hsome in Hinherited. discriminate.
Qed.

(** Without versions, an update only clears the integrity of the internal
    entries, makes the top-level keys present, and sets the version of a
    lock that bears the name of an inherited member. *)
Lemma updatePackageLocks_plain (previous current : Locks Extra Rest)
    (options : option Formatter) :
  (forall member, lockVersion previous <> Builtin member) ->
  updatePackageLocks previous None options = Return current ->
  previous = current
  <-> ((JS.inherited (default "undefined" (name previous)) = false
        /\ lockVersion previous <> Missing)
       \/ (name previous = Some "__proto__"
           /\ lockVersion previous = Value (Package.Described None None)))
      /\ exists entries,
           dependencies previous = Some entries
           /\ forall n entry,
                entries !! n = Some entry -> PackageModules.isInternal n = true ->
                integrity entry = None.
Proof.
  intros Hparsed Hupdate.
  destruct (updatePackageLocks_lookup _ _ _ _ Hupdate)
    as (Hname & Hrest & entries & Hentries & Hlookup).
  pose proof (updatePackageLocks_version _ _ _ _ Hupdate) as Hversion.
  cbn [default from_option id] in Hversion, Hlookup.
  rewrite <- (topVersion_plain previous Hparsed).
  assert (Hentry : forall n (entry : Entry Extra),
             updateEntry (∅ : gmap string Package.Requested)
               (default defaultFormatVersion options) n entry
             = Some {| version := version entry; from := from entry;
                       integrity := None; extra := extra entry |}).
  { intros n entry. unfold updateEntry. now rewrite lookup_empty. }
  split.
  - intros Hsame. split.
    + rewrite <- Hversion. now rewrite <- Hsame.
    + exists entries. rewrite Hsame. split; [exact Hentries|]. intros n entry Hn Hint.
      specialize (Hlookup n). rewrite Hsame, Hentries in Hlookup.
      cbn [default from_option id] in Hlookup.
      rewrite Hn, Hint, Hentry in Hlookup. injection Hlookup as Heq.
      now rewrite Heq.
  - intros (Hpresent & declared & Hdeclared & Hclean).
    apply Locks_eq; [now symmetry| | |now symmetry].
    + now rewrite Hversion.
    + rewrite Hentries, Hdeclared. f_equal. apply map_eq. intros n.
      rewrite Hlookup, Hdeclared. cbn [default from_option id].
      destruct (declared !! n) as [entry|] eqn:Hn; [|reflexivity].
      destruct (PackageModules.isInternal n) eqn:Hint; [|reflexivity].
      rewrite Hentry. specialize (Hclean n entry Hn Hint).
      destruct entry; cbn in *. now subst.
Qed.

Lemma updatePackageLocks_plain_returns (previous : Locks Extra Rest)
    (options : option Formatter) :
  exists current, updatePackageLocks previous None options = Return current.
Proof.
  destruct (updatePackageLocks previous None options) as [current|e] eqn:Hupdate;
    [eauto|].
  assert (Hthrows : throws (updatePackageLocks previous None options) = true)
    by now rewrite Hupdate.
  apply updatePackageLocks_throws in Hthrows as (n & entry & origin & _ & _ & Hv).
  cbn in Hv. rewrite lookup_empty in Hv. discriminate.
Qed.

End LockFileFacts.

(** X16.  [writePackageLocks] called without versions on a lock file that
    parses still settles with a boolean, and that boolean is [false], with
    the disk untouched, exactly when two conditions hold; in every other
    case the file is rewritten.  First, the top-level version stays:
    the lock has a [version] key and its name is not that of a member every
    object inherits, which [versions[locks.name]] would find (for the name
    [__proto__] what it finds is an empty object, which is the version
    already when the lock holds an empty object there).  Second, the lock
    has a [dependencies] object in which no entry of the
    [@radon-extension/] scope carries an [integrity]. *)
Theorem writePackageLocks_without_versions {Extra Rest : Type}
    `{EqDecision Extra} `{EqDecision Rest}
    (json : PackageLocks.Json Extra Rest) (Path_join : string -> string -> string)
    (disk : Package.Disk) (path file data : string)
    (previous : PackageLocks.Locks Extra Rest)
    (options : option PackageLocks.Formatter) :
  file = (if bool_decide (path ∈ Package.directories disk)
          then Path_join path "package-lock.json" else path) ->
  Package.files disk !! file = Some data ->
  PackageLocks.JSON_parse json data = Some previous ->
  (forall member, PackageLocks.lockVersion previous <> PackageLocks.Builtin member) ->
  exists changed disk',
    PackageLocks.writePackageLocks json Path_join disk path None options
    = Return (disk', Resolved changed)
    /\ (changed = false
        <-> ((JS.inherited (default "undefined" (PackageLocks.name previous)) = false
              /\ PackageLocks.lockVersion previous <> PackageLocks.Missing)
             \/ (PackageLocks.name previous = Some "__proto__"
                 /\ PackageLocks.lockVersion previous
                    = PackageLocks.Value (Package.Described None None)))
            /\ exists entries,
                 PackageLocks.dependencies previous = Some entries
                 /\ forall n entry,
                      entries !! n = Some entry ->
                      PackageModules.isInternal n = true ->
                      PackageLocks.integrity entry = None)
    /\ (changed = false -> disk' = disk)
    /\ (changed = true ->
        exists text,
          disk' = {| Package.directories := Package.directories disk;
                     Package.files := <[file := text]> (Package.files disk) |}).
Proof.
  intros Hfile Hdata Hparse Hparsed.
  destruct (updatePackageLocks_plain_returns previous options) as [current Hupdate].
  pose proof (updatePackageLocks_plain _ _ _ Hparsed Hupdate) as Hplain.
  unfold PackageLocks.writePackageLocks.
  assert (Hstat : negb (bool_decide (path ∈ Package.directories disk))
                  && negb (bool_decide (is_Some (Package.files disk !! path)))
                  = false).
  { destruct (bool_decide (path ∈ Package.directories disk)) eqn:Hdir;
      [reflexivity|]. subst file. cbn [negb andb].
    apply negb_false_iff, bool_decide_eq_true. eauto. }
  rewrite Hstat, <- Hfile.
  assert (Hexists : negb (bool_decide (file ∈ Package.directories disk))
                    && negb (bool_decide (is_Some (Package.files disk !! file)))
                    = false).
  { apply andb_false_iff. right. apply negb_false_iff, bool_decide_eq_true. eauto. }
  rewrite Hexists, Hdata, Hparse, Hupdate.
  destruct (bool_decide (previous = current)) eqn:Hsame.
  - apply bool_decide_eq_true in Hsame. exists false, disk.
    split; [reflexivity|]. split; [|split; [reflexivity|discriminate]].
    split; [intros _; now apply Hplain|reflexivity].
  - apply bool_decide_eq_false in Hsame. eexists true, _.
    split; [reflexivity|]. split; [|split; [discriminate|eauto]].
    split; [discriminate|]. intros Hclean. exfalso. now apply Hsame, Hplain.
Qed.

Lemma writePackageLocks_without_versions_witness :
  exists changed disk',
    PackageLocks.writePackageLocks Samples.oneLock (fun a b => a +:+ "/" +:+ b)
      Samples.lockDisk "/work" None None
    = Return (disk', Resolved changed)
    /\ (changed = true ->
        exists text,
          disk' = {| Package.directories := Package.directories Samples.lockDisk;
                     Package.files :=
                       <[ "/work/package-lock.json" := text ]>
                         (Package.files Samples.lockDisk) |}).
Proof.
  destruct (writePackageLocks_without_versions Samples.oneLock
              (fun a b => a +:+ "/" +:+ b) Samples.lockDisk "/work"
              "/work/package-lock.json" "locks" Samples.chromeLocks None)
    as (changed & disk' & Hwrite & _ & _ & Hchanged);
    [vm_compute; reflexivity..|discriminate|].
  exists changed, disk'. split; [exact Hwrite|exact Hchanged].
Defined.

(** A lock without integrity fields whose name is [constructor]: without
    versions the update still replaces the version by the function every
    object inherits under that name, and the file is rewritten. *)
Example writePackageLocks_inherited_name :
  PackageLocks.updatePackageLocks Samples.constructorLocks None None
  = Return {| PackageLocks.name := Some "constructor";
              PackageLocks.lockVersion := PackageLocks.Builtin "constructor";
              PackageLocks.dependencies := Some ∅;
              PackageLocks.rest := tt |}
  /\ exists disk',
       PackageLocks.writePackageLocks Samples.constructorLock
         (fun a b => a +:+ "/" +:+ b) Samples.lockDisk "/work" None None
       = Return (disk', Resolved true).
Proof. split; [vm_compute; reflexivity|]. eexists. vm_compute. reflexivity. Qed.

(** ** Candidate branches of an installation *)

(** X17.  [getBranches] always tries the given ref first and has at most
    one fallback; there is no fallback exactly for [master] and [develop].
    The fallback of a ref that is not a version is [develop], and the
    fallback of a version tag is one of the branches [getTargetBranches]
    pushes that tag to. *)
Theorem getBranches_spec (ref : string) :
  (exists fallback,
     Install.getBranches ref = ref :: fallback /\ (List.length fallback <= 1)%nat)
  /\ (Install.getBranches ref = [ref] <-> ref = "master" \/ ref = "develop")
  /\ (Semver.parse ref = None ->
      forall b, In b (Install.getBranches ref) -> b = ref \/ b = "develop")
  /\ (forall version,
        Semver.parse ref = Some version ->
        exists branches,
          Push.getTargetBranches ref = Return branches
          /\ forall b, In b (Install.getBranches ref) -> b = ref \/ In b branches).
Proof.
  unfold Install.getBranches.
  destruct (JS.includes ["master"; "develop"] ref) eqn:Hfixed.
  - apply includes_In in Hfixed. cbn [In] in Hfixed.
    split; [exists []; split; [reflexivity|cbn; lia]|].
    split; [split; [intros _; intuition|reflexivity]|].
    split; [intros _ b [<-|[]]; now left|].
    intros version Hparse. unfold Push.getTargetBranches. rewrite Hparse.
    eexists. split; [reflexivity|]. intros b [<-|[]]. now left.
  - apply includes_false in Hfixed. cbn [In] in Hfixed.
    destruct (Semver.parse ref) as [version|] eqn:Hparse.
    + split; [eexists; split; [reflexivity|cbn; lia]|].
      split; [split; [discriminate|intros [->| ->]; exfalso; tauto]|].
      split; [discriminate|].
      intros version' [= <-]. unfold Push.getTargetBranches. rewrite Hparse.
      eexists. split; [reflexivity|]. intros b [<-|[<-|[]]]; [now left|right].
      destruct (JS.IsNil (Semver.prereleaseOf ref));
        rewrite !in_app_iff; cbn [In]; auto.
    + split; [eexists; split; [reflexivity|cbn; lia]|].
      split; [split; [discriminate|intros [->| ->]; exfalso; tauto]|].
      split; [|discriminate].
      intros _ b [<-|[<-|[]]]; auto.
Qed.

(** ** Linking a module *)

Section LinkFacts.

(** A string that starts with the pattern has it replaced at the front. *)
Lemma replace_prefix (pattern replacement rest : string) :
  Text.replace (pattern +:+ rest) pattern replacement = replacement +:+ rest.
Proof.
  unfold Text.replace. rewrite indexOf_prefix. cbn [Z.ltb Z.compare Z.add].
  rewrite substringFrom_suffix.
  unfold JS.substring. cbn. now destruct (pattern +:+ rest).
Qed.

Lemma indexOf_zero (s t : string) :
  JS.indexOf s t = 0%Z <-> exists rest, s = t +:+ rest.
Proof.
  split.
  - intros H. destruct (indexOf_decomposes s t) as (p & r & -> & Hp); [lia|].
    rewrite H in Hp. destruct p; [|discriminate]. now exists r.
  - intros [rest ->]. apply indexOf_prefix.
Qed.

(** A rejection of [resolveOne] is the one given for an empty list or one
    of the callback. *)
Lemma resolveOne_rejects {W A B E T : Type} (P : E -> Prop) (items : list A)
    (f : W -> A -> W * list T * Settled E B) (w : W) (none : E)
    (w' : W) (trace : list T) (e : E) :
  (forall w a w' trace e, f w a = (w', trace, Rejected e) -> P e) ->
  P none ->
  resolveOne items f w none = (w', trace, Rejected e) -> P e.
Proof.
  intros Hf. revert w none trace.
  induction items as [|item items IH]; intros w none trace Hnone; cbn [resolveOne].
  - now intros [= _ _ <-].
  - destruct (f w item) as [[w1 trace1] [b|e1]] eqn:Hitem; [discriminate|].
    destruct (resolveOne items f w1 e1) as [[w2 trace2] settled] eqn:Hrest.
    intros [= -> _ ->]. eapply IH; [|exact Hrest]. eapply Hf, Hitem.
Qed.

End LinkFacts.

(** X18.  [link] rejects a module name outside the [@radon-extension/]
    scope before doing anything.  For a name inside it the repository it
    clones is [radon-extension-] followed by the rest of the name, so the
    name check of [clone] never fails on this path. *)
Theorem link_repository_name {W : Type} (c : Linking.Collaborators W) (w : W)
    (target branch module : string) :
  (JS.indexOf module "@radon-extension/" <> 0%Z ->
   Linking.link c w target branch module
   = (w, [], Rejected (Linking.InvalidModuleName module)))
  /\ (forall rest,
        module = "@radon-extension/" +:+ rest ->
        Text.replace module "@radon-extension/" "radon-extension-"
        = "radon-extension-" +:+ rest)
  /\ forall w' ops name,
       Linking.link c w target branch module
       <> (w', ops, Rejected (Linking.CloneFailed (Install.InvalidRepositoryName name))).
Proof.
  split; [|split].
  - intros Hscope. unfold Linking.link.
    destruct (Z.eqb_spec (JS.indexOf module "@radon-extension/") 0); [contradiction|].
    reflexivity.
  - intros rest ->. apply replace_prefix.
  - intros w' ops name. unfold Linking.link.
    destruct (JS.indexOf module "@radon-extension/" =? 0)%Z eqn:Hscope;
      cbn [negb]; [|discriminate].
    apply Z.eqb_eq, indexOf_zero in Hscope as [rest ->]. rewrite replace_prefix.
    unfold Install.clone. rewrite indexOf_prefix. cbn [Z.eqb negb].
    destruct (Install.existsSync _ _ _).
    + destruct (Linking.Npm_install _ _ _); [|discriminate].
      destruct (Linking.Link_create _ _ _ _ _); discriminate.
    + destruct (resolveOne _ _ _ _) as [[w1 ops1] [cloned|e]] eqn:Hclone.
      * destruct (Linking.Npm_install _ _ _); [|discriminate].
        destruct (Linking.Link_create _ _ _ _ _); discriminate.
      * intros [= _ _ ->].
        refine (resolveOne_rejects
                  (fun e => e <> Install.InvalidRepositoryName name)
                  _ _ _ _ _ _ _ _ _ Hclone eq_refl); [|discriminate].
        intros w0 b w1' trace e.
        destruct (Install.Github_exists _ _ _ _);
          [destruct (Install.Git_clone _ _ _ _ _ _)|]; try discriminate;
          intros [= _ _ <-]; discriminate.
Qed.

(** ** Contributors of a repository *)

Section ContributorFacts.

Import Git.

Lemma dict_get_In {V : Type} (d : Dict V) (k : string) (v : V) :
  dict_get d k = Some v -> In (k, v) d.
Proof.
  induction d as [|[k' v'] d IH]; cbn [dict_get]; [discriminate|].
  destruct (String.eqb_spec k k') as [->|Hne].
  - intros [= ->]. now left.
  - intros H. right. exact (IH H).
Qed.

Lemma dict_In_get {V : Type} (d : Dict V) (k : string) (v : V) :
  List.NoDup (dict_keys d) -> In (k, v) d -> dict_get d k = Some v.
Proof.
  induction d as [|[k' v'] d IH]; cbn [dict_get dict_keys map fst]; [intros _ []|].
  intros Hnodup [[= -> ->]|Hin].
  - now rewrite String.eqb_refl.
  - inversion Hnodup as [|? ? Hnot Hrest]; subst.
    destruct (String.eqb_spec k k') as [->|Hne]; [|exact (IH Hrest Hin)].
    exfalso. apply Hnot. change (In k' (map fst d)).
    apply in_map_iff. now exists (k', v).
Qed.

Lemma dict_get_None {V : Type} (d : Dict V) (k : string) :
  dict_get d k = None <-> ~ In k (dict_keys d).
Proof.
  induction d as [|[k' v'] d IH]; cbn [dict_get dict_keys map fst In]; [tauto|].
  destruct (String.eqb_spec k k') as [->|Hne].
  - split; [discriminate|]. intros H. exfalso. apply H. now left.
  - rewrite IH. unfold dict_keys. intuition congruence.
Qed.

Lemma dict_keys_set {V : Type} (d : Dict V) (k : string) (v : V) :
  dict_keys (dict_set d k v)
  = if JS.IsNil (dict_get d k) then dict_keys d ++ [k] else dict_keys d.
Proof.
  induction d as [|[k' v'] d IH]; cbn [dict_set dict_get dict_keys map fst app];
    [reflexivity|].
  destruct (String.eqb_spec k k') as [->|Hne]; cbn [JS.IsNil map fst]; [reflexivity|].
  unfold dict_keys in IH. rewrite IH. now destruct (JS.IsNil (dict_get d k)).
Qed.

Lemma NoDup_dict_set {V : Type} (d : Dict V) (k : string) (v : V) :
  List.NoDup (dict_keys d) -> List.NoDup (dict_keys (dict_set d k v)).
Proof.
  intros Hnodup. rewrite dict_keys_set.
  destruct (dict_get d k) eqn:Hk; cbn [JS.IsNil]; [exact Hnodup|].
  apply dict_get_None in Hk.
  apply NoDup_ListNoDup, NoDup_app. split; [now apply NoDup_ListNoDup|].
  split; [|apply NoDup_singleton].
  intros x Hx Hk'. apply list_elem_of_In in Hx.
  apply list_elem_of_singleton in Hk'. now subst.
Qed.

(** One turn of the loop, seen from one address. *)
Lemma dict_get_tally (m : Dict Contributor) (c : Commit) (e : string) :
  dict_get (tally m c) e
  = if String.eqb (author_email c) e then
      Some match dict_get m e with
           | Some d => {| name := name d; email := email d; commits := commits d + 1 |}
           | None => {| name := author_name c; email := e; commits := 1 |}
           end
    else dict_get m e.
Proof.
  unfold tally.
  destruct (String.eqb_spec (author_email c) e) as [<-|Hne].
  - destruct (dict_get m (author_email c)) as [d|] eqn:Hd; cbn [JS.IsNil].
    + now rewrite Hd, dict_get_set_eq.
    + now rewrite !dict_get_set_eq.
  - destruct (dict_get m (author_email c)) as [d|] eqn:Hd; cbn [JS.IsNil].
    + now rewrite Hd, dict_get_set_ne.
    + rewrite dict_get_set_eq. now rewrite !dict_get_set_ne.
Qed.

Lemma NoDup_tally (m : Dict Contributor) (c : Commit) :
  List.NoDup (dict_keys m) -> List.NoDup (dict_keys (tally m c)).
Proof.
  intros Hnodup. unfold tally.
  destruct (dict_get m (author_email c)) as [d|] eqn:Hd; cbn [JS.IsNil].
  - rewrite Hd. now apply NoDup_dict_set.
  - rewrite dict_get_set_eq. now apply NoDup_dict_set, NoDup_dict_set.
Qed.

Lemma NoDup_tallies (cs : list Commit) (m : Dict Contributor) :
  List.NoDup (dict_keys m) -> List.NoDup (dict_keys (fold_left tally cs m)).
Proof.
  revert m. induction cs as [|c cs IH]; intros m Hm; cbn [fold_left]; [exact Hm|].
  now apply IH, NoDup_tally.
Qed.

(** The whole loop, seen from one address. *)
Lemma dict_get_tallies (cs : list Commit) (m : Dict Contributor) (e : string) :
  dict_get (fold_left tally cs m) e
  = match dict_get m e with
    | Some d =>
        Some {| name := name d; email := email d;
                commits := commits d + List.length (List.filter (fun x => String.eqb (author_email x) e) cs) |}
    | None =>
        match List.find (fun x => String.eqb (author_email x) e) cs with
        | Some first =>
            Some {| name := author_name first; email := e;
                    commits := List.length (List.filter (fun x => String.eqb (author_email x) e) cs) |}
        | None => None
        end
    end.
Proof.
  revert m. induction cs as [|c cs IH]; intros m; cbn [fold_left List.filter List.find].
  - destruct (dict_get m e) as [[n a k]|]; [|reflexivity].
    cbn. now rewrite Nat.add_0_r.
  - rewrite IH, dict_get_tally.
    destruct (String.eqb (author_email c) e); [|reflexivity].
    destruct (dict_get m e) as [d|]; cbn [name email commits List.length];
      do 2 f_equal; lia.
Qed.

Lemma insert_Permutation (c : Contributor) (l : list Contributor) :
  Permutation (insert c l) (c :: l).
Proof.
  induction l as [|d l IH]; cbn [insert]; [reflexivity|].
  destruct (commits c <=? commits d)%nat; [reflexivity|].
  rewrite IH. apply perm_swap.
Qed.

Lemma sortByCommits_Permutation (l : list Contributor) :
  Permutation (sortByCommits l) l.
Proof.
  induction l as [|c l IH]; cbn [sortByCommits fold_right]; [reflexivity|].
  rewrite insert_Permutation. now constructor.
Qed.

Lemma insert_sorted (c : Contributor) (l : list Contributor) :
  StronglySorted (fun a b => commits a <= commits b)%nat l ->
  StronglySorted (fun a b => commits a <= commits b)%nat (insert c l).
Proof.
  induction 1 as [|d l Hl IH Hd]; cbn [insert].
  - repeat constructor.
  - destruct (Nat.leb_spec (commits c) (commits d)).
    + constructor; [now constructor|]. constructor; [assumption|].
      eapply Forall_impl; [exact Hd|]. cbn. intros; lia.
    + constructor; [exact IH|].
      rewrite insert_Permutation. constructor; [lia|exact Hd].
Qed.

Lemma sortByCommits_sorted (l : list Contributor) :
  StronglySorted (fun a b => commits a <= commits b)%nat (sortByCommits l).
Proof.
  induction l as [|c l IH]; cbn [sortByCommits fold_right]; [constructor|].
  now apply insert_sorted.
Qed.

Lemma total_count (cs : list Commit) (m : Dict Contributor) :
  list_sum (map commits (map snd (fold_left tally cs m)))
  = (list_sum (map commits (map snd m)) + List.length cs)%nat.
Proof.
  assert (Hset : forall (d : Dict Contributor) k v,
             (list_sum (map commits (map snd (dict_set d k v)))
              + match dict_get d k with Some old => commits old | None => 0 end
              = list_sum (map commits (map snd d)) + commits v)%nat).
  { intros d k v. induction d as [|[k' v'] d IH]; simpl; [lia|].
    destruct (String.eqb k k'); simpl; lia. }
  revert m. induction cs as [|c cs IH]; intros m; cbn [fold_left List.length]; [lia|].
  rewrite IH. unfold tally.
  destruct (dict_get m (author_email c)) as [d|] eqn:Hd; cbn [JS.IsNil].
  - rewrite Hd. pose proof (Hset m (author_email c)
      {| name := name d; email := email d; commits := commits d + 1 |}) as H.
    rewrite Hd in H. cbn [commits] in H. lia.
  - rewrite dict_get_set_eq.
    set (fresh := {| name := author_name c; email := author_email c; commits := 0 |}).
    pose proof (Hset m (author_email c) fresh) as H1. rewrite Hd in H1.
    pose proof (Hset (dict_set m (author_email c) fresh) (author_email c)
      {| name := name fresh; email := email fresh; commits := commits fresh + 1 |}) as H2.
    rewrite dict_get_set_eq in H2. subst fresh. cbn [commits name email] in *. lia.
Qed.

End ContributorFacts.

Section ContributorList.

Import Git.

Lemma list_sum_Permutation (l k : list nat) :
  Permutation l k -> list_sum l = list_sum k.
Proof. induction 1; simpl; lia. Qed.

(** Each entry of the map built from [commits], whatever its key. *)
Lemma counted_entry (cs : list Commit) (k : string) (c : Contributor) :
  In (k, c) (fold_left tally cs []) ->
  email c = k
  /\ exists first,
       List.find (fun x => String.eqb (author_email x) k) cs = Some first
       /\ name c = author_name first
       /\ commits c
          = List.length (List.filter (fun x => String.eqb (author_email x) k) cs).
Proof.
  intros Hin.
  apply dict_In_get in Hin; [|apply NoDup_tallies; constructor].
  rewrite dict_get_tallies in Hin. cbn [dict_get] in Hin.
  destruct (List.find _ cs) as [first|]; [|discriminate].
  injection Hin as <-. cbn [name email commits]. eauto.
Qed.

Lemma counted_emails (cs : list Commit) :
  map email (map snd (fold_left tally cs [])) = dict_keys (fold_left tally cs []).
Proof.
  unfold dict_keys. rewrite map_map. apply map_ext_in.
  intros [k c] Hin. cbn [fst snd]. now apply counted_entry in Hin as [-> _].
Qed.

End ContributorList.

Section CountingFacts.

Import Git.

Lemma insertIndexed_Permutation {V : Type} (entry : N * V) (l : list (N * V)) :
  Permutation (insertIndexed entry l) (entry :: l).
Proof.
  induction l as [|e l IH]; cbn [insertIndexed]; [reflexivity|].
  destruct (fst entry <=? fst e)%N; [reflexivity|].
  rewrite IH. apply perm_swap.
Qed.

(** [Object.values] lists every value once. *)
Lemma Object_values_Permutation {V : Type} (d : Dict V) :
  Permutation (Object_values d) (map snd d).
Proof.
  unfold Object_values.
  assert (Hsorted : forall l : list (N * V),
             Permutation (fold_right insertIndexed [] l) l).
  { induction l as [|e l IH]; cbn [fold_right]; [reflexivity|].
    rewrite insertIndexed_Permutation. now constructor. }
  rewrite Hsorted. clear Hsorted.
  induction d as [|[k v] d IH]; cbn [flat_map map fst snd app]; [reflexivity|].
  destruct (JS.arrayIndex k); cbn [app map snd].
  - now constructor.
  - rewrite <- Permutation_middle. now constructor.
Qed.

(** Without the address [__proto__] the loop does not throw: it tallies
    the commits whose address is not the name of an inherited member and
    passes over the others. *)
Lemma countAll_tallies (cs : list Commit) (m : Dict Contributor) :
  Forall (fun x => author_email x <> "__proto__") cs ->
  (forall k, JS.inherited k = true -> dict_get m k = None) ->
  countAll cs {| contributorsMap := m; polluted := false |}
  = Return {| contributorsMap :=
                fold_left tally
                  (List.filter (fun x => negb (JS.inherited (author_email x))) cs) m;
              polluted := false |}.
Proof.
  revert m. induction cs as [|c cs IH]; intros m Hcs Hm; [reflexivity|].
  apply Forall_cons in Hcs as [Hc Hcs].
  assert (Hnext : forall k, negb (JS.inherited (author_email c)) = true ->
                            JS.inherited k = true -> dict_get (tally m c) k = None).
  { intros k Hordinary Hk. rewrite dict_get_tally.
    destruct (String.eqb_spec (author_email c) k) as [<-|_]; [|now apply Hm].
    rewrite Hk in Hordinary. discriminate. }
  cbn [countAll List.filter]. unfold count. cbn [contributorsMap polluted].
  destruct (dict_get m (author_email c)) as [d|] eqn:Hd.
  - assert (Hordinary : negb (JS.inherited (author_email c)) = true).
    { destruct (JS.inherited (author_email c)) eqn:Hi; [|reflexivity].
      rewrite (Hm _ Hi) in Hd. discriminate. }
    rewrite Hordinary. cbn [fold_left]. apply IH; [exact Hcs|]. intros k. now apply Hnext.
  - destruct (String.eqb_spec (author_email c) "__proto__") as [|_]; [contradiction|].
    destruct (JS.inherited (author_email c)) eqn:Hi; cbn [negb andb].
    + now apply IH.
    + cbn [fold_left]. apply IH; [exact Hcs|]. intros k. now apply Hnext.
Qed.

Lemma find_filter_implied {A : Type} (p q : A -> bool) (l : list A) :
  (forall x, p x = true -> q x = true) ->
  List.find p (List.filter q l) = List.find p l.
Proof.
  intros Hpq. induction l as [|x l IH]; [reflexivity|]. cbn [List.filter List.find].
  destruct (q x) eqn:Hq; cbn [List.find].
  - now rewrite IH.
  - destruct (p x) eqn:Hp; [|exact IH]. rewrite (Hpq x Hp) in Hq. discriminate.
Qed.

Lemma filter_filter_implied {A : Type} (p q : A -> bool) (l : list A) :
  (forall x, p x = true -> q x = true) ->
  List.filter p (List.filter q l) = List.filter p l.
Proof.
  intros Hpq. induction l as [|x l IH]; [reflexivity|]. cbn [List.filter].
  destruct (q x) eqn:Hq; cbn [List.filter].
  - now rewrite IH.
  - destruct (p x) eqn:Hp; [|exact IH]. rewrite (Hpq x Hp) in Hq. discriminate.
Qed.

End CountingFacts.

(** X19.  When the commit log can be read and no author address is
    [__proto__], [contributors] resolves with one contributor for each
    author address of the log that is not the name of a member every object
    inherits, and no other: the addresses are pairwise distinct, each
    contributor carries the author name of the first commit of the address
    and the number of commits of the address, the counts add up to the
    number of commits under such addresses, and the list is in ascending
    order of the counts.  Commits under the name of an inherited member are
    counted for nobody. *)
Theorem contributors_spec {E : Type} (repository : Git.Repository E)
    (commits : Git.Log) :
  Git.log repository None = Resolved commits ->
  Forall (fun x => Git.author_email x <> "__proto__") (Git.all commits) ->
  exists result,
    Git.contributors repository = Resolved result
    /\ StronglySorted (fun a b => Git.commits a <= Git.commits b)%nat result
    /\ NoDup (map Git.email result)
    /\ (forall c,
          In c result ->
          JS.inherited (Git.email c) = false
          /\ exists first,
               List.find (fun x => String.eqb (Git.author_email x) (Git.email c))
                 (Git.all commits) = Some first
               /\ Git.name c = Git.author_name first
               /\ Git.commits c
                  = List.length
                      (List.filter
                         (fun x => String.eqb (Git.author_email x) (Git.email c))
                         (Git.all commits)))
    /\ (forall x,
          In x (Git.all commits) ->
          JS.inherited (Git.author_email x) = false ->
          In (Git.author_email x) (map Git.email result))
    /\ list_sum (map Git.commits result)
       = List.length
           (List.filter (fun x => negb (JS.inherited (Git.author_email x)))
                        (Git.all commits)).
Proof.
  intros Hlog Hplain. unfold Git.contributors. rewrite Hlog.
  rewrite (countAll_tallies _ [] Hplain) by reflexivity.
  cbn [Git.contributorsMap].
  set (kept := List.filter (fun x => negb (JS.inherited (Git.author_email x)))
                           (Git.all commits)).
  set (m := fold_left Git.tally kept []).
  assert (Hperm : Permutation (Git.sortByCommits (Object_values m)) (map snd m)).
  { rewrite sortByCommits_Permutation. apply Object_values_Permutation. }
  assert (Hkept : forall k x,
            JS.inherited k = false ->
            String.eqb (Git.author_email x) k = true ->
            negb (JS.inherited (Git.author_email x)) = true).
  { intros k x Hk ->%String.eqb_eq. now rewrite Hk. }
  eexists. split; [reflexivity|].
  split; [apply sortByCommits_sorted|].
  split; [|split; [|split]].
  - rewrite Hperm. unfold m. rewrite counted_emails.
    apply NoDup_ListNoDup, NoDup_tallies. constructor.
  - intros c Hc. apply (Permutation_in _ Hperm) in Hc.
    apply in_map_iff in Hc as ([k c'] & <- & Hin). cbn [snd].
    apply counted_entry in Hin as (-> & first & Hfirst & Hname & Hcount).
    assert (Hk : JS.inherited k = false).
    { apply find_some in Hfirst as [Hin Heq]. apply String.eqb_eq in Heq.
      apply filter_In in Hin as [_ Hordinary]. rewrite Heq in Hordinary.
      now apply negb_true_iff in Hordinary. }
    split; [exact Hk|]. exists first. unfold kept in Hfirst, Hcount.
    rewrite find_filter_implied in Hfirst by (intros x; apply Hkept, Hk).
    rewrite filter_filter_implied in Hcount by (intros x; apply Hkept, Hk).
    auto.
  - intros x Hx Hordinary.
    apply (Permutation_in _ (Permutation_map _ (Permutation_sym Hperm))).
    unfold m. rewrite counted_emails.
    destruct (dict_get (fold_left Git.tally kept []) (Git.author_email x))
      as [c|] eqn:Hget.
    + apply dict_get_In in Hget. unfold dict_keys. apply in_map_iff.
      now exists (Git.author_email x, c).
    + exfalso. rewrite dict_get_tallies in Hget. cbn [dict_get] in Hget.
      destruct (List.find _ kept) as [first|] eqn:Hfind; [discriminate|].
      assert (Hin : In x kept).
      { apply filter_In. split; [exact Hx|]. now rewrite Hordinary. }
      apply (find_none _ _ Hfind) in Hin. now rewrite String.eqb_refl in Hin.
  - rewrite (list_sum_Permutation _ _ (Permutation_map _ Hperm)).
    unfold m. now rewrite total_count.
Qed.

Lemma contributors_spec_witness :
  Forall (fun x => Git.author_email x <> "__proto__")
         (Git.all {| Git.all :=
                       [ {| Git.author_name := "Ada";
                            Git.author_email := "ada@example.org" |};
                         {| Git.author_name := "Bob";
                            Git.author_email := "bob@example.org" |};
                         {| Git.author_name := "A.";
                            Git.author_email := "ada@example.org" |} ];
                     Git.total := 3 |})
  /\ exists result,
       Git.contributors Samples.threeCommits = Resolved result
       /\ list_sum (map Git.commits result) = 3%nat.
Proof.
  assert (Hplain :
    Forall (fun x => Git.author_email x <> "__proto__")
           (Git.all {| Git.all :=
                         [ {| Git.author_name := "Ada";
                              Git.author_email := "ada@example.org" |};
                           {| Git.author_name := "Bob";
                              Git.author_email := "bob@example.org" |};
                           {| Git.author_name := "A.";
                              Git.author_email := "ada@example.org" |} ];
                       Git.total := 3 |}))
    by (repeat constructor; discriminate).
  split; [exact Hplain|].
  destruct (contributors_spec Samples.threeCommits _ eq_refl Hplain)
    as (result & Hresult & _ & _ & _ & _ & Hsum).
  exists result. split; [exact Hresult|exact Hsum].
Defined.

Example contributors_example :
  Git.contributors Samples.threeCommits
  = Resolved
      [ {| Git.name := "Bob"; Git.email := "bob@example.org"; Git.commits := 1 |};
        {| Git.name := "Ada"; Git.email := "ada@example.org"; Git.commits := 2 |} ].
Proof. reflexivity. Qed.

(** Commits under [constructor] are counted for nobody; [7] is an array
    index and comes first among the contributors with one commit, though
    [ada] was seen before. *)
Example contributors_inherited_address :
  Git.contributors
    (Samples.logOnly
       [ {| Git.author_name := "Eve"; Git.author_email := "constructor" |};
         {| Git.author_name := "Ada"; Git.author_email := "ada" |};
         {| Git.author_name := "Sev"; Git.author_email := "7" |};
         {| Git.author_name := "Eve"; Git.author_email := "constructor" |} ])
  = Resolved
      [ {| Git.name := "Sev"; Git.email := "7"; Git.commits := 1 |};
        {| Git.name := "Ada"; Git.email := "ada"; Git.commits := 1 |} ].
Proof. vm_compute. reflexivity. Qed.

(** After a commit under [__proto__], a commit under [commits] makes the
    loop throw. *)
Example contributors_polluted :
  Git.contributors
    (Samples.logOnly
       [ {| Git.author_name := "Eve"; Git.author_email := "__proto__" |};
         {| Git.author_name := "Ada"; Git.author_email := "commits" |} ])
  = Rejected (Git.LoopThrew Git.CannotCreateProperty).
Proof. vm_compute. reflexivity. Qed.

(** ** Status of a repository *)

Section TrimFacts.

Import Text.

Lemma trimEnd_cons (c : ascii) (s : string) :
  trimEnd (String c s)
  = match trimEnd s with
    | EmptyString => if is_space c then EmptyString else String c EmptyString
    | rest => String c rest
    end.
Proof. reflexivity. Qed.

Lemma trimEnd_again (s : string) : trimEnd (trimEnd s) = trimEnd s.
Proof.
  induction s as [|c s IH]; [reflexivity|]. rewrite trimEnd_cons.
  destruct (trimEnd s) as [|d rest] eqn:Hs.
  - destruct (is_space c) eqn:Hc; [reflexivity|]. cbn [trimEnd]. now rewrite Hc.
  - rewrite trimEnd_cons, IH. reflexivity.
Qed.

(** Trimming the end keeps a first character that is not white space. *)
Lemma trimEnd_head (c : ascii) (s : string) :
  is_space c = false -> exists rest, trimEnd (String c s) = String c rest.
Proof.
  intros Hc. cbn [trimEnd]. destruct (trimEnd s); [rewrite Hc|]; eauto.
Qed.

Lemma trimStart_head (s : string) :
  trimStart s = EmptyString
  \/ exists c rest, trimStart s = String c rest /\ is_space c = false.
Proof.
  induction s as [|c s IH]; [now left|]. cbn [trimStart].
  destruct (is_space c) eqn:Hc; [exact IH|]. right. eauto.
Qed.

Lemma trim_again (s : string) : trim (trim s) = trim s.
Proof.
  unfold trim. destruct (trimStart_head s) as [->|(c & rest & -> & Hc)];
    [reflexivity|].
  destruct (trimEnd_head c rest Hc) as [rest' Hrest]. rewrite Hrest.
  cbn [trimStart]. rewrite Hc, <- Hrest. apply trimEnd_again.
Qed.

End TrimFacts.

Section StatusFacts.

Import Git.

Context {E : Type}.

Lemma _getTag_trimmed (repository : Repository E) (exact : bool) (t : string) :
  _getTag repository exact = Resolved (Some t) -> Text.trim t = t.
Proof.
  unfold _getTag.
  destruct (describe repository exact) as [[d|]|]; try discriminate.
  destruct (0 <? String.length d)%nat; [|discriminate].
  intros [= <-]. apply trim_again.
Qed.

Lemma orNull_Some (found : option string) (t : string) :
  orNull found = Some t -> found = Some t /\ t <> EmptyString.
Proof.
  destruct found as [[|c s]|]; cbn [orNull]; try discriminate.
  intros [= <-]. split; [reflexivity|discriminate].
Qed.

End StatusFacts.

(** X20.  [status] resolves with an empty object when the path holds no
    [.git].  Otherwise the object has the keys [latestTag], [ahead],
    [commit], [branch] and [dirty], but it has the key [tag] only when the
    lookup of the latest tag succeeded: the handler of a failed lookup
    starts the object afresh.  A tag that is reported is never empty and
    has no white space around it. *)
Theorem status_keys {E : Type} (w : Git.World E) (path : string) :
  if Git.existsSync w (Git.Path_join w path ".git") then
    is_Some (Git.latestTag (Git.status w path))
    /\ is_Some (Git.ahead (Git.status w path))
    /\ is_Some (Git.commit (Git.status w path))
    /\ is_Some (Git.branch (Git.status w path))
    /\ is_Some (Git.dirty (Git.status w path))
    /\ (is_Some (Git.tag (Git.status w path))
        <-> isRejected (Git.describe (Git.SimpleGit w path) false) = false)
    /\ forall t,
         Git.tag (Git.status w path) = Some (Some t)
         \/ Git.latestTag (Git.status w path) = Some (Some t) ->
         t <> EmptyString /\ Text.trim t = t
  else Git.status w path = Git.empty.
Proof.
  unfold Git.status.
  destruct (Git.existsSync w (Git.Path_join w path ".git")); cbn [negb];
    [|reflexivity].
  set (repository := Git.SimpleGit w path).
  assert (Hlatest : isRejected (Git.describe repository false)
                    = isRejected (Git._getTag repository false)).
  { unfold Git._getTag. destruct (Git.describe repository false) as [[d|]|];
      [destruct (0 <? String.length d)%nat| |]; reflexivity. }
  rewrite Hlatest.
  destruct (Git._getTag repository true) as [exact|] eqn:Hexact;
    destruct (Git._getTag repository false) as [latest|] eqn:Hlatest';
    destruct (Git.status_summary repository);
    cbn [Git.tag Git.latestTag Git.ahead Git.commit Git.branch Git.dirty
         Git.empty isRejected];
    (do 5 (split; [eauto|]));
    (split; [first [split; [reflexivity|eauto] | split; [intros [? [=]]|discriminate]]|]);
    intros t [[= Ht]|[= Ht]];
    apply orNull_Some in Ht as [-> Hne];
    (split; [exact Hne|eapply _getTag_trimmed; eassumption]).
Qed.

(** X21.  The check of [resolve] on what [status] reports fails exactly
    when the path holds no [.git], or when no commit hash could be read
    and no changed file is known (the summary failed or lists no file). *)
Theorem status_fails_check {E : Type} (w : Git.World E) (path name : string)
    (module : ModuleResolver.Resolving.t) :
  snd (ModuleResolver.checkRepository name module
         (Git.asRepository (Git.status w path)))
  = Rejected ModuleResolver.NoReason
  <-> Git.existsSync w (Git.Path_join w path ".git") = false
      \/ ((forall hash,
             Git._resolveHash (Git.SimpleGit w path) <> Resolved (Some hash))
          /\ forall summary,
               Git.status_summary (Git.SimpleGit w path) = Resolved summary ->
               Git.files summary = 0%nat).
Proof.
  unfold ModuleResolver.checkRepository, Git.status.
  destruct (Git.existsSync w (Git.Path_join w path ".git")); cbn [negb];
    [|split; [now left|reflexivity]].
  set (repository := Git.SimpleGit w path).
  destruct (Git._getTag repository true), (Git._getTag repository false);
    destruct (Git._resolveHash repository) as [[hash|]|];
    destruct (Git.status_summary repository) as [[current [|files]]|];
    cbn; (split; [try discriminate; intros _; right|intros [[=]|[Hhash Hfiles]]]);
    try reflexivity;
    try (split; [intros ?; discriminate|intros ? [= <-]; reflexivity]);
    try (split; [intros ?; discriminate|intros ?; discriminate]);
    try (exfalso; now apply (Hhash hash));
    try (specialize (Hfiles _ eq_refl); discriminate).
Qed.

(** ** The key of a module *)

Section KeyFacts.

Lemma lastIndexOf_from_bound (s : string) (from : Z) :
  (0 <= from)%Z ->
  JS.lastIndexOf_from s "-" from = (-1)%Z
  \/ (from <= JS.lastIndexOf_from s "-" from < from + Z.of_nat (String.length s))%Z.
Proof.
  revert from. induction s as [|c s IH]; intros from Hfrom;
    cbn [JS.lastIndexOf_from String.length].
  - now left.
  - destruct (IH (from + 1)%Z ltac:(lia)) as [->|Hlater].
    + cbn [Z.leb Z.compare]. destruct (String.prefix "-" (String c s)); [right; lia|now left].
    + destruct (Z.leb_spec 0 (JS.lastIndexOf_from s "-" (from + 1))); [right; lia|lia].
Qed.

Lemma lastIndexOf_from_end (p : string) (from : Z) :
  (0 <= from)%Z ->
  JS.lastIndexOf_from (p +:+ "-") "-" from = (from + Z.of_nat (String.length p))%Z.
Proof.
  revert from. induction p as [|c p IH]; intros from Hfrom.
  - rewrite append_nil. cbn. lia.
  - rewrite append_cons. cbn [JS.lastIndexOf_from String.length].
    rewrite IH by lia.
    destruct (Z.leb_spec 0 (from + 1 + Z.of_nat (String.length p))); lia.
Qed.

Lemma lastIndexOf_from_is_end (s : string) (from : Z) :
  (0 <= from)%Z -> s <> EmptyString ->
  JS.lastIndexOf_from s "-" from = (from + Z.of_nat (String.length s) - 1)%Z ->
  exists p, s = p +:+ "-".
Proof.
  revert from. induction s as [|c s IH]; intros from Hfrom Hne; [congruence|].
  cbn [JS.lastIndexOf_from String.length]. rewrite prefix_single.
  destruct (lastIndexOf_from_bound s (from + 1) ltac:(lia)) as [Hlater|Hlater].
  - rewrite Hlater. cbn [Z.leb Z.compare].
    destruct (Ascii.eqb_spec "-"%char c) as [<-|_]; [|lia].
    intros H. destruct s; [now exists EmptyString|cbn [String.length] in H; lia].
  - destruct (Z.leb_spec 0 (JS.lastIndexOf_from s "-" (from + 1))) as [_|Hneg];
      [|lia].
    intros Hlast. destruct s as [|d s]; [cbn [String.length] in Hlater; lia|].
    destruct (IH (from + 1)%Z ltac:(lia) ltac:(discriminate) ltac:(lia)) as [p Hp].
    exists (String c p). now rewrite append_cons, <- Hp.
Qed.

Lemma substring_length (s : string) (n m : nat) :
  (n + m <= String.length s)%nat -> String.length (String.substring n m s) = m.
Proof.
  revert n m. induction s as [|c s IH]; intros n m; cbn [String.length].
  - intros H. assert (n = 0 /\ m = 0)%nat as [-> ->] by lia. reflexivity.
  - destruct n as [|n]; [destruct m as [|m]|]; cbn [String.substring String.length];
      intros H; [reflexivity| |apply IH; lia].
    f_equal. apply (IH 0%nat). lia.
Qed.

Lemma substringFrom_length (s : string) (a : Z) :
  (0 <= a <= Z.of_nat (String.length s))%Z ->
  Z.of_nat (String.length (JS.substringFrom s a)) = (Z.of_nat (String.length s) - a)%Z.
Proof.
  intros Ha. unfold JS.substringFrom, JS.substring.
  rewrite substring_length; lia.
Qed.

(** The key is empty exactly for the empty name and for a name that ends
    with a dash. *)
Lemma key_empty (name : string) :
  (String.length (JS.substringFrom name (JS.lastIndexOf name "-" + 1)) <? 1)%nat = true
  <-> name = EmptyString \/ exists p, name = p +:+ "-".
Proof.
  rewrite Nat.ltb_lt. unfold JS.lastIndexOf. split.
  - intros Hkey.
    destruct name as [|c name]; [now left|right].
    apply (lastIndexOf_from_is_end _ 0); [lia|discriminate|].
    pose proof (lastIndexOf_from_bound (String c name) 0 ltac:(lia)) as Hbound.
    pose proof (substringFrom_length (String c name)
                  (JS.lastIndexOf_from (String c name) "-" 0 + 1)) as Hlen.
    cbn [String.length] in *. lia.
  - intros [->|[p ->]]; [vm_compute; lia|].
    rewrite lastIndexOf_from_end by lia.
    pose proof (substringFrom_length (p +:+ "-") (0 + Z.of_nat (String.length p) + 1))
      as Hlen.
    rewrite length_app in Hlen. cbn [String.length] in Hlen. lia.
Qed.

End KeyFacts.

(** X22.  [resolve] checks the module name before it looks for the module:
    for every type that [ModuleType[type]] finds, an empty name and a name
    that ends with a dash are rejected as invalid whatever the disk holds.
    Any other name goes on to the lookup, so that a module that cannot be
    found is an exception thrown by [resolve], not a rejected promise. *)
Theorem resolve_checks_name_first (w : ModuleResolver.World.t)
    (extension : ModuleResolver.ExtensionContext.t) (path type name : string)
    (moduleType : ModuleResolver.TypeEntry.t) :
  ModuleResolver.lookupType type = Some moduleType ->
  (name = EmptyString \/ (exists p, name = p +:+ "-") ->
   ModuleResolver.resolve w extension path type name
   = Return ([], Rejected (ModuleResolver.InvalidModuleName name)))
  /\ (name <> EmptyString -> (forall p, name <> p +:+ "-") ->
      forall e,
        ModuleResolver.getModulePath w path name moduleType = Throw e ->
        ModuleResolver.resolve w extension path type name = Throw e)
  /\ (forall e,
        ModuleResolver.getModulePath w path name moduleType = Throw e ->
        e = ModuleResolver.UnableToFindModule name).
Proof.
  intros Htype. unfold ModuleResolver.resolve. rewrite Htype.
  split; [|split].
  - intros Hname. apply key_empty in Hname. now rewrite Hname.
  - intros Hne Hdash e Hpath.
    destruct (String.length _ <? 1)%nat eqn:Hkey; [|now rewrite Hpath].
    apply key_empty in Hkey. destruct Hkey as [->|[p ->]]; [congruence|].
    now destruct (Hdash p).
  - unfold ModuleResolver.getModulePath. intros e.
    repeat (match goal with |- context [if ?c then _ else _] => destruct c end);
      try discriminate.
    now intros [= <-].
Qed.

Lemma resolve_checks_name_first_witness :
  ModuleResolver.lookupType "destinations"
  = Some {| ModuleResolver.TypeEntry.name := Some "destination";
            ModuleResolver.TypeEntry.directory := Some "Destinations/" |}
  /\ ModuleResolver.resolve Examples.noRepository Examples.extensionContext "/work"
       "destinations" "neon-extension-"
     = Return ([], Rejected (ModuleResolver.InvalidModuleName "neon-extension-")).
Proof.
  split; [reflexivity|].
  refine (proj1 (resolve_checks_name_first Examples.noRepository
                   Examples.extensionContext "/work" "destinations" "neon-extension-"
                   _ eq_refl) _).
  right. now exists "neon-extension".
Defined.

(** A type that is the name of a member every object inherits is not an
    unknown type: the lookup goes on with the name of that member. *)
Example resolve_inherited_type :
  ModuleResolver.resolve Examples.noRepository Examples.extensionContext "/work"
    "constructor" "neon-extension-"
  = Return ([], Rejected (ModuleResolver.InvalidModuleName "neon-extension-"))
  /\ ModuleResolver.resolve Examples.noRepository Examples.extensionContext "/work"
       "plugins" "neon-extension-"
     = Return ([], Rejected (ModuleResolver.UnknownModuleType "plugins"))
  /\ exists logged module,
       ModuleResolver.resolve Examples.inRepository Examples.extensionContext "/work"
         "constructor" "neon-extension-build"
       = Return (logged, Resolved module)
       /\ ModuleResolver.Resolving.type module = Some "Object".
Proof.
  split; [reflexivity|]. split; [reflexivity|].
  eexists _, _. split; [vm_compute; reflexivity|]. reflexivity.
Qed.

(** ** Waiting for a build, and dry runs *)

Section AwaitFacts.

Import Push.

Lemma requests_app (events events' : list Event) :
  requests (events ++ events') = (requests events + requests events')%nat.
Proof. unfold requests. now rewrite List.filter_app, List.length_app. Qed.

(** [getTravisStatus] does not depend on the fuel above its budget. *)
Lemma getTravisStatus_settles (options : StatusOptions.t)
    (responses : nat -> StatusResponse) :
  exists events settled,
    (forall fuel,
       (StatusOptions.retryAttempts options < fuel)%nat ->
       getTravisStatus fuel options responses = Some (events, settled))
    /\ (requests events <= StatusOptions.retryAttempts options)%nat.
Proof.
  destruct (statusRun_settles options responses
              (S (StatusOptions.retryAttempts options)) 0 ltac:(lia))
    as (events & settled & Hrun & Hbound & _).
  exists (Wait (StatusOptions.delay options) :: events), settled. split.
  - intros fuel Hfuel. unfold getTravisStatus.
    assert (Hle : (S (StatusOptions.retryAttempts options) <= fuel)%nat) by lia.
    now rewrite (statusRun_enough_fuel _ _ _ _ _ _ Hle Hrun).
  - rewrite requests_wait. lia.
Qed.

Lemma awaitTravisBuild_settles (options : BuildOptions.t) (ref : string)
    (responses : nat -> BuildResponse) :
  exists events settled,
    (forall fuel,
       (BuildOptions.maximumAttempts options < fuel)%nat ->
       awaitTravisBuild fuel options ref responses = Some (events, settled))
    /\ (requests events <= BuildOptions.maximumAttempts options)%nat.
Proof.
  destruct (buildRun_settles options ref responses
              (S (BuildOptions.maximumAttempts options)) 0 (15 * 1000) ltac:(lia))
    as (events & settled & Hrun & Hbound & _).
  exists events, settled. split; [|lia].
  intros fuel Hfuel. unfold awaitTravisBuild.
  assert (Hle : (S (BuildOptions.maximumAttempts options) <= fuel)%nat) by lia.
  exact (buildRun_enough_fuel _ _ _ _ _ _ _ _ Hle Hrun).
Qed.

End AwaitFacts.

(** X23.  In a dry run [awaitBuild] resolves with ['success'] at once,
    without a request or a timer.  Otherwise it settles for every fuel above
    both budgets, whatever GitHub and Travis answer, after at most
    [retryAttempts] status requests and 120 build requests. *)
Theorem awaitBuild_spec {W : Type} (c : Release.Collaborators W) (ref : string)
    (options : Push.StatusOptions.t) :
  (forall fuel, Release.awaitBuild fuel c ref true options = Some ([], Resolved "success"))
  /\ exists events settled,
       (forall fuel,
          (Push.StatusOptions.retryAttempts options < fuel)%nat ->
          (120 < fuel)%nat ->
          Release.awaitBuild fuel c ref false options = Some (events, settled))
       /\ (Push.requests events <= Push.StatusOptions.retryAttempts options + 120)%nat.
Proof.
  split; [reflexivity|].
  destruct (getTravisStatus_settles options (Release.statuses c ref))
    as (events & settled & Hstatus & Hbound).
  unfold Release.awaitBuild.
  destruct settled as [status|e].
  - destruct (Release.buildOf c (Push.Status.target_url status)) as [id|] eqn:Hid.
    + destruct (awaitTravisBuild_settles Push.defaultBuildOptions ref
                  (Release.builds c id))
        as (events' & settled' & Hbuild & Hbound').
      cbn [Push.defaultBuildOptions Push.BuildOptions.maximumAttempts] in Hbuild, Hbound'.
      destruct settled' as [state|e].
      * exists (events ++ events'), (Resolved state). split.
        -- intros fuel H1 H2. now rewrite (Hstatus fuel H1), Hid, (Hbuild fuel H2).
        -- rewrite requests_app. lia.
      * exists (events ++ events'), (Rejected (Release.BuildUnavailable e)). split.
        -- intros fuel H1 H2. now rewrite (Hstatus fuel H1), Hid, (Hbuild fuel H2).
        -- rewrite requests_app. lia.
    + eexists events, _. split; [|lia].
      intros fuel H1 H2. rewrite (Hstatus fuel H1), Hid. reflexivity.
  - eexists events, _. split; [|lia].
    intros fuel H1 H2. rewrite (Hstatus fuel H1). reflexivity.
Qed.

Section DryRunFacts.

Import Release.

Context {W : Type}.

Lemma pushTag_remotes_dry (c : Collaborators W) (tag : string) (remotes : list string)
    (w : W) :
  runSequentialOn remotes (pushTagTo c tag true) w = (w, [], Resolved tt).
Proof.
  induction remotes as [|remote remotes IH]; cbn [runSequentialOn pushTagTo];
    [reflexivity|].
  now rewrite IH.
Qed.

(** In a dry run the loop of [pushBranch] changes nothing; [startedAt] is
    set when some remote named [origin] is not yet at the commit. *)
Lemma pushBranch_remotes_dry (c : Collaborators W) (module : Module.t)
    (tag branch : string) (remotes : list string) (w : W) (startedAt : option Z) :
  runSequentialOn remotes (pushBranchTo c module tag branch true) (w, startedAt)
  = (w,
     if existsb (fun remote =>
                   String.eqb remote "origin"
                   && negb (alreadyPushed c w module remote branch)) remotes
     then Some (Date_now c w) else startedAt,
     [], Resolved tt).
Proof.
  revert startedAt. induction remotes as [|remote remotes IH]; intros startedAt;
    cbn [runSequentialOn existsb]; [reflexivity|].
  unfold pushBranchTo at 1.
  destruct (alreadyPushed c w module remote branch); cbn [negb andb orb].
  - rewrite IH, andb_false_r. reflexivity.
  - rewrite IH, andb_true_r.
    destruct (String.eqb remote "origin"); cbn [orb]; [|reflexivity].
    now destruct (existsb _ remotes).
Qed.

Lemma existsb_origin (P : string -> bool) (remotes : list string) :
  existsb (fun remote => String.eqb remote "origin" && P remote) remotes = true ->
  JS.includes remotes "origin" = true.
Proof.
  rewrite existsb_exists. intros (remote & Hin & Hremote).
  apply andb_true_iff in Hremote as [Heq _]. apply String.eqb_eq in Heq. subst.
  now apply includes_In.
Qed.

End DryRunFacts.

(** X24.  A dry run of [pushTag] pushes nothing and leaves the remotes as
    they are.  When [origin] is among the remotes it is rejected as a
    failed build, because the dry run of [awaitBuild] reports ['success']
    and [pushTag] asks for ['passed']; no release is created.  Without
    [origin] it resolves. *)
Theorem pushTag_dry_run {W : Type} (fuel : nat) (c : Release.Collaborators W) (w : W)
    (module : Release.Module.t) (remotes : list string) (tag : string) :
  Release.pushTag fuel c w module remotes tag true
  = Some (if JS.includes remotes "origin"
          then (w, [Release.Await []], Rejected (Release.BuildNotPassed tag))
          else (w, [], Resolved tt)).
Proof.
  unfold Release.pushTag. rewrite pushTag_remotes_dry.
  now destruct (JS.includes remotes "origin").
Qed.

(** X25.  A dry run of [pushBranch] pushes nothing and leaves the remotes
    as they are.  It is rejected as a failed build exactly when a remote
    named [origin] is not at the commit of the release yet, and resolves
    otherwise. *)
Theorem pushBranch_dry_run {W : Type} (fuel : nat) (c : Release.Collaborators W)
    (w : W) (module : Release.Module.t) (remotes : list string) (tag branch : string) :
  Release.pushBranch fuel c w module remotes tag branch true
  = Some (if existsb
               (fun remote =>
                  String.eqb remote "origin"
                  && negb (Release.alreadyPushed c w module remote branch))
               remotes
          then (w, [Release.Await []], Rejected (Release.BuildNotPassed branch))
          else (w, [], Resolved tt)).
Proof.
  unfold Release.pushBranch. rewrite pushBranch_remotes_dry.
  destruct (existsb _ remotes) eqn:Horigin; cbn [JS.IsNil orb]; [|reflexivity].
  apply existsb_origin in Horigin. rewrite Horigin. reflexivity.
Qed.

Section IntervalFacts.

Import Push.

(** The timers of the build loop, from any point at which the interval is
    the one the loop computes. *)
Lemma buildRun_waits (options : BuildOptions.t) (ref : string)
    (responses : nat -> BuildResponse) :
  forall fuel attempts interval events settled,
    (15000 <= interval)%Z ->
    (interval = 15000 \/ interval < BuildOptions.maximumInterval options + 1000)%Z ->
    ((interval < BuildOptions.maximumInterval options)%Z ->
     interval = ((15 + Z.of_nat (attempts / 5)) * 1000)%Z) ->
    buildRun fuel options ref responses attempts interval = Some (events, settled) ->
    forall delay,
      In (Wait delay) events ->
      delay = BuildOptions.maximumInterval options
      \/ (15000 <= delay
          /\ (delay = 15000 \/ delay < BuildOptions.maximumInterval options + 1000))%Z.
Proof.
  induction fuel as [|fuel IH]; intros attempts interval events settled Hlow Hhigh Hsync;
    [discriminate|].
  cbn [buildRun].
  set (interval' := nextInterval options interval (S attempts)).
  assert (Hnext : (15000 <= interval')%Z
                  /\ (interval' = 15000
                      \/ interval' < BuildOptions.maximumInterval options + 1000)%Z
                  /\ ((interval' < BuildOptions.maximumInterval options)%Z ->
                      interval' = ((15 + Z.of_nat (S attempts / 5)) * 1000)%Z)).
  { unfold interval', nextInterval.
    destruct (Z.ltb_spec interval (BuildOptions.maximumInterval options)) as [Hlt|Hge].
    - specialize (Hsync Hlt).
      assert (S attempts / 5 <= attempts / 5 + 1)%nat.
      { pose proof (Nat.div_mod_eq (S attempts) 5).
        pose proof (Nat.div_mod_eq attempts 5).
        pose proof (Nat.mod_upper_bound (S attempts) 5).
        pose proof (Nat.mod_upper_bound attempts 5). lia. }
      lia.
    - lia. }
  destruct Hnext as (Hlow' & Hhigh' & Hsync').
  destruct (_ <? _)%nat; [intros [= <- _] delay []|].
  destruct (responses (S attempts)) as [err|state branch].
  - destruct (buildRun fuel options ref responses (S attempts) interval')
      as [[events' settled']|] eqn:Hrec; [|discriminate].
    intros [= <- _] delay [[=]|[[= <-]|Hin]]; [now left|].
    exact (IH _ _ _ _ Hlow' Hhigh' Hsync' Hrec delay Hin).
  - destruct (negb (String.eqb branch ref)); [intros [= <- _] delay [[=]|[]]|].
    destruct (JS.includes ["created"; "started"] state);
      [|intros [= <- _] delay [[=]|[]]].
    destruct (buildRun fuel options ref responses (S attempts) interval')
      as [[events' settled']|] eqn:Hrec; [|discriminate].
    intros [= <- _] delay [[=]|[[= <-]|Hin]]; [now right|].
    exact (IH _ _ _ _ Hlow' Hhigh' Hsync' Hrec delay Hin).
Qed.

End IntervalFacts.

(** X26.  Between two requests [awaitTravisBuild] never waits less than 15
    seconds, unless [maximumInterval] itself is shorter and a request
    failed; and it never waits a second or more beyond [maximumInterval],
    unless that is below 15 seconds. *)
Theorem awaitTravisBuild_waits (fuel : nat) (options : Push.BuildOptions.t)
    (ref : string) (responses : nat -> Push.BuildResponse)
    (events : list Push.Event) (settled : Settled Push.BuildError string) :
  Push.awaitTravisBuild fuel options ref responses = Some (events, settled) ->
  forall delay,
    In (Push.Wait delay) events ->
    delay = Push.BuildOptions.maximumInterval options
    \/ (15000 <= delay
        /\ (delay = 15000
            \/ delay < Push.BuildOptions.maximumInterval options + 1000))%Z.
Proof.
  unfold Push.awaitTravisBuild. intros Hrun.
  eapply buildRun_waits; [| | |exact Hrun]; [lia|now left|].
  intros _. reflexivity.
Qed.

Lemma awaitTravisBuild_waits_witness :
  Push.awaitTravisBuild 3 Examples.twoBuildAttempts "master" Examples.alwaysStarted
  = Some ([Push.Request; Push.Wait 15000; Push.Request; Push.Wait 15000],
          Rejected Push.BuildTimeout)
  /\ (15000 = Push.BuildOptions.maximumInterval Examples.twoBuildAttempts
      \/ (15000 <= 15000
          /\ (15000 = 15000
              \/ 15000 < Push.BuildOptions.maximumInterval Examples.twoBuildAttempts
                         + 1000)))%Z.
Proof.
  split; [reflexivity|].
  apply (awaitTravisBuild_waits 3 Examples.twoBuildAttempts "master"
           Examples.alwaysStarted _ _ eq_refl 15000%Z).
  right. now left.
Defined.

(** ** What the polling loops resolve with *)

Section ResolutionFacts.

Import Push.

Lemma onStatus_resolved (options : StatusOptions.t) (response : StatusResponse)
    (status : Status.t) :
  onStatus options response = Some (Resolved status) ->
  exists sha statuses,
    response = Combined sha statuses
    /\ In status statuses
    /\ Status.context status = "continuous-integration/travis-ci/push"
    /\ (forall wanted, StatusOptions.sha options = Some wanted -> sha = wanted)
    /\ (forall after,
          StatusOptions.createdAfter options = Some after ->
          (after <= Status.created_at status)%Z).
Proof.
  unfold onStatus. destruct response as [err|sha statuses]; [discriminate|].
  destruct (negb (JS.IsNil (StatusOptions.sha options)) && _) eqn:Hsha; [discriminate|].
  destruct (List.find _ statuses) as [travis|] eqn:Hfind; [|discriminate].
  destruct (negb (JS.IsNil (StatusOptions.createdAfter options)) && _) eqn:Hafter;
    [discriminate|].
  intros [= <-]. apply find_some in Hfind as [Hin Hcontext].
  apply String.eqb_eq in Hcontext.
  exists sha, statuses. do 3 (split; [auto|]). split.
  - intros wanted Hwanted. rewrite Hwanted in Hsha. cbn in Hsha.
    apply negb_false_iff, String.eqb_eq in Hsha. exact Hsha.
  - intros after Hcreated. rewrite Hcreated in Hafter. cbn in Hafter.
    apply Z.ltb_ge in Hafter. exact Hafter.
Qed.

Lemma statusRun_resolved (options : StatusOptions.t) (responses : nat -> StatusResponse) :
  forall fuel attempts events status,
    statusRun fuel options responses attempts = Some (events, Resolved status) ->
    exists k,
      (attempts < k <= StatusOptions.retryAttempts options)%nat
      /\ onStatus options (responses k) = Some (Resolved status)
      /\ requests events = (k - attempts)%nat
      /\ forall j, (attempts < j < k)%nat -> onStatus options (responses j) = None.
Proof.
  induction fuel as [|fuel IH]; intros attempts events status; [discriminate|].
  cbn [statusRun].
  destruct (Nat.ltb_spec (StatusOptions.retryAttempts options) (S attempts));
    [discriminate|].
  destruct (onStatus options (responses (S attempts))) as [settled|] eqn:Hanswer.
  - intros [= <- ->]. exists (S attempts).
    split; [lia|]. split; [exact Hanswer|]. split; [cbn; lia|]. intros j Hj. lia.
  - destruct (statusRun fuel options responses (S attempts)) as [[events' settled]|]
      eqn:Hrec; [|discriminate].
    intros [= <- ->]. destruct (IH _ _ _ Hrec) as (k & Hk & Hres & Hreq & Hbefore).
    exists k. split; [lia|]. split; [exact Hres|].
    split; [rewrite requests_request, requests_wait; lia|].
    intros j Hj. destruct (Nat.eq_dec j (S attempts)) as [->|Hne]; [exact Hanswer|].
    apply Hbefore. lia.
Qed.

Lemma buildRun_resolved (options : BuildOptions.t) (ref : string)
    (responses : nat -> BuildResponse) :
  forall fuel attempts interval events state,
    buildRun fuel options ref responses attempts interval = Some (events, Resolved state) ->
    exists k,
      (attempts < k <= BuildOptions.maximumAttempts options)%nat
      /\ responses k = Build state ref
      /\ JS.includes ["created"; "started"] state = false
      /\ requests events = (k - attempts)%nat
      /\ forall j, (attempts < j < k)%nat -> stillBuilding ref (responses j) = true.
Proof.
  induction fuel as [|fuel IH]; intros attempts interval events state; [discriminate|].
  cbn [buildRun].
  destruct (Nat.ltb_spec (BuildOptions.maximumAttempts options) (S attempts));
    [discriminate|].
  set (interval' := nextInterval options interval (S attempts)).
  assert (Hagain : forall delay,
    match buildRun fuel options ref responses (S attempts) interval' with
    | Some (events', settled) => Some (Request :: Wait delay :: events', settled)
    | None => None
    end = Some (events, Resolved state) ->
    stillBuilding ref (responses (S attempts)) = true ->
    exists k,
      (attempts < k <= BuildOptions.maximumAttempts options)%nat
      /\ responses k = Build state ref
      /\ JS.includes ["created"; "started"] state = false
      /\ requests events = (k - attempts)%nat
      /\ forall j, (attempts < j < k)%nat -> stillBuilding ref (responses j) = true).
  { intros delay Hrun Hstill.
    destruct (buildRun fuel options ref responses (S attempts) interval')
      as [[events' settled]|] eqn:Hrec; [|discriminate].
    injection Hrun as <- ->.
    destruct (IH _ _ _ _ Hrec) as (k & Hk & Hres & Hfinal & Hreq & Hbefore).
    exists k. split; [lia|]. split; [exact Hres|]. split; [exact Hfinal|].
    split; [rewrite requests_request, requests_wait; lia|].
    intros j Hj. destruct (Nat.eq_dec j (S attempts)) as [->|Hne]; [exact Hstill|].
    apply Hbefore. lia. }
  destruct (responses (S attempts)) as [err|found branch] eqn:Hanswer.
  - intros Hrun. exact (Hagain _ Hrun eq_refl).
  - destruct (String.eqb_spec branch ref) as [->|Hne]; cbn [negb]; [|discriminate].
    destruct (JS.includes ["created"; "started"] found) eqn:Hstate.
    + intros Hrun. apply (Hagain _ Hrun). cbn [stillBuilding].
      now rewrite String.eqb_refl, Hstate.
    + intros [= <- <-]. exists (S attempts).
      split; [lia|]. split; [exact Hanswer|]. split; [exact Hstate|].
      split; [cbn; lia|]. intros j Hj. lia.
Qed.

End ResolutionFacts.

(** X27.  When [getTravisStatus] resolves, it resolves with the travis push
    status of the first answer that is usable: the answer is for the
    awaited commit when one is given, the status was created no earlier
    than [createdAfter] when that is given, every earlier answer was
    unusable, and the number of requests is the position of that answer. *)
Theorem getTravisStatus_resolves_with (fuel : nat) (options : Push.StatusOptions.t)
    (responses : nat -> Push.StatusResponse) (events : list Push.Event)
    (status : Push.Status.t) :
  Push.getTravisStatus fuel options responses = Some (events, Resolved status) ->
  exists k sha statuses,
    (1 <= k <= Push.StatusOptions.retryAttempts options)%nat
    /\ responses k = Push.Combined sha statuses
    /\ In status statuses
    /\ Push.Status.context status = "continuous-integration/travis-ci/push"
    /\ (forall wanted, Push.StatusOptions.sha options = Some wanted -> sha = wanted)
    /\ (forall after,
          Push.StatusOptions.createdAfter options = Some after ->
          (after <= Push.Status.created_at status)%Z)
    /\ Push.requests events = k
    /\ forall j, (1 <= j < k)%nat -> Push.onStatus options (responses j) = None.
Proof.
  unfold Push.getTravisStatus.
  destruct (Push.statusRun fuel options responses 0) as [[events' settled]|] eqn:Hrun;
    [|discriminate].
  intros [= <- ->].
  destruct (statusRun_resolved _ _ _ _ _ _ Hrun) as (k & Hk & Hanswer & Hreq & Hbefore).
  destruct (onStatus_resolved _ _ _ Hanswer)
    as (sha & statuses & Hresponse & Hin & Hcontext & Hsha & Hafter).
  exists k, sha, statuses. split; [lia|]. do 5 (split; [assumption|]).
  split; [rewrite requests_wait; lia|]. intros j Hj. apply Hbefore. lia.
Qed.

Lemma getTravisStatus_resolves_with_witness :
  Push.getTravisStatus 4 Examples.threeAttempts Samples.readyAtSecond
  = Some ([Push.Wait 30000; Push.Request; Push.Wait 15000; Push.Request],
          Resolved Samples.travisStatus)
  /\ exists k sha statuses,
       Samples.readyAtSecond k = Push.Combined sha statuses
       /\ In Samples.travisStatus statuses
       /\ Push.requests [Push.Wait 30000; Push.Request; Push.Wait 15000; Push.Request] = k.
Proof.
  split; [reflexivity|].
  destruct (getTravisStatus_resolves_with 4 Examples.threeAttempts Samples.readyAtSecond
              _ _ eq_refl)
    as (k & sha & statuses & _ & Hresponse & Hin & _ & _ & _ & Hreq & _).
  exists k, sha, statuses. auto.
Defined.

(** X28.  When [awaitTravisBuild] resolves, it resolves with the state of a
    build of the awaited ref that is neither [created] nor [started]: the
    first answer that is not a failed request or a build still under way.
    The number of requests is the position of that answer. *)
Theorem awaitTravisBuild_resolves_with (fuel : nat) (options : Push.BuildOptions.t)
    (ref : string) (responses : nat -> Push.BuildResponse)
    (events : list Push.Event) (state : string) :
  Push.awaitTravisBuild fuel options ref responses = Some (events, Resolved state) ->
  exists k,
    (1 <= k <= Push.BuildOptions.maximumAttempts options)%nat
    /\ responses k = Push.Build state ref
    /\ state <> "created" /\ state <> "started"
    /\ Push.requests events = k
    /\ forall j, (1 <= j < k)%nat -> Push.stillBuilding ref (responses j) = true.
Proof.
  unfold Push.awaitTravisBuild. intros Hrun.
  destruct (buildRun_resolved _ _ _ _ _ _ _ _ Hrun)
    as (k & Hk & Hanswer & Hfinal & Hreq & Hbefore).
  apply includes_false in Hfinal. cbn [In] in Hfinal.
  exists k. split; [lia|]. split; [exact Hanswer|].
  split; [intros ->; tauto|]. split; [intros ->; tauto|].
  split; [lia|]. intros j Hj. apply Hbefore. lia.
Qed.

Lemma awaitTravisBuild_resolves_with_witness :
  Push.awaitTravisBuild 4 Push.defaultBuildOptions "master" Samples.passesAtThird
  = Some ([Push.Request; Push.Wait 15000; Push.Request; Push.Wait 15000; Push.Request],
          Resolved "passed")
  /\ exists k,
       Samples.passesAtThird k = Push.Build "passed" "master"
       /\ Push.requests
            [Push.Request; Push.Wait 15000; Push.Request; Push.Wait 15000; Push.Request]
          = k.
Proof.
  split; [reflexivity|].
  destruct (awaitTravisBuild_resolves_with 4 Push.defaultBuildOptions "master"
              Samples.passesAtThird _ _ eq_refl)
    as (k & _ & Hanswer & _ & _ & Hreq & _).
  exists k. auto.
Defined.
